(** * ComplicatedReaderWriterTest.c: the generator, the detector and the two
      worker loops, embedded as state-passing programs.

    Source: correctness-experiments/first-attempts/load-rematerialization-in-c/
            ComplicatedReaderWriterTest.c

    Conventions of the embedding.
    - [unsigned int] values are integers in [0, 2^32); an operation that can
      leave that range is followed by [uint32].  [int] values are wrapped by
      [int32] where the C arithmetic can leave the range (the C standard
      leaves that case undefined; two's-complement wrap-around is what the
      usual targets compute).
    - A C array is a [list]; an access outside it is the outcome [Fault].
    - A function that mutates memory is a program of the monad [M S]: it
      takes the store [S] and yields an outcome [result S A].
    - [exit(code)] is the outcome [Exited code s], which every later
      statement propagates unchanged.
    - The reject-and-resample [while] loops carry fuel; running out of it is
      the outcome [NoFuel].
    - Semaphore operations and [usleep] do not touch the modelled store and
      are left out; the two workers are modelled as sequential programs. *)

From Stdlib Require Import ZArith Lia.
From stdpp Require Import base numbers list strings gmap.

Local Open Scope Z_scope.

(** ** Machine integers *)

Definition uint32 (z : Z) : Z := z mod 2 ^ 32.
Definition int32 (z : Z) : Z := (z + 2 ^ 31) mod 2 ^ 32 - 2 ^ 31.

(** ** Outcomes and the program monad *)

Inductive result (S A : Type) : Type :=
| Ok (a : A) (s : S)
| Exited (code : Z) (s : S)
| Fault
| NoFuel.
Arguments Ok {S A} a s.
Arguments Exited {S A} code s.
Arguments Fault {S A}.
Arguments NoFuel {S A}.

Definition M (S A : Type) : Type := S -> result S A.

Definition ret {S A} (a : A) : M S A := fun s => Ok a s.

Definition bind {S A B} (m : M S A) (k : A -> M S B) : M S B :=
  fun s =>
    match m s with
    | Ok a s' => k a s'
    | Exited c s' => Exited c s'
    | Fault => Fault
    | NoFuel => NoFuel
    end.

Definition get {S} : M S S := fun s => Ok s s.
Definition modify {S} (f : S -> S) : M S unit := fun s => Ok tt (f s).
Definition exit {S A} (code : Z) : M S A := fun s => Exited code s.

Declare Scope prog_scope.
Delimit Scope prog_scope with prog.
Notation "x <- c1 ;; c2" := (bind c1 (fun x => c2))
  (at level 100, c1 at next level, c2 at level 200, right associativity,
   only parsing) : prog_scope.
Notation "c1 ;;; c2" := (bind c1 (fun _ => c2))
  (at level 100, c2 at level 200, right associativity, only parsing)
  : prog_scope.
Local Open Scope prog_scope.

(** Run a program on a local object [l] (a struct living on the caller's
    stack) from inside a program over the store [S]. *)
Definition on_local {S L A} (m : M L A) (l : L) : M S (A * L) :=
  fun s =>
    match m l with
    | Ok a l' => Ok (a, l') s
    | Exited c _ => Exited c s
    | Fault => Fault
    | NoFuel => NoFuel
    end.

(** [for (int i = lo; i < lo + n; ++i) body(i)], threading the locals [l]
    that the body updates. *)
Fixpoint for_loop {S L} (n : nat) (i : Z) (body : Z -> L -> M S L) (l : L)
  : M S L :=
  match n with
  | O => ret l
  | Datatypes.S n' => l' <- body i l ;; for_loop n' (i + 1) body l'
  end.

(** [while (cond(l)) l = body(l);] with fuel. *)
Fixpoint while_loop {S L} (fuel : nat) (cond : L -> M S bool)
    (body : L -> M S L) (l : L) : M S L :=
  match fuel with
  | O => fun _ => NoFuel
  | Datatypes.S fuel' =>
      b <- cond l ;;
      if b : bool then l' <- body l ;; while_loop fuel' cond body l'
      else ret l
  end.

(** ** C arrays *)

Definition load {A} (a : list A) (i : Z) : option A :=
  if bool_decide (0 <= i) then a !! Z.to_nat i else None.

Definition store {A} (a : list A) (i : Z) (v : A) : option (list A) :=
  if bool_decide (0 <= i < Z.of_nat (length a))
  then Some (<[Z.to_nat i := v]> a) else None.

(** ** MersenneTwister *)

Definition MT_IA : Z := 397.
Definition MT_LEN : Z := 624.

Record MyRandom : Type := mkMyRandom {
  m_buffer : list Z;
  m_index : Z
}.

Definition buf_load (i : Z) : M MyRandom Z :=
  fun r => match load (m_buffer r) i with
           | Some v => Ok v r
           | None => Fault
           end.

Definition buf_store (i : Z) (v : Z) : M MyRandom unit :=
  fun r => match store (m_buffer r) i v with
           | Some b => Ok tt (mkMyRandom b (m_index r))
           | None => Fault
           end.

Definition set_index (i : Z) : M MyRandom unit :=
  fun r => Ok tt (mkMyRandom (m_buffer r) i).

(** The three positions [nextInt] computes from the cursor. *)
Definition nextInt_i (r : MyRandom) : Z := m_index r.
Definition nextInt_i2 (r : MyRandom) : Z :=
  if bool_decide (m_index r + 1 >= MT_LEN) then 0 else m_index r + 1.
Definition nextInt_j (r : MyRandom) : Z :=
  if bool_decide (m_index r + MT_IA >= MT_LEN)
  then m_index r + MT_IA - MT_LEN else m_index r + MT_IA.

(** [s] and [r] of the "Twist" paragraph. *)
Definition twist_s (bi bi2 : Z) : Z :=
  Z.lor (Z.land bi 0x80000000) (Z.land bi2 0x7fffffff).
Definition twist (bi bi2 bj : Z) : Z :=
  let s := twist_s bi bi2 in
  Z.lxor (Z.lxor bj (Z.shiftr s 1)) (uint32 (Z.land s 1 * 0x9908B0DF)).

(** The four statements of the "Swizzle" paragraph, one definition each. *)
Definition swizzle1 (r : Z) : Z := Z.lxor r (Z.shiftr r 11).
Definition swizzle2 (r : Z) : Z :=
  Z.lxor r (Z.land (uint32 (Z.shiftl r 7)) 0x9d2c5680).
Definition swizzle3 (r : Z) : Z :=
  Z.lxor r (Z.land (uint32 (Z.shiftl r 15)) 0xefc60000).
Definition swizzle4 (r : Z) : Z := Z.lxor r (Z.shiftr r 18).
Definition swizzle (r : Z) : Z := swizzle4 (swizzle3 (swizzle2 (swizzle1 r))).

Definition nextInt : M MyRandom Z :=
  myRandom <- get ;;
  let i := nextInt_i myRandom in
  let i2 := nextInt_i2 myRandom in
  let j := nextInt_j myRandom in
  bi <- buf_load i ;;
  bi2 <- buf_load i2 ;;
  bj <- buf_load j ;;
  let r := twist bi bi2 bj in
  buf_store (m_index myRandom) r ;;;
  set_index i2 ;;;
  ret (swizzle r).

(** [initMyRandom seed] runs on the local [newRandom], whose contents are
    indeterminate when the function is entered; the struct it returns is the
    final store. *)
Definition initMyRandom (seed : Z) : M MyRandom unit :=
  for_loop (Z.to_nat MT_LEN) 0 (fun i _ => buf_store i seed) tt ;;;
  set_index 0 ;;;
  for_loop (Z.to_nat (MT_LEN * 100)) 0
    (fun _ _ => _ <- nextInt ;; ret tt) tt.

(** Contents standing for an uninitialised [MyRandom] local. *)
Definition indeterminate_MyRandom : MyRandom :=
  mkMyRandom (replicate (Z.to_nat MT_LEN) 0) 0.

(** [MyRandom x = initMyRandom(seed);] inside a program over [S]. *)
Definition new_MyRandom {S} (seed : Z) : M S MyRandom :=
  p <- on_local (initMyRandom seed) indeterminate_MyRandom ;; ret (snd p).


(** ** The harness: constants and global state *)

Definition TEST_ITERS : Z := 1000.
Definition MAIN_RANDOM_START_SEED : Z := 65.
Definition READ_RANDOM_START_SEED : Z := 6565.
Definition WRITE_RANDOM_START_SEED : Z := 651.

Definition VALS_SIZE : Z := 100000.
Definition READER_ITERS : Z := 50000.
Definition WRITER_ITERS : Z := 50000.
Definition CHECK_EACH_ITER : Z := 50.
Definition CHECK_FIRST_VALS : Z := VALS_SIZE.

(** The global variables, and the text written to [stderr] so far. *)
Record state : Type := mkState {
  vals : list Z;
  lastValsScan : list Z;
  changedTimes : list Z;
  wasRead : list bool;
  wasWritten : list bool;
  savedRead : Z;
  stderr : list string
}.

Definition set_vals (a : list Z) (s : state) : state :=
  mkState a (lastValsScan s) (changedTimes s) (wasRead s) (wasWritten s)
          (savedRead s) (stderr s).
Definition set_lastValsScan (a : list Z) (s : state) : state :=
  mkState (vals s) a (changedTimes s) (wasRead s) (wasWritten s)
          (savedRead s) (stderr s).
Definition set_changedTimes (a : list Z) (s : state) : state :=
  mkState (vals s) (lastValsScan s) a (wasRead s) (wasWritten s)
          (savedRead s) (stderr s).
Definition set_wasRead (a : list bool) (s : state) : state :=
  mkState (vals s) (lastValsScan s) (changedTimes s) a (wasWritten s)
          (savedRead s) (stderr s).
Definition set_wasWritten (a : list bool) (s : state) : state :=
  mkState (vals s) (lastValsScan s) (changedTimes s) (wasRead s) a
          (savedRead s) (stderr s).
Definition set_savedRead (v : Z) (s : state) : state :=
  mkState (vals s) (lastValsScan s) (changedTimes s) (wasRead s)
          (wasWritten s) v (stderr s).

(** [a[i]] as an rvalue and [a[i] = v], for the global array selected by
    [proj] and written back by [upd]. *)
Definition arr_get {A} (proj : state -> list A) (i : Z) : M state A :=
  fun s => match load (proj s) i with
           | Some v => Ok v s
           | None => Fault
           end.

Definition arr_set {A} (proj : state -> list A)
    (upd : list A -> state -> state) (i : Z) (v : A) : M state unit :=
  fun s => match store (proj s) i v with
           | Some a => Ok tt (upd a s)
           | None => Fault
           end.

(** The character '\n' (code 10) as a one-character string. *)
Definition newline : string :=
  String (Ascii.Ascii false true false true false false false false)
         EmptyString.

Definition fprintf_stderr (line : string) : M state unit :=
  modify (fun s => mkState (vals s) (lastValsScan s) (changedTimes s)
                           (wasRead s) (wasWritten s) (savedRead s)
                           (stderr s ++ [line])).

Definition getRandomIndex : M MyRandom Z :=
  r <- nextInt ;; ret (r mod VALS_SIZE).

(** The body of the loop of [clearState]:
    [vals[i] = nextInt(&mainRandom);] *)
Definition clearState_slot (i : Z) (mainRandom : MyRandom)
  : M state MyRandom :=
  p <- on_local nextInt mainRandom ;;
  arr_set vals set_vals i (int32 (fst p)) ;;;
  ret (snd p).

Definition clearState (iter : Z) : M state unit :=
  mainRandom <- new_MyRandom (uint32 (MAIN_RANDOM_START_SEED + iter)) ;;
  _ <- for_loop (Z.to_nat VALS_SIZE) 0 clearState_slot mainRandom ;;
  ret tt.

(** ** The detector *)

Definition UB_message : string :=
  (newline +:+ "UB was caught!" +:+ newline)%string.

(** The body of the loop of [checkVals], for slot [i]. *)
Definition checkVals_slot (i : Z) : M state unit :=
  v <- arr_get vals i ;;
  l <- arr_get lastValsScan i ;;
  if bool_decide (v <> l) then
    c <- arr_get changedTimes i ;;
    arr_set changedTimes set_changedTimes i (int32 (c + 1)) ;;;
    c' <- arr_get changedTimes i ;;
    if bool_decide (c' > 1) then
      fprintf_stderr UB_message ;;;
      exit 0
    else
      arr_set lastValsScan set_lastValsScan i v
  else ret tt.

(** The loop of [checkVals] over the slots [0 .. n-1]. *)
Definition checkVals_upto (n : nat) : M state unit :=
  for_loop n 0 (fun i _ => checkVals_slot i) tt.

Definition checkVals : M state unit :=
  checkVals_upto (Z.to_nat CHECK_FIRST_VALS).

(** ** The reader *)

(** Lines 122-129: "prepare and wait". *)
Definition doReads_prepare_slot (i : Z) (_ : unit) : M state unit :=
  arr_set wasRead set_wasRead i false ;;;
  v <- arr_get vals i ;;
  arr_set lastValsScan set_lastValsScan i v ;;;
  arr_set changedTimes set_changedTimes i 0.

Definition doReads_prepare (iter : Z) : M state MyRandom :=
  for_loop (Z.to_nat VALS_SIZE) 0 doReads_prepare_slot tt ;;;
  modify (set_savedRead 0) ;;;
  new_MyRandom (uint32 (READ_RANDOM_START_SEED + iter)).

(** Lines 134-140: pick an index not read yet, mark it, read it. *)
Definition reader_access (fuel : nat) (readRandom : MyRandom)
  : M state MyRandom :=
  p <- on_local getRandomIndex readRandom ;;
  p <- while_loop fuel
         (fun p => arr_get wasRead (fst p))
         (fun p => on_local getRandomIndex (snd p))
         p ;;
  let readIndex := fst p in
  arr_set wasRead set_wasRead readIndex true ;;;
  read <- arr_get vals readIndex ;;
  s <- get ;;
  modify (set_savedRead
            (int32 ((read + read - 1) + (savedRead s - 1 + read) * read))) ;;;
  ret (snd p).

(** One iteration of the "act" loop of [doReads]. *)
Definition reader_iter (fuel : nat) (i : Z) (readRandom : MyRandom)
  : M state MyRandom :=
  readRandom <- reader_access fuel readRandom ;;
  (if bool_decide (Z.rem i CHECK_EACH_ITER = 0) then checkVals else ret tt) ;;;
  ret readRandom.

(** The first [n] iterations of the "act" loop. *)
Definition reader_loop (fuel : nat) (n : nat) (readRandom : MyRandom)
  : M state MyRandom :=
  for_loop n 0 (reader_iter fuel) readRandom.

Definition doReads_act (fuel : nat) (readRandom : MyRandom) : M state unit :=
  _ <- reader_loop fuel (Z.to_nat READER_ITERS) readRandom ;;
  fprintf_stderr ("Reader has finished" +:+ newline)%string.

Definition doReads (fuel : nat) (iter : Z) : M state unit :=
  readRandom <- doReads_prepare iter ;;
  doReads_act fuel readRandom.

(** ** The writer *)

(** Lines 153-157: "prepare and wait". *)
Definition doWrites_prepare_slot (i : Z) (_ : unit) : M state unit :=
  arr_set wasWritten set_wasWritten i false.

Definition doWrites_prepare (iter : Z) : M state MyRandom :=
  for_loop (Z.to_nat VALS_SIZE) 0 doWrites_prepare_slot tt ;;;
  new_MyRandom (uint32 (WRITE_RANDOM_START_SEED + iter)).

(** One iteration of the "act" loop of [doWrites]. *)
Definition writer_iter (fuel : nat) (i : Z) (writeRandom : MyRandom)
  : M state MyRandom :=
  p <- on_local getRandomIndex writeRandom ;;
  p <- while_loop fuel
         (fun p => arr_get wasWritten (fst p))
         (fun p => on_local getRandomIndex (snd p))
         p ;;
  let writeIndex := fst p in
  arr_set wasWritten set_wasWritten writeIndex true ;;;
  q <- on_local nextInt (snd p) ;;
  arr_set vals set_vals writeIndex (int32 (fst q)) ;;;
  ret (snd q).

(** The first [n] iterations of the "act" loop. *)
Definition writer_loop (fuel : nat) (n : nat) (writeRandom : MyRandom)
  : M state MyRandom :=
  for_loop n 0 (writer_iter fuel) writeRandom.

Definition doWrites_act (fuel : nat) (writeRandom : MyRandom) : M state unit :=
  _ <- writer_loop fuel (Z.to_nat WRITER_ITERS) writeRandom ;;
  fprintf_stderr ("Writer has finished" +:+ newline)%string.

Definition doWrites (fuel : nat) (iter : Z) : M state unit :=
  writeRandom <- doWrites_prepare iter ;;
  doWrites_act fuel writeRandom.


(** * Specifications *)

(** [wp m Q s]: from [s] the program [m] returns, and its value and final
    store satisfy [Q]. *)
Definition wp {S A} (m : M S A) (Q : A -> S -> Prop) (s : S) : Prop :=
  match m s with
  | Ok a s' => Q a s'
  | _ => False
  end.


(** ** The generator *)

(** The array [m_buffer] of a [MyRandom] has [MT_LEN] words (its C type). *)
Definition buffer_ok (r : MyRandom) : Prop :=
  length (m_buffer r) = Z.to_nat MT_LEN.

(** The invariant on the cursor. *)
Definition index_ok (r : MyRandom) : Prop := 0 <= m_index r < MT_LEN.

(** The values of type [unsigned int]. *)
Definition word (z : Z) : Prop := 0 <= z < 2 ^ 32.

(** Every element of [m_buffer] is an [unsigned int] (its C type). *)
Definition words_ok (r : MyRandom) : Prop := Forall word (m_buffer r).

(** The raw value computed by the "Twist" paragraph from the store [r]. *)
Definition nextInt_raw (r : MyRandom) : Z :=
  twist (m_buffer r !!! Z.to_nat (nextInt_i r))
        (m_buffer r !!! Z.to_nat (nextInt_i2 r))
        (m_buffer r !!! Z.to_nat (nextInt_j r)).

(** The first [n] values returned by consecutive calls of [nextInt]. *)
Fixpoint draws (n : nat) : M MyRandom (list Z) :=
  match n with
  | O => ret []
  | Datatypes.S n' => v <- nextInt ;; vs <- draws n' ;; ret (v :: vs)
  end.

(** A generator instance: the local struct is initialised with [seed], then
    [n] values are drawn from it. *)
Definition generator_outputs (seed : Z) (n : nat) : M MyRandom (list Z) :=
  initMyRandom seed ;;; draws n.

(** After the fill and the reset of the cursor nothing of the indeterminate
    initial contents is left. *)
Definition seeded (seed : Z) : MyRandom :=
  mkMyRandom (replicate (Z.to_nat MT_LEN) seed) 0.

(** The reading of "combines two buffer slots ... to produce a raw value":
    for every cursor there are two positions of the buffer that determine
    the raw value. *)
Definition raw_from_two_slots : Prop :=
  forall cursor, 0 <= cursor < MT_LEN ->
    exists p q : nat,
      forall b b' : list Z,
        length b = Z.to_nat MT_LEN -> length b' = Z.to_nat MT_LEN ->
        b !! p = b' !! p -> b !! q = b' !! q ->
        nextInt_raw (mkMyRandom b cursor) = nextInt_raw (mkMyRandom b' cursor).

(** ** The harness *)

(** [wlp X m Q s]: from [s] the program [m] does not fault; if it returns,
    its value and final store satisfy [Q]; if it calls [exit], the exit code
    and the store at that moment satisfy [X].  (The remaining case is a
    [while] loop that is out of fuel.) *)
Definition wlp {S A} (X : Z -> S -> Prop) (m : M S A) (Q : A -> S -> Prop)
    (s : S) : Prop :=
  match m s with
  | Ok a s' => Q a s'
  | Exited c s' => X c s'
  | Fault => False
  | NoFuel => True
  end.

(** Exit postconditions: [exit] is not called / may be called. *)
Definition no_exit {S} : Z -> S -> Prop := fun _ _ => False.
Definition any_exit {S} : Z -> S -> Prop := fun _ _ => True.

(** The generator invariant. *)
Definition rng_ok (r : MyRandom) : Prop := buffer_ok r /\ index_ok r.

(** The five global arrays have [VALS_SIZE] elements (their C types). *)
Definition wf_state (s : state) : Prop :=
  length (vals s) = Z.to_nat VALS_SIZE
  /\ length (lastValsScan s) = Z.to_nat VALS_SIZE
  /\ length (changedTimes s) = Z.to_nat VALS_SIZE
  /\ length (wasRead s) = Z.to_nat VALS_SIZE
  /\ length (wasWritten s) = Z.to_nat VALS_SIZE.

(** Every change counter is 0 or 1. *)
Definition counters01 (s : state) : Prop :=
  forall k c, changedTimes s !! k = Some c -> c = 0 \/ c = 1.

(** The detector has not fired and every change counter is 0 or 1. *)
Definition never_triggered {A} (o : result state A) : Prop :=
  match o with
  | Ok _ s => counters01 s
  | Exited _ _ => False
  | Fault => False
  | NoFuel => True
  end.

(** [vals[i] = v], done from outside the detector. *)
Definition poke (i : Z) (v : Z) (s : state) : state :=
  set_vals (<[Z.to_nat i := v]> (vals s)) s.

(** Number of flags set in a touched-flag array. *)
Definition touched (flags : list bool) : nat :=
  length (filter (fun b => b = true) flags).

(** Forget the value a program returns. *)
Definition void {S A} (m : M S A) : M S unit := _ <- m ;; ret tt.

(** The store at the moment [exit] is called by [checkVals] at slot [i]. *)
Definition fired (i : Z) (s : state) : state :=
  mkState (vals s) (lastValsScan s)
          (<[Z.to_nat i := int32 (changedTimes s !!! Z.to_nat i + 1)]>
             (changedTimes s))
          (wasRead s) (wasWritten s) (savedRead s)
          (stderr s ++ [UB_message]).

(** The store after [checkVals] has recorded a change at slot [i]. *)
Definition recorded (i : Z) (s : state) : state :=
  mkState (vals s)
          (<[Z.to_nat i := vals s !!! Z.to_nat i]> (lastValsScan s))
          (<[Z.to_nat i := int32 (changedTimes s !!! Z.to_nat i + 1)]>
             (changedTimes s))
          (wasRead s) (wasWritten s) (savedRead s) (stderr s).

(** What a returning run of [checkVals] over the first [n] slots leaves
    unchanged. *)
Definition check_frame (n : nat) (s s' : state) : Prop :=
  vals s' = vals s /\ wasRead s' = wasRead s /\ wasWritten s' = wasWritten s
  /\ savedRead s' = savedRead s /\ stderr s' = stderr s
  /\ length (lastValsScan s') = length (lastValsScan s)
  /\ length (changedTimes s') = length (changedTimes s)
  /\ forall k, (n <= k)%nat ->
       lastValsScan s' !! k = lastValsScan s !! k
       /\ changedTimes s' !! k = changedTimes s !! k.


(** A store used in examples: every array is zero, except that the writer
    has stored 7 in [vals[3]] since the last snapshot. *)
Definition example_state : state :=
  mkState (<[Z.to_nat 3 := 7]> (replicate (Z.to_nat VALS_SIZE) 0))
          (replicate (Z.to_nat VALS_SIZE) 0)
          (replicate (Z.to_nat VALS_SIZE) 0)
          (replicate (Z.to_nat VALS_SIZE) false)
          (replicate (Z.to_nat VALS_SIZE) false)
          0 [].

(** The contents [clearState iter] gives the shared array: the first
    [VALS_SIZE] outputs of a generator seeded with
    [MAIN_RANDOM_START_SEED + iter], converted to [int]. *)
Definition returned {S A} (default : A) (o : result S A) : A :=
  match o with
  | Ok a _ => a
  | _ => default
  end.

Definition fresh_vals (iter : Z) : list Z :=
  map int32
    (returned []
       (generator_outputs (uint32 (MAIN_RANDOM_START_SEED + iter))
          (Z.to_nat VALS_SIZE) indeterminate_MyRandom)).

(** The bookkeeping arrays as the start of a trial needs them: counters 0,
    no index touched, snapshot equal to the shared array. *)
Definition bookkeeping_cleared (s : state) : Prop :=
  changedTimes s = replicate (Z.to_nat VALS_SIZE) 0
  /\ wasRead s = replicate (Z.to_nat VALS_SIZE) false
  /\ wasWritten s = replicate (Z.to_nat VALS_SIZE) false
  /\ lastValsScan s = vals s.

(** A store as a previous trial can leave it: slot 0 was written, read and
    seen to change once. *)
Definition stale_state : state :=
  mkState (<[Z.to_nat 0 := 7]> (replicate (Z.to_nat VALS_SIZE) 0))
          (<[Z.to_nat 0 := 7]> (replicate (Z.to_nat VALS_SIZE) 0))
          (<[Z.to_nat 0 := 1]> (replicate (Z.to_nat VALS_SIZE) 0))
          (<[Z.to_nat 0 := true]> (replicate (Z.to_nat VALS_SIZE) false))
          (<[Z.to_nat 0 := true]> (replicate (Z.to_nat VALS_SIZE) false))
          0 [].

(** The invariant of the detector while the shared array does not change
    under it: a slot that has been seen to change once holds the value of
    its snapshot. *)
Definition det_inv (s : state) : Prop :=
  wf_state s
  /\ forall k, (k < Z.to_nat VALS_SIZE)%nat ->
       changedTimes s !!! k = 0
       \/ (changedTimes s !!! k = 1 /\ lastValsScan s !!! k = vals s !!! k).

(** What one iteration of a worker does to its touched-flag array: it marks
    an index that was not marked. *)
Definition marks_fresh (flags flags' : list bool) (idx : Z) : Prop :=
  0 <= idx < VALS_SIZE
  /\ flags !! Z.to_nat idx = Some false
  /\ flags' = <[Z.to_nat idx := true]> flags.

(** ** Sequential runs of the two workers *)

(** The outcomes observed along the "act" phase of the reader started with
    generator [rr] in store [s]: after each number of completed iterations,
    inside [checkVals] after each number of slots, and at the end. *)
Inductive reader_point (fuel : nat) (rr : MyRandom) (s : state)
  : result state unit -> Prop :=
| reader_at_iteration n :
    (n <= Z.to_nat READER_ITERS)%nat ->
    reader_point fuel rr s (void (reader_loop fuel n rr) s)
| reader_in_check n rr_n s_n rr' s' m :
    (n < Z.to_nat READER_ITERS)%nat ->
    reader_loop fuel n rr s = Ok rr_n s_n ->
    reader_access fuel rr_n s_n = Ok rr' s' ->
    Z.rem (Z.of_nat n) CHECK_EACH_ITER = 0 ->
    (m <= Z.to_nat CHECK_FIRST_VALS)%nat ->
    reader_point fuel rr s (checkVals_upto m s')
| reader_at_end :
    reader_point fuel rr s (doReads_act fuel rr s).

(** The same for the "act" phase of the writer. *)
Inductive writer_point (fuel : nat) (rw : MyRandom) (s : state)
  : result state unit -> Prop :=
| writer_at_iteration n :
    (n <= Z.to_nat WRITER_ITERS)%nat ->
    writer_point fuel rw s (void (writer_loop fuel n rw) s)
| writer_at_end :
    writer_point fuel rw s (doWrites_act fuel rw s).

(** The outcomes observed along a call of [doReads]: during its
    preparation loop, then along its "act" phase. *)
Inductive doReads_point (fuel : nat) (iter : Z) (s : state)
  : result state unit -> Prop :=
| reads_preparing k :
    (k <= Z.to_nat VALS_SIZE)%nat ->
    doReads_point fuel iter s (for_loop k 0 doReads_prepare_slot tt s)
| reads_acting rr s0 o :
    doReads_prepare iter s = Ok rr s0 ->
    reader_point fuel rr s0 o ->
    doReads_point fuel iter s o.

Inductive doWrites_point (fuel : nat) (iter : Z) (s : state)
  : result state unit -> Prop :=
| writes_preparing k :
    (k <= Z.to_nat VALS_SIZE)%nat ->
    doWrites_point fuel iter s (for_loop k 0 doWrites_prepare_slot tt s)
| writes_acting rw s0 o :
    doWrites_prepare iter s = Ok rw s0 ->
    writer_point fuel rw s0 o ->
    doWrites_point fuel iter s o.

(** Both workers have run their preparation phase, in either order, as
    they do in [test] before the start semaphores are posted. *)
Definition prepared (iter : Z) (s : state) (rr rw : MyRandom) (s0 : state)
  : Prop :=
  (exists s1, doReads_prepare iter s = Ok rr s1
              /\ doWrites_prepare iter s1 = Ok rw s0)
  \/ (exists s1, doWrites_prepare iter s = Ok rw s1
                 /\ doReads_prepare iter s1 = Ok rr s0).

(** The outcomes observed along the runs of one trial in which the writer
    and the reader do not overlap: one worker function is called and
    completes before the other is called (in either order), or both
    prepare and then the two "act" phases run one after the other (in
    either order). *)
Inductive sequential_point (fuel : nat) (iter : Z) (s : state)
  : result state unit -> Prop :=
| writer_first_writing o :
    doWrites_point fuel iter s o -> sequential_point fuel iter s o
| writer_first_reading s1 o :
    doWrites fuel iter s = Ok tt s1 ->
    doReads_point fuel iter s1 o -> sequential_point fuel iter s o
| reader_first_reading o :
    doReads_point fuel iter s o -> sequential_point fuel iter s o
| reader_first_writing s1 o :
    doReads fuel iter s = Ok tt s1 ->
    doWrites_point fuel iter s1 o -> sequential_point fuel iter s o
| gated_writer_acts rr rw s0 o :
    prepared iter s rr rw s0 ->
    writer_point fuel rw s0 o -> sequential_point fuel iter s o
| gated_reader_follows rr rw s0 s1 o :
    prepared iter s rr rw s0 ->
    doWrites_act fuel rw s0 = Ok tt s1 ->
    reader_point fuel rr s1 o -> sequential_point fuel iter s o
| gated_reader_acts rr rw s0 o :
    prepared iter s rr rw s0 ->
    reader_point fuel rr s0 o -> sequential_point fuel iter s o
| gated_writer_follows rr rw s0 s1 o :
    prepared iter s rr rw s0 ->
    doReads_act fuel rr s0 = Ok tt s1 ->
    writer_point fuel rw s1 o -> sequential_point fuel iter s o.

(** ** An executable replay of the index selection *)

(** Whether a worker's loop completes depends on its generator and on its
    touched flags only.  The definitions below replay exactly that part on
    cheaper data, so that whole runs can be evaluated: the generator buffer
    is kept rotated with the cursor at its head, and the touched flags are
    a finite map of the marked indices. *)

Definition mask32 (z : Z) : Z := Z.land z 0xFFFFFFFF.

Definition replay_twist (bi bi2 bj : Z) : Z :=
  let s := twist_s bi bi2 in
  Z.lxor (Z.lxor bj (Z.shiftr s 1)) (mask32 (Z.land s 1 * 0x9908B0DF)).

Definition replay_swizzle (r : Z) : Z :=
  let r := Z.lxor r (Z.shiftr r 11) in
  let r := Z.lxor r (Z.land (mask32 (Z.shiftl r 7)) 0x9d2c5680) in
  let r := Z.lxor r (Z.land (mask32 (Z.shiftl r 15)) 0xefc60000) in
  Z.lxor r (Z.shiftr r 18).

(** The buffer of [r], read from the cursor on, with wrap-around. *)
Definition rotated (r : MyRandom) : list Z :=
  drop (Z.to_nat (m_index r)) (m_buffer r)
  ++ take (Z.to_nat (m_index r)) (m_buffer r).

(** [nextInt] on a rotated buffer: the value returned and the next rotated
    buffer. *)
Definition replay_next (l : list Z) : Z * list Z :=
  let r := replay_twist (l !!! 0%nat) (l !!! 1%nat) (l !!! Z.to_nat MT_IA) in
  (replay_swizzle r, tail l ++ [r]).

Fixpoint replay_skip (n : nat) (l : list Z) : list Z :=
  match n with
  | O => l
  | Datatypes.S n' => replay_skip n' (snd (replay_next l))
  end.

Definition replay_init (seed : Z) : list Z :=
  replay_skip (Z.to_nat (MT_LEN * 100)) (replicate (Z.to_nat MT_LEN) seed).

(** The marked indices [X] stand for the flag array [flags]. *)
Definition flags_of (X : gmap Z unit) (flags : list bool) : Prop :=
  forall i, 0 <= i < Z.of_nat (length flags) ->
            flags !!! Z.to_nat i = bool_decide (is_Some (X !! i)).

(** The reject-and-resample loop. *)
Fixpoint replay_resample (fuel : nat) (idx : Z) (l : list Z)
    (X : gmap Z unit) : option (Z * list Z) :=
  match fuel with
  | O => None
  | Datatypes.S fuel' =>
      if bool_decide (is_Some (X !! idx))
      then let p := replay_next l in
           replay_resample fuel' (fst p mod VALS_SIZE) (snd p) X
      else Some (idx, l)
  end.

(** One iteration of a worker: the reader draws indices only, the writer
    ([and_value = true]) draws the value it stores as well. *)
Definition replay_iter (and_value : bool) (fuel : nat)
    (st : list Z * gmap Z unit) : option (list Z * gmap Z unit) :=
  let p := replay_next (fst st) in
  match replay_resample fuel (fst p mod VALS_SIZE) (snd p) (snd st) with
  | None => None
  | Some (idx, l) =>
      Some (if and_value then snd (replay_next l) else l,
            <[idx := tt]> (snd st))
  end.

Fixpoint replay_loop (n : nat) (step : list Z * gmap Z unit ->
                                      option (list Z * gmap Z unit))
    (st : list Z * gmap Z unit) : option (list Z * gmap Z unit) :=
  match n with
  | O => Some st
  | Datatypes.S n' =>
      match step st with
      | None => None
      | Some st' => replay_loop n' step st'
      end
  end.

Definition completes {A} (o : option A) : bool :=
  match o with
  | Some _ => true
  | None => false
  end.

(** Fuel for the resample loops in evaluated runs. *)
Definition TRIAL_FUEL : nat := Z.to_nat 1000.

Definition writer_replay (iter : Z) : option (list Z * gmap Z unit) :=
  replay_loop (Z.to_nat WRITER_ITERS) (replay_iter true TRIAL_FUEL)
    (replay_init (uint32 (WRITE_RANDOM_START_SEED + iter)), ∅).

Definition reader_replay (iter : Z) : option (list Z * gmap Z unit) :=
  replay_loop (Z.to_nat READER_ITERS) (replay_iter false TRIAL_FUEL)
    (replay_init (uint32 (READ_RANDOM_START_SEED + iter)), ∅).

(** Three iterations of a worker's loop from a freshly filled generator
    and no index touched. *)
Definition short_run (and_value : bool) : bool :=
  completes (replay_loop 3 (replay_iter and_value TRIAL_FUEL)
               (rotated (seeded 5), ∅)).

(** * Further specifications *)

(** Slot [i] makes [checkVals] call [exit]: its value differs from the
    snapshot and the incremented change counter exceeds 1. *)
Definition alarming (s : state) (i : Z) : Prop :=
  vals s !!! Z.to_nat i <> lastValsScan s !!! Z.to_nat i
  /\ int32 (changedTimes s !!! Z.to_nat i + 1) > 1.

(** The change counter of slot [k] after [checkVals] has passed it. *)
Definition counted (s : state) (k : nat) : Z :=
  if bool_decide (vals s !!! k <> lastValsScan s !!! k)
  then int32 (changedTimes s !!! k + 1) else changedTimes s !!! k.

(** A store in which both workers have marked every index. *)
Definition exhausted_state : state :=
  mkState (replicate (Z.to_nat VALS_SIZE) 0)
          (replicate (Z.to_nat VALS_SIZE) 0)
          (replicate (Z.to_nat VALS_SIZE) 0)
          (replicate (Z.to_nat VALS_SIZE) true)
          (replicate (Z.to_nat VALS_SIZE) true)
          0 [].

(** From the store [s] to the store [s'] the writer has kept what it
    wrote: an index marked in [s] is marked in [s'] and holds the same
    value, and an index not marked in [s'] was not marked in [s] and holds
    the same value. *)
Definition written_once (s s' : state) : Prop :=
  forall k : nat,
    (wasWritten s !! k = Some true ->
     wasWritten s' !! k = Some true /\ vals s' !! k = vals s !! k)
    /\ (wasWritten s' !! k = Some false ->
        wasWritten s !! k = Some false /\ vals s' !! k = vals s !! k).

(** The store in which the reader's loop calls [exit], seen from the store
    [s] in which the loop started. *)
Definition reader_exit (s : state) (code : Z) (s' : state) : Prop :=
  code = 0 /\ vals s' = vals s /\ wasWritten s' = wasWritten s
  /\ stderr s' = stderr s ++ [UB_message].

(** ** Interleaved runs of the two workers *)

(** The steps of the two "act" phases that access the shared array, each of
    them once: an iteration of the writer's loop (one store to [vals]), the
    index selection and read of a reader iteration (one load), and the
    detector's check of one slot (one load, [int v = vals[i]]). *)
Inductive action : Type :=
| writer_iteration (i : Z)
| reader_read
| detector_slot (i : Z).

(** One step, on the pair of the reader's and the writer's generator. *)
Definition perform (fuel : nat) (a : action) (g : MyRandom * MyRandom)
  : M state (MyRandom * MyRandom) :=
  match a with
  | writer_iteration i =>
      writeRandom <- writer_iter fuel i (snd g) ;; ret (fst g, writeRandom)
  | reader_read =>
      readRandom <- reader_access fuel (fst g) ;; ret (readRandom, snd g)
  | detector_slot i => checkVals_slot i ;;; ret g
  end.

(** The steps of a schedule, one after the other. *)
Fixpoint interleaving (fuel : nat) (sched : list action)
    (g : MyRandom * MyRandom) : M state (MyRandom * MyRandom) :=
  match sched with
  | [] => ret g
  | a :: sched' => g' <- perform fuel a g ;; interleaving fuel sched' g'
  end.

(** The detector checks slots of the array only. *)
Definition in_array (a : action) : Prop :=
  match a with
  | detector_slot i => 0 <= i < CHECK_FIRST_VALS
  | _ => True
  end.

(** The invariant of the detector while the writer runs beside it: every
    change counter is 0 or 1; a slot counted once has been written and its
    snapshot is up to date; the snapshot of a slot not written yet is up to
    date. *)
Definition race_inv (s : state) : Prop :=
  wf_state s
  /\ forall k, (k < Z.to_nat VALS_SIZE)%nat ->
       (changedTimes s !!! k = 0 \/ changedTimes s !!! k = 1)
       /\ (changedTimes s !!! k = 1 ->
           lastValsScan s !!! k = vals s !!! k /\ wasWritten s !!! k = true)
       /\ (wasWritten s !!! k = false ->
           lastValsScan s !!! k = vals s !!! k).

(** The schedules of the sequential code: [n] iterations of the writer's
    loop, the loop of [checkVals] over the first [n] slots, and iteration
    [i] of the reader's loop. *)
Definition writer_schedule (lo n : nat) : list action :=
  map (fun k => writer_iteration (Z.of_nat k)) (seq lo n).

Definition check_schedule (lo n : nat) : list action :=
  map (fun k => detector_slot (Z.of_nat k)) (seq lo n).

Definition reader_schedule (i : Z) : list action :=
  reader_read
  :: (if bool_decide (Z.rem i CHECK_EACH_ITER = 0)
      then check_schedule 0 (Z.to_nat CHECK_FIRST_VALS) else []).
(** * Reasoning principles *)

(** ** Outcomes *)

Lemma wp_Ok {S A} (m : M S A) Q s :
  wp m Q s <-> exists a s', m s = Ok a s' /\ Q a s'.
Proof.
  unfold wp. split.
  - destruct (m s) as [a s'| | |]; try tauto. eauto.
  - intros (a & s' & -> & HQ). exact HQ.
Qed.

Lemma wp_elim {S A} (m : M S A) Q s :
  wp m Q s -> exists a s', m s = Ok a s' /\ Q a s'.
Proof. apply wp_Ok. Qed.

Lemma wp_intro {S A} (m : M S A) (Q : A -> S -> Prop) s a s' :
  m s = Ok a s' -> Q a s' -> wp m Q s.
Proof. intros Hm HQ. apply wp_Ok. eauto. Qed.

Lemma wp_mono {S A} (m : M S A) (Q Q' : A -> S -> Prop) s :
  (forall a s', Q a s' -> Q' a s') -> wp m Q s -> wp m Q' s.
Proof. unfold wp. destruct (m s); auto. Qed.

Lemma wp_bind {S A B} (m : M S A) (k : A -> M S B) Q s :
  wp m (fun a s' => wp (k a) Q s') s -> wp (bind m k) Q s.
Proof. unfold wp, bind. destruct (m s); auto. Qed.

Lemma bind_Ok {S A B} (m : M S A) (k : A -> M S B) s a s' :
  m s = Ok a s' -> bind m k s = k a s'.
Proof. unfold bind. intros ->. reflexivity. Qed.

Lemma bind_Ok_inv {S A B} (m : M S A) (k : A -> M S B) s b s2 :
  bind m k s = Ok b s2 -> exists a s1, m s = Ok a s1 /\ k a s1 = Ok b s2.
Proof. unfold bind. destruct (m s) as [a s1| | |]; try discriminate. eauto. Qed.

(** [run H]: the program at the head of the goal starts with a call whose
    outcome [H] gives; continue with what follows the call. *)
Ltac run H := rewrite (bind_Ok _ _ _ _ _ H).

(** ** Loops *)

Lemma for_loop_S {S L} n i (body : Z -> L -> M S L) l s :
  for_loop (Datatypes.S n) i body l s
  = bind (body i l) (fun l' => for_loop n (i + 1) body l') s.
Proof. reflexivity. Qed.

Lemma for_loop_app {S L} n m i (body : Z -> L -> M S L) l s :
  for_loop (n + m) i body l s
  = bind (for_loop n i body l)
         (fun l' => for_loop m (i + Z.of_nat n) body l') s.
Proof.
  revert i l s. induction n as [|n IH]; intros i l s.
  - replace (i + Z.of_nat 0) with i by lia. reflexivity.
  - replace (i + Z.of_nat (Datatypes.S n)) with (i + 1 + Z.of_nat n) by lia.
    cbn [Nat.add for_loop]. unfold bind.
    destruct (body i l s) as [l1 s1| | |]; try reflexivity.
    rewrite IH. reflexivity.
Qed.

(** Running one more iteration: the loop over [n + 1] indices is the loop
    over [n] indices followed by the body at index [i + n]. *)
Lemma for_loop_snoc {S L} n i (body : Z -> L -> M S L) l s :
  for_loop (Datatypes.S n) i body l s
  = bind (for_loop n i body l) (fun l' => body (i + Z.of_nat n) l') s.
Proof.
  replace (Datatypes.S n) with (n + 1)%nat by lia.
  rewrite for_loop_app. unfold bind.
  destruct (for_loop n i body l s) as [l1 s1| | |]; try reflexivity.
  cbn [for_loop]. unfold bind, ret.
  destruct (body (i + Z.of_nat n) l1 s1); reflexivity.
Qed.

(** The loop rule: an invariant [I i l s] that every iteration re-establishes
    at the next index holds when the loop returns, and the loop returns. *)
Lemma wp_for_loop {S L} (I : Z -> L -> S -> Prop) n i
    (body : Z -> L -> M S L) l s :
  (forall k l s, i <= k < i + Z.of_nat n -> I k l s ->
                 wp (body k l) (I (k + 1)) s) ->
  I i l s ->
  wp (for_loop n i body l) (I (i + Z.of_nat n)) s.
Proof.
  revert i l s. induction n as [|n IH]; intros i l s Hbody HI.
  - replace (i + Z.of_nat 0) with i by lia. exact HI.
  - rewrite Nat2Z.inj_succ in *.
    change (wp (bind (body i l) (fun l' => for_loop n (i + 1) body l'))
               (I (i + Z.succ (Z.of_nat n))) s).
    apply wp_bind.
    eapply wp_mono; [|apply Hbody; [lia|exact HI]].
    intros l' s' HI'. cbv beta.
    replace (i + Z.succ (Z.of_nat n)) with (i + 1 + Z.of_nat n) by lia.
    apply IH; [|exact HI'].
    intros k l0 s0 Hk. apply Hbody. lia.
Qed.

(** ** Arrays *)

Lemma load_in_range {A} `{Inhabited A} (a : list A) i :
  0 <= i < Z.of_nat (length a) -> load a i = Some (a !!! Z.to_nat i).
Proof.
  intros Hi. unfold load. rewrite bool_decide_eq_true_2 by lia.
  apply list_lookup_lookup_total_lt. lia.
Qed.


Lemma store_in_range {A} (a : list A) i v :
  0 <= i < Z.of_nat (length a) -> store a i v = Some (<[Z.to_nat i := v]> a).
Proof. intros Hi. unfold store. rewrite bool_decide_eq_true_2 by lia. done. Qed.


(** * The generator *)

Lemma nextInt_positions r :
  index_ok r ->
  0 <= nextInt_i r < MT_LEN /\ 0 <= nextInt_i2 r < MT_LEN /\
  0 <= nextInt_j r < MT_LEN.
Proof.
  unfold index_ok, nextInt_i, nextInt_i2, nextInt_j, MT_LEN, MT_IA.
  intros Hi. repeat case_bool_decide; lia.
Qed.

Lemma nextInt_spec r :
  buffer_ok r -> index_ok r ->
  nextInt r
  = Ok (swizzle (nextInt_raw r))
       (mkMyRandom (<[Z.to_nat (m_index r) := nextInt_raw r]> (m_buffer r))
                   (nextInt_i2 r)).
Proof.
  intros Hb Hi. destruct (nextInt_positions r Hi) as (H1 & H2 & H3).
  unfold buffer_ok in Hb.
  unfold nextInt, bind, get, buf_load, buf_store, set_index, ret.
  rewrite !load_in_range by lia. cbn [m_buffer m_index].
  rewrite store_in_range by (unfold index_ok in Hi; lia).
  reflexivity.
Qed.

Lemma nextInt_preserves r :
  buffer_ok r -> index_ok r ->
  wp nextInt (fun _ r' => buffer_ok r' /\ index_ok r') r.
Proof.
  intros Hb Hi. unfold wp. rewrite nextInt_spec by assumption.
  split.
  - unfold buffer_ok in *. cbn [m_buffer]. rewrite length_insert. exact Hb.
  - unfold index_ok. cbn [m_index]. apply (nextInt_positions r Hi).
Qed.

(** The first loop of [initMyRandom] overwrites the whole buffer. *)
Lemma initMyRandom_fill seed g :
  buffer_ok g ->
  for_loop (Z.to_nat MT_LEN) 0 (fun i _ => buf_store i seed) tt g
  = Ok tt (mkMyRandom (replicate (Z.to_nat MT_LEN) seed) (m_index g)).
Proof.
  intros Hb. unfold buffer_ok in Hb.
  pose (I := fun (k : Z) (_ : unit) (r : MyRandom) =>
               0 <= k /\
               m_buffer r = replicate (Z.to_nat k) seed
                              ++ drop (Z.to_nat k) (m_buffer g) /\
               m_index r = m_index g).
  assert (Hwp : wp (for_loop (Z.to_nat MT_LEN) 0
                      (fun i _ => buf_store i seed) tt)
                   (I (0 + Z.of_nat (Z.to_nat MT_LEN))) g).
  { apply wp_for_loop.
    - intros k [] r Hk (Hk0 & Hbuf & Hidx). unfold wp, buf_store.
      assert (Hlen : length (m_buffer r) = length (m_buffer g)).
      { rewrite Hbuf, length_app, length_replicate, length_drop. lia. }
      rewrite store_in_range by lia.
      split; [lia|]. cbn [m_buffer m_index]. split; [|exact Hidx].
      rewrite Hbuf.
      destruct (lookup_lt_is_Some_2 (m_buffer g) (Z.to_nat k)) as [x Hx];
        [lia|].
      rewrite (drop_S _ _ _ Hx).
      rewrite insert_app_r_alt by (rewrite length_replicate; lia).
      rewrite length_replicate, Nat.sub_diag. cbn [insert list_insert].
      replace (Z.to_nat (k + 1)) with (Datatypes.S (Z.to_nat k)) by lia.
      rewrite replicate_S_end, <- app_assoc. reflexivity.
    - split; [lia|]. split; reflexivity. }
  unfold wp in Hwp.
  destruct (for_loop _ _ _ _ g) as [[] r| | |]; try contradiction.
  destruct Hwp as (_ & Hbuf & Hidx). f_equal.
  destruct r as [b ix]. cbn [m_buffer m_index] in *. subst ix. f_equal.
  rewrite Hbuf. replace (Z.to_nat (0 + Z.of_nat (Z.to_nat MT_LEN)))
    with (Z.to_nat MT_LEN) by lia.
  rewrite drop_ge by lia. apply app_nil_r.
Qed.

Lemma seeded_ok seed : buffer_ok (seeded seed) /\ index_ok (seeded seed).
Proof.
  split.
  - unfold buffer_ok, seeded. cbn [m_buffer]. apply length_replicate.
  - unfold index_ok, seeded, MT_LEN. cbn [m_index]. lia.
Qed.

Lemma wp_nextInt_loop n i r :
  buffer_ok r -> index_ok r ->
  wp (for_loop n i (fun _ _ => bind nextInt (fun _ => ret tt)) tt)
     (fun _ r' => buffer_ok r' /\ index_ok r') r.
Proof.
  intros Hb Hi.
  apply (wp_for_loop (fun _ _ r' => buffer_ok r' /\ index_ok r')).
  - intros k [] r0 _ [Hb0 Hi0]. apply wp_bind.
    eapply wp_mono; [|apply nextInt_preserves; assumption].
    intros v r1 H1. exact H1.
  - split; assumption.
Qed.

Lemma initMyRandom_seeded seed g :
  buffer_ok g ->
  initMyRandom seed g
  = for_loop (Z.to_nat (MT_LEN * 100)) 0
      (fun _ _ => bind nextInt (fun _ => ret tt)) tt (seeded seed).
Proof.
  intros Hb. unfold initMyRandom.
  rewrite (bind_Ok _ _ _ _ _ (initMyRandom_fill seed g Hb)).
  reflexivity.
Qed.

Lemma initMyRandom_ok seed g :
  buffer_ok g ->
  exists r, initMyRandom seed g = Ok tt r /\ buffer_ok r /\ index_ok r.
Proof.
  intros Hb. rewrite initMyRandom_seeded by assumption.
  destruct (seeded_ok seed) as [Hb0 Hi0].
  generalize (Z.to_nat (MT_LEN * 100)). intros n.
  destruct (wp_elim _ _ _ (wp_nextInt_loop n 0 _ Hb0 Hi0))
    as ([] & r & Hr & Hok).
  eauto.
Qed.

Lemma initMyRandom_indep seed g1 g2 :
  buffer_ok g1 -> buffer_ok g2 -> initMyRandom seed g1 = initMyRandom seed g2.
Proof.
  intros H1 H2.
  rewrite (initMyRandom_seeded seed g1 H1), (initMyRandom_seeded seed g2 H2).
  reflexivity.
Qed.

Lemma draws_ok n r :
  buffer_ok r -> index_ok r ->
  wp (draws n)
     (fun vs r' => length vs = n /\ buffer_ok r' /\ index_ok r') r.
Proof.
  revert r. induction n as [|n IH]; intros r Hb Hi.
  - cbn. unfold wp, ret. auto.
  - cbn [draws]. apply wp_bind.
    eapply wp_mono; [|apply nextInt_preserves; assumption].
    intros v r1 [Hb1 Hi1]. apply wp_bind.
    eapply wp_mono; [|apply IH; assumption].
    intros vs r2 (Hl & Hb2 & Hi2). unfold wp, ret. cbn. auto.
Qed.

(** ** Values stay within 32 bits *)

Lemma word_log2 z : 0 <= z -> (z < 2 ^ 32 <-> Z.log2 z < 32).
Proof.
  intros Hz. destruct (Z.eq_dec z 0) as [->|Hne].
  - cbn. lia.
  - apply Z.log2_lt_pow2. lia.
Qed.

Lemma word_lxor a b : word a -> word b -> word (Z.lxor a b).
Proof.
  unfold word. intros [Ha Ha'] [Hb Hb'].
  assert (H0 : 0 <= Z.lxor a b) by (apply Z.lxor_nonneg; tauto).
  split; [exact H0|]. apply word_log2; [exact H0|].
  apply word_log2 in Ha', Hb'; try assumption.
  pose proof (Z.log2_lxor a b Ha Hb). lia.
Qed.

Lemma word_lor a b : word a -> word b -> word (Z.lor a b).
Proof.
  unfold word. intros [Ha Ha'] [Hb Hb'].
  assert (H0 : 0 <= Z.lor a b) by (apply Z.lor_nonneg; tauto).
  split; [exact H0|]. apply word_log2; [exact H0|].
  apply word_log2 in Ha', Hb'; try assumption.
  rewrite (Z.log2_lor a b Ha Hb). lia.
Qed.

Lemma word_land a b : word a -> word b -> word (Z.land a b).
Proof.
  unfold word. intros [Ha Ha'] [Hb Hb'].
  assert (H0 : 0 <= Z.land a b) by (apply Z.land_nonneg; tauto).
  split; [exact H0|]. apply word_log2; [exact H0|].
  apply word_log2 in Ha', Hb'; try assumption.
  pose proof (Z.log2_land a b Ha Hb). lia.
Qed.

Lemma word_shiftr a n : word a -> 0 <= n -> word (Z.shiftr a n).
Proof.
  unfold word. intros [Ha Ha'] Hn.
  assert (H0 : 0 <= Z.shiftr a n) by (apply Z.shiftr_nonneg; exact Ha).
  split; [exact H0|]. rewrite Z.shiftr_div_pow2 by exact Hn.
  assert (0 < 2 ^ n) by (apply Z.pow_pos_nonneg; lia).
  assert (a / 2 ^ n <= a); [|lia].
  apply Z.div_le_upper_bound; [lia|]. nia.
Qed.

Lemma word_uint32 z : word (uint32 z).
Proof. unfold word, uint32. apply Z.mod_pos_bound. reflexivity. Qed.

Lemma word_twist bi bi2 bj : word bi -> word bi2 -> word bj ->
  word (twist bi bi2 bj).
Proof.
  intros Hi Hi2 Hj. unfold twist, twist_s.
  assert (Hs : word (Z.lor (Z.land bi 0x80000000) (Z.land bi2 0x7fffffff))).
  { apply word_lor; apply word_land; try assumption;
      unfold word; lia. }
  repeat apply word_lxor; try assumption.
  - apply word_shiftr; [exact Hs|lia].
  - apply word_uint32.
Qed.

Lemma word_swizzle r : word r -> word (swizzle r).
Proof.
  intros Hr. unfold swizzle, swizzle4, swizzle3, swizzle2, swizzle1.
  assert (Hc1 : word 0x9d2c5680) by (unfold word; lia).
  assert (Hc2 : word 0xefc60000) by (unfold word; lia).
  repeat first [ apply word_lxor | apply word_land | apply word_uint32
               | apply word_shiftr | assumption | lia ].
Qed.

Lemma words_ok_lookup r k :
  words_ok r -> (k < length (m_buffer r))%nat -> word (m_buffer r !!! k).
Proof.
  intros Hw Hk. eapply Forall_lookup_1; [exact Hw|].
  apply list_lookup_lookup_total_lt. exact Hk.
Qed.

Lemma word_nextInt_raw r :
  buffer_ok r -> index_ok r -> words_ok r -> word (nextInt_raw r).
Proof.
  intros Hb Hi Hw. pose proof (nextInt_positions r Hi) as (H1 & H2 & H3).
  unfold buffer_ok in Hb. unfold nextInt_raw.
  apply word_twist; apply words_ok_lookup; try assumption;
    rewrite Hb; unfold MT_LEN in *; lia.
Qed.

(** [nextInt] returns an [unsigned int] and keeps the buffer made of
    [unsigned int]s. *)
Lemma nextInt_words r :
  buffer_ok r -> index_ok r -> words_ok r ->
  wp nextInt (fun v r' => word v /\ words_ok r') r.
Proof.
  intros Hb Hi Hw. unfold wp. rewrite nextInt_spec by assumption.
  pose proof (word_nextInt_raw r Hb Hi Hw) as Hraw. split.
  - apply word_swizzle. exact Hraw.
  - unfold words_ok. cbn [m_buffer]. apply Forall_insert; assumption.
Qed.

(** C10. The invariant [0 <= m_index < MT_LEN] is established by
    [initMyRandom] (whatever the local struct held before) and preserved by
    every call of [nextInt]; under it the positions [i], [i2] and [j] that
    [nextInt] reads, and the position [i] it writes, lie in the buffer, and
    the call returns without an out-of-bounds access. *)
Theorem index_invariant (seed : Z) (newRandom r : MyRandom) :
  buffer_ok newRandom -> buffer_ok r -> index_ok r ->
  (exists r0, initMyRandom seed newRandom = Ok tt r0
              /\ buffer_ok r0 /\ index_ok r0) /\
  (0 <= nextInt_i r < Z.of_nat (length (m_buffer r))
   /\ 0 <= nextInt_i2 r < Z.of_nat (length (m_buffer r))
   /\ 0 <= nextInt_j r < Z.of_nat (length (m_buffer r))) /\
  (exists v r', nextInt r = Ok v r' /\ buffer_ok r' /\ index_ok r').
Proof.
  intros Hn Hb Hi. split; [|split].
  - apply initMyRandom_ok. exact Hn.
  - pose proof (nextInt_positions r Hi) as Hp.
    unfold buffer_ok in Hb. rewrite Hb. unfold MT_LEN in *. lia.
  - apply wp_elim. apply nextInt_preserves; assumption.
Qed.

Lemma index_invariant_witness :
  (exists r0, initMyRandom 65 indeterminate_MyRandom = Ok tt r0
              /\ buffer_ok r0 /\ index_ok r0) /\
  (0 <= nextInt_i (seeded 5) < Z.of_nat (length (m_buffer (seeded 5)))
   /\ 0 <= nextInt_i2 (seeded 5) < Z.of_nat (length (m_buffer (seeded 5)))
   /\ 0 <= nextInt_j (seeded 5) < Z.of_nat (length (m_buffer (seeded 5)))) /\
  (exists v r', nextInt (seeded 5) = Ok v r' /\ buffer_ok r' /\ index_ok r').
Proof.
  apply (index_invariant 65 indeterminate_MyRandom (seeded 5)).
  - reflexivity.
  - reflexivity.
  - unfold index_ok, seeded, MT_LEN. simpl. lia.
Defined.

(** C5. Two generator instances initialised with the same seed return the
    same sequence of values, for every number [n] of draws (in particular
    for the first 10000): the sequence does not depend on what the two
    uninitialised structs [g1] and [g2] held, and no draw faults. *)
Theorem same_seed_same_outputs (seed : Z) (g1 g2 : MyRandom) (n : nat) :
  buffer_ok g1 -> buffer_ok g2 ->
  exists vs r,
    generator_outputs seed n g1 = Ok vs r
    /\ generator_outputs seed n g2 = Ok vs r
    /\ length vs = n.
Proof.
  intros H1 H2.
  destruct (initMyRandom_ok seed g1 H1) as (r0 & Hr0 & Hb0 & Hi0).
  assert (Hr0' : initMyRandom seed g2 = Ok tt r0).
  { rewrite <- Hr0. apply initMyRandom_indep; assumption. }
  destruct (wp_elim _ _ _ (draws_ok n r0 Hb0 Hi0)) as (vs & r & Hd & Hl & _).
  exists vs, r. unfold generator_outputs.
  rewrite (bind_Ok _ _ _ _ _ Hr0), (bind_Ok _ _ _ _ _ Hr0'). auto.
Qed.

Lemma same_seed_same_outputs_witness :
  exists vs r,
    generator_outputs 65 (Z.to_nat 10000) indeterminate_MyRandom = Ok vs r
    /\ generator_outputs 65 (Z.to_nat 10000) (seeded 12345) = Ok vs r
    /\ length vs = Z.to_nat 10000.
Proof.
  apply (same_seed_same_outputs 65 indeterminate_MyRandom (seeded 12345)
           (Z.to_nat 10000)).
  - reflexivity.
  - reflexivity.
Defined.

(** C6 as stated fails: no two positions of the buffer determine the raw
    value.  With the cursor at 0 the value changes when the word at
    position 0, at position 1 or at position 397 alone is changed. *)
Lemma raw_not_from_two_slots : ~ raw_from_two_slots.
Proof.
  intros H. destruct (H 0) as (p & q & Hpq); [unfold MT_LEN; lia|].
  pose (b0 := replicate (Z.to_nat MT_LEN) 0).
  assert (Hone : forall k v, (k < Z.to_nat MT_LEN)%nat -> p <> k -> q <> k ->
             nextInt_raw (mkMyRandom b0 0)
             = nextInt_raw (mkMyRandom (<[k := v]> b0) 0)).
  { intros k v Hk Hp Hq. apply Hpq.
    - reflexivity.
    - rewrite length_insert. reflexivity.
    - symmetry. apply list_lookup_insert_ne. congruence.
    - symmetry. apply list_lookup_insert_ne. congruence. }
  destruct (decide (p = 0%nat)) as [Hp0|Hp0];
    destruct (decide (q = 0%nat)) as [Hq0|Hq0];
    destruct (decide (p = 1%nat)) as [Hp1|Hp1];
    destruct (decide (q = 1%nat)) as [Hq1|Hq1];
    try (specialize (Hone 0%nat 0x80000000 ltac:(unfold MT_LEN; lia) Hp0 Hq0);
         vm_compute in Hone; discriminate);
    try (specialize (Hone 1%nat 2 ltac:(unfold MT_LEN; lia) Hp1 Hq1);
         vm_compute in Hone; discriminate);
    try (specialize (Hone (Z.to_nat 397) 1 ltac:(unfold MT_LEN; lia)
                       ltac:(lia) ltac:(lia));
         vm_compute in Hone; discriminate).
Qed.

(** C6, amended. Each call of [nextInt] combines three words of the buffer
    (at the cursor, at the cursor + 1 and at the cursor + 397, both with
    wrap-around at 624) into the raw value, writes the raw value at the
    cursor, advances the cursor by one with wrap-around at 624, and returns
    the raw value tempered by the four steps, in this order. *)
Theorem nextInt_twist_swizzle (r : MyRandom) :
  buffer_ok r -> index_ok r ->
  let cursor := m_index r in
  let i2 := if bool_decide (cursor + 1 >= 624) then 0 else cursor + 1 in
  let j := if bool_decide (cursor + 397 >= 624)
           then cursor + 397 - 624 else cursor + 397 in
  let bi := m_buffer r !!! Z.to_nat cursor in
  let bi2 := m_buffer r !!! Z.to_nat i2 in
  let bj := m_buffer r !!! Z.to_nat j in
  let s := Z.lor (Z.land bi 0x80000000) (Z.land bi2 0x7fffffff) in
  let raw :=
    Z.lxor (Z.lxor bj (Z.shiftr s 1)) (uint32 (Z.land s 1 * 0x9908B0DF)) in
  let r1 := Z.lxor raw (Z.shiftr raw 11) in
  let r2 := Z.lxor r1 (Z.land (uint32 (Z.shiftl r1 7)) 0x9d2c5680) in
  let r3 := Z.lxor r2 (Z.land (uint32 (Z.shiftl r2 15)) 0xefc60000) in
  let r4 := Z.lxor r3 (Z.shiftr r3 18) in
  nextInt r
  = Ok r4 (mkMyRandom (<[Z.to_nat cursor := raw]> (m_buffer r)) i2)
  /\ (words_ok r -> 0 <= raw < 2 ^ 32 /\ 0 <= r4 < 2 ^ 32).
Proof.
  intros Hb Hi cursor i2 j bi bi2 bj s raw r1 r2 r3 r4.
  assert (Hraw : raw = nextInt_raw r) by reflexivity.
  assert (Hr4 : r4 = swizzle raw) by reflexivity.
  assert (Hi2 : i2 = nextInt_i2 r) by reflexivity.
  clearbody r4 raw i2. subst r4 raw i2. split.
  - apply nextInt_spec; assumption.
  - intros Hw. pose proof (word_nextInt_raw r Hb Hi Hw) as Hword.
    split; [exact Hword|]. exact (word_swizzle _ Hword).
Qed.

Lemma nextInt_twist_swizzle_witness :
  nextInt (mkMyRandom (replicate (Z.to_nat 624) 5) 623)
  = Ok 4292208699
       (mkMyRandom
          (<[Z.to_nat 623 := 2567483608]> (replicate (Z.to_nat 624) 5)) 0).
Proof.
  refine (proj1 (nextInt_twist_swizzle
                   (mkMyRandom (replicate (Z.to_nat 624) 5) 623) _ _)).
  - reflexivity.
  - unfold index_ok, MT_LEN. simpl. lia.
Defined.

(** * The detector *)

Lemma arr_get_in_range {A} `{Inhabited A} (proj : state -> list A) i s :
  0 <= i < Z.of_nat (length (proj s)) ->
  arr_get proj i s = Ok (proj s !!! Z.to_nat i) s.
Proof. intros Hi. unfold arr_get. rewrite load_in_range by lia. done. Qed.

Lemma arr_set_in_range {A} (proj : state -> list A) upd i v s :
  0 <= i < Z.of_nat (length (proj s)) ->
  arr_set proj upd i v s = Ok tt (upd (<[Z.to_nat i := v]> (proj s)) s).
Proof. intros Hi. unfold arr_set. rewrite store_in_range by lia. done. Qed.

(** What the body of the loop of [checkVals] does at slot [i]. *)
Lemma checkVals_slot_spec i s :
  0 <= i < Z.of_nat (length (vals s)) ->
  0 <= i < Z.of_nat (length (lastValsScan s)) ->
  0 <= i < Z.of_nat (length (changedTimes s)) ->
  checkVals_slot i s
  = if bool_decide (vals s !!! Z.to_nat i <> lastValsScan s !!! Z.to_nat i)
    then if bool_decide (int32 (changedTimes s !!! Z.to_nat i + 1) > 1)
         then Exited 0 (fired i s)
         else Ok tt (recorded i s)
    else Ok tt s.
Proof.
  intros Hv Hl Hc. unfold checkVals_slot.
  rewrite (bind_Ok _ _ _ _ _ (arr_get_in_range vals i s Hv)).
  rewrite (bind_Ok _ _ _ _ _ (arr_get_in_range lastValsScan i s Hl)).
  case_bool_decide as Hne; [|reflexivity].
  rewrite (bind_Ok _ _ _ _ _ (arr_get_in_range changedTimes i s Hc)).
  rewrite (bind_Ok _ _ _ _ _
             (arr_set_in_range changedTimes set_changedTimes i _ s Hc)).
  set (s1 := set_changedTimes _ s).
  assert (Hc1 : 0 <= i < Z.of_nat (length (changedTimes s1))).
  { unfold s1. cbn [changedTimes set_changedTimes].
    rewrite length_insert. exact Hc. }
  rewrite (bind_Ok _ _ _ _ _ (arr_get_in_range changedTimes i s1 Hc1)).
  assert (Hget : changedTimes s1 !!! Z.to_nat i
                 = int32 (changedTimes s !!! Z.to_nat i + 1)).
  { unfold s1. cbn [changedTimes set_changedTimes].
    apply list_lookup_total_insert_eq. lia. }
  rewrite Hget. case_bool_decide as Hgt.
  - reflexivity.
  - unfold arr_set. cbn [lastValsScan s1 set_changedTimes].
    rewrite store_in_range by exact Hl. reflexivity.
Qed.

(** A loop that returns has maintained every invariant that its returning
    iterations maintain. *)
Lemma for_loop_Ok_inv {S L} (I : Z -> L -> S -> Prop) n i
    (body : Z -> L -> M S L) l s l' s' :
  (forall k l s l' s', i <= k < i + Z.of_nat n -> I k l s ->
                       body k l s = Ok l' s' -> I (k + 1) l' s') ->
  I i l s ->
  for_loop n i body l s = Ok l' s' ->
  I (i + Z.of_nat n) l' s'.
Proof.
  revert i l s. induction n as [|n IH]; intros i l s Hbody HI Hrun.
  - cbn in Hrun. unfold ret in Hrun. injection Hrun as <- <-.
    replace (i + Z.of_nat 0) with i by lia. exact HI.
  - rewrite for_loop_S in Hrun. apply bind_Ok_inv in Hrun.
    destruct Hrun as (l1 & s1 & Hb & Hrest).
    replace (i + Z.of_nat (Datatypes.S n)) with (i + 1 + Z.of_nat n) by lia.
    eapply IH; [|eapply Hbody; [|exact HI|exact Hb]; lia|exact Hrest].
    intros k l0 s0 l0' s0' Hk. apply Hbody. lia.
Qed.

Lemma check_frame_refl n s : check_frame n s s.
Proof. unfold check_frame. repeat split; reflexivity. Qed.

Lemma check_frame_recorded n i s s' :
  check_frame n s s' -> Z.to_nat i = n ->
  check_frame (Datatypes.S n) s (recorded i s').
Proof.
  unfold check_frame, recorded. cbn.
  intros (Hv & Hr & Hw & Hs & He & Hl & Hc & Hk) Hi.
  rewrite !length_insert. repeat split; try assumption.
  - rewrite list_lookup_insert_ne by lia. apply Hk. lia.
  - rewrite list_lookup_insert_ne by lia. apply Hk. lia.
Qed.

Lemma check_frame_weaken n s s' :
  check_frame n s s' -> check_frame (Datatypes.S n) s s'.
Proof.
  unfold check_frame. intros (Hv & Hr & Hw & Hs & He & Hl & Hc & Hk).
  repeat split; try assumption; apply Hk; lia.
Qed.

Lemma checkVals_upto_frame n s s' :
  wf_state s -> (n <= Z.to_nat CHECK_FIRST_VALS)%nat ->
  checkVals_upto n s = Ok tt s' -> check_frame n s s'.
Proof.
  intros Hwf Hn Hrun. unfold checkVals_upto in Hrun.
  apply (for_loop_Ok_inv
           (fun k _ s' => 0 <= k /\ check_frame (Z.to_nat k) s s'))
    in Hrun.
  - destruct Hrun as [_ Hf]. replace (Z.to_nat (0 + Z.of_nat n)) with n in Hf
      by lia. exact Hf.
  - intros k [] s0 [] s0' Hk [_ Hf] Hb. split; [lia|].
    replace (Z.to_nat (k + 1)) with (Datatypes.S (Z.to_nat k)) by lia.
    destruct Hwf as (W1 & W2 & W3 & _).
    pose proof Hf as (Hv & _ & _ & _ & _ & Hl & Hc & _).
    unfold CHECK_FIRST_VALS in Hn.
    rewrite checkVals_slot_spec in Hb by (rewrite ?Hv, ?Hl, ?Hc; lia).
    repeat case_bool_decide; try discriminate; injection Hb as <-.
    + apply check_frame_recorded; [exact Hf|reflexivity].
    + apply check_frame_weaken. exact Hf.
  - split; [lia|]. apply check_frame_refl.
Qed.

(** Over slots whose value equals the snapshot the loop changes nothing. *)
Lemma checkVals_no_change n lo s :
  0 <= lo ->
  lo + Z.of_nat n <= Z.of_nat (length (vals s)) ->
  lo + Z.of_nat n <= Z.of_nat (length (lastValsScan s)) ->
  lo + Z.of_nat n <= Z.of_nat (length (changedTimes s)) ->
  (forall k, lo <= k < lo + Z.of_nat n ->
             vals s !!! Z.to_nat k = lastValsScan s !!! Z.to_nat k) ->
  for_loop n lo (fun i _ => checkVals_slot i) tt s = Ok tt s.
Proof.
  intros Hlo Hv Hl Hc Heq.
  assert (Hwp : wp (for_loop n lo (fun i _ => checkVals_slot i) tt)
                   (fun _ s' => s' = s) s).
  { apply (wp_for_loop (fun _ (_ : unit) s' => s' = s)); [|reflexivity].
    intros k [] s0 Hk ->. unfold wp.
    rewrite checkVals_slot_spec by lia.
    rewrite bool_decide_eq_false_2; [reflexivity|].
    intros Hne. apply Hne. apply Heq. exact Hk. }
  destruct (wp_elim _ _ _ Hwp) as ([] & s' & Hrun & ->). exact Hrun.
Qed.

Lemma lookup_total_eq {A} `{Inhabited A} (l1 l2 : list A) k :
  l1 !! k = l2 !! k -> l1 !!! k = l2 !!! k.
Proof. intros Heq. rewrite !list_lookup_total_alt, Heq. reflexivity. Qed.

Lemma checkVals_upto_succ i s s_i :
  0 <= i ->
  checkVals_upto (Z.to_nat i) s = Ok tt s_i ->
  checkVals_upto (Z.to_nat (i + 1)) s = checkVals_slot i s_i.
Proof.
  intros Hi Hrun.
  replace (Z.to_nat (i + 1)) with (Datatypes.S (Z.to_nat i)) by lia.
  unfold checkVals_upto in *. rewrite for_loop_snoc.
  run Hrun.
  replace (0 + Z.of_nat (Z.to_nat i)) with i by lia. reflexivity.
Qed.

(** Once a prefix of the loop has called [exit], so has the whole loop. *)
Lemma checkVals_upto_Exited n s code s' :
  (n <= Z.to_nat CHECK_FIRST_VALS)%nat ->
  checkVals_upto n s = Exited code s' -> checkVals s = Exited code s'.
Proof.
  intros Hn Hrun. unfold checkVals, checkVals_upto in *.
  replace (Z.to_nat CHECK_FIRST_VALS)
    with (n + (Z.to_nat CHECK_FIRST_VALS - n))%nat by lia.
  rewrite for_loop_app. unfold bind. rewrite Hrun. reflexivity.
Qed.

(** C1. In every invocation of [checkVals] and for every slot [i] among the
    first [CHECK_FIRST_VALS] that the loop reaches ([s_i] is the store on
    entering iteration [i]): the slot still holds what it held on entry of
    the invocation; if the value equals the snapshot the iteration changes
    nothing; if it differs, the change counter of the slot is incremented,
    and then either the counter exceeds 1, the line "UB was caught!" is
    written to stderr and the process exits with code 0, or the snapshot of
    the slot is set to the value and the loop goes on to the next slot. *)
Theorem checkVals_slot_behaviour (s s_i : state) (i : Z) :
  wf_state s -> 0 <= i < CHECK_FIRST_VALS ->
  checkVals_upto (Z.to_nat i) s = Ok tt s_i ->
  let v := vals s !!! Z.to_nat i in
  let l := lastValsScan s !!! Z.to_nat i in
  let c := changedTimes s !!! Z.to_nat i in
  (vals s_i !!! Z.to_nat i = v /\ lastValsScan s_i !!! Z.to_nat i = l
   /\ changedTimes s_i !!! Z.to_nat i = c) /\
  (v = l -> checkVals_upto (Z.to_nat (i + 1)) s = Ok tt s_i) /\
  (v <> l ->
   (int32 (c + 1) > 1 ->
    checkVals_upto (Z.to_nat (i + 1)) s = Exited 0 (fired i s_i)
    /\ checkVals s = Exited 0 (fired i s_i)
    /\ changedTimes (fired i s_i) !!! Z.to_nat i = int32 (c + 1)
    /\ stderr (fired i s_i) = stderr s_i ++ [UB_message])
   /\ (~ int32 (c + 1) > 1 ->
       checkVals_upto (Z.to_nat (i + 1)) s = Ok tt (recorded i s_i)
       /\ changedTimes (recorded i s_i) !!! Z.to_nat i = int32 (c + 1)
       /\ lastValsScan (recorded i s_i) !!! Z.to_nat i = v)) /\
  (- 2 ^ 31 <= c < 2 ^ 31 - 1 -> int32 (c + 1) = c + 1).
Proof.
  intros Hwf Hi Hrun v l c.
  assert (Hle : (Z.to_nat i <= Z.to_nat CHECK_FIRST_VALS)%nat) by lia.
  pose proof (checkVals_upto_frame _ _ _ Hwf Hle Hrun)
    as (Hv & _ & _ & _ & _ & Hll & Hlc & Hk).
  destruct Hwf as (W1 & W2 & W3 & _). unfold CHECK_FIRST_VALS in *.
  destruct (Hk (Z.to_nat i) (Nat.le_refl _)) as [Hl Hc].
  apply lookup_total_eq in Hl, Hc.
  assert (Hslot := checkVals_upto_succ i s s_i ltac:(lia) Hrun).
  rewrite checkVals_slot_spec in Hslot by (rewrite ?Hv, ?Hll, ?Hlc; lia).
  rewrite Hv, Hl, Hc in Hslot. fold v l c in Hslot.
  split; [|split; [|split]].
  - rewrite Hv. auto.
  - intros Heq. rewrite Hslot, bool_decide_eq_false_2 by tauto. reflexivity.
  - intros Hne. rewrite (bool_decide_eq_true_2 _ Hne) in Hslot. split.
    + intros Hgt. rewrite (bool_decide_eq_true_2 _ Hgt) in Hslot.
      split; [exact Hslot|]. split; [|split].
      * apply (checkVals_upto_Exited (Z.to_nat (i + 1))); [|exact Hslot].
        unfold CHECK_FIRST_VALS. lia.
      * unfold fired. cbn [changedTimes]. rewrite Hc.
        apply list_lookup_total_insert_eq. lia.
      * reflexivity.
    + intros Hgt. rewrite (bool_decide_eq_false_2 _ Hgt) in Hslot.
      split; [exact Hslot|]. split.
      * unfold recorded. cbn [changedTimes]. rewrite Hc.
        apply list_lookup_total_insert_eq. lia.
      * unfold recorded. cbn [lastValsScan]. rewrite Hv.
        apply list_lookup_total_insert_eq. lia.
  - intros Hrange. unfold int32.
    replace (c + 1 + 2 ^ 31) with (c + 1 + 2 ^ 31 + 0 * 2 ^ 32) by lia.
    rewrite Z.mod_small by lia. lia.
Qed.

Lemma example_state_wf : wf_state example_state.
Proof.
  unfold wf_state, example_state. cbn [vals lastValsScan changedTimes wasRead
    wasWritten]. rewrite length_insert, !length_replicate. tauto.
Qed.

Lemma checkVals_slot_behaviour_witness :
  checkVals_upto (Z.to_nat (3 + 1)) example_state
  = Ok tt (recorded 3 example_state)
  /\ changedTimes (recorded 3 example_state) !!! Z.to_nat 3 = int32 (0 + 1)
  /\ lastValsScan (recorded 3 example_state) !!! Z.to_nat 3 = 7.
Proof.
  assert (Hi : 0 <= 3 < CHECK_FIRST_VALS) by (vm_compute; split; congruence).
  assert (Hrun : checkVals_upto (Z.to_nat 3) example_state
                 = Ok tt example_state).
  { destruct example_state_wf as (W1 & W2 & W3 & _).
    apply checkVals_no_change.
    - lia.
    - rewrite W1. vm_compute. congruence.
    - rewrite W2. vm_compute. congruence.
    - rewrite W3. vm_compute. congruence.
    - intros k Hk. unfold example_state. cbn [vals lastValsScan].
      rewrite list_lookup_total_insert_ne by lia.
      reflexivity. }
  destruct (checkVals_slot_behaviour example_state example_state 3
              example_state_wf Hi Hrun) as (_ & _ & Hne & _).
  apply Hne.
  - vm_compute. discriminate.
  - vm_compute. discriminate.
Defined.

(** The whole check when slot [i] is the only one that differs from the
    snapshot. *)
Lemma checkVals_single_change i s :
  wf_state s -> 0 <= i < CHECK_FIRST_VALS ->
  (forall k, 0 <= k < CHECK_FIRST_VALS -> k <> i ->
             vals s !!! Z.to_nat k = lastValsScan s !!! Z.to_nat k) ->
  vals s !!! Z.to_nat i <> lastValsScan s !!! Z.to_nat i ->
  checkVals s
  = if bool_decide (int32 (changedTimes s !!! Z.to_nat i + 1) > 1)
    then Exited 0 (fired i s) else Ok tt (recorded i s).
Proof.
  intros Hwf Hi Heq Hne. pose proof Hwf as (W1 & W2 & W3 & _).
  unfold CHECK_FIRST_VALS in *.
  assert (Hpre : checkVals_upto (Z.to_nat i) s = Ok tt s).
  { apply checkVals_no_change; try lia. intros k Hk. apply Heq; lia. }
  assert (Hslot := checkVals_upto_succ i s s ltac:(lia) Hpre).
  rewrite checkVals_slot_spec in Hslot by lia.
  rewrite (bool_decide_eq_true_2 _ Hne) in Hslot.
  case_bool_decide as Hgt.
  - apply (checkVals_upto_Exited (Z.to_nat (i + 1))); [|exact Hslot].
    unfold CHECK_FIRST_VALS. lia.
  - unfold checkVals, checkVals_upto in *. unfold CHECK_FIRST_VALS.
    replace (Z.to_nat VALS_SIZE)
      with (Z.to_nat (i + 1) + (Z.to_nat VALS_SIZE - Z.to_nat (i + 1)))%nat
      by lia.
    rewrite for_loop_app, (bind_Ok _ _ _ _ _ Hslot).
    apply checkVals_no_change; unfold recorded;
      cbn [vals lastValsScan changedTimes]; rewrite ?length_insert; try lia.
    intros k Hk. rewrite list_lookup_total_insert_ne by lia.
    apply Heq; lia.
Qed.

(** C2. Start from a store whose snapshot equals the shared array and whose
    change counters are all 0.  Set [vals[i]] to a value [B] other than its
    value [A], run [checkVals], set [vals[i]] back to [A] and run
    [checkVals] again: the first run returns, and the second run takes the
    fatal path at slot [i] (change counter 2, the diagnostic on stderr,
    exit code 0). *)
Theorem injected_anomaly_detected (s : state) (i B : Z) :
  wf_state s -> 0 <= i < VALS_SIZE ->
  lastValsScan s = vals s ->
  changedTimes s = replicate (Z.to_nat VALS_SIZE) 0 ->
  B <> vals s !!! Z.to_nat i ->
  let A := vals s !!! Z.to_nat i in
  exists s1 s2,
    checkVals (poke i B s) = Ok tt s1
    /\ checkVals (poke i A s1) = Exited 0 s2
    /\ changedTimes s2 !!! Z.to_nat i = 2
    /\ stderr s2 = stderr s ++ [UB_message].
Proof.
  intros Hwf Hi Hsnap Hzero HB A. pose proof Hwf as (W1 & W2 & W3 & W4 & W5).
  assert (Hrun1 : checkVals (poke i B s) = Ok tt (recorded i (poke i B s))).
  { rewrite (checkVals_single_change i).
    - rewrite bool_decide_eq_false_2; [reflexivity|].
      unfold poke. cbn [changedTimes set_vals]. rewrite Hzero.
      rewrite lookup_total_replicate_2 by lia. vm_compute. discriminate.
    - unfold wf_state, poke. cbn. rewrite length_insert. tauto.
    - exact Hi.
    - intros k Hk Hki. unfold poke. cbn [vals lastValsScan set_vals].
      rewrite list_lookup_total_insert_ne by lia. rewrite Hsnap. reflexivity.
    - unfold poke. cbn [vals lastValsScan set_vals].
      rewrite list_lookup_total_insert_eq by lia. rewrite Hsnap. exact HB. }
  set (s1 := recorded i (poke i B s)) in *.
  assert (Hlast1 : lastValsScan s1 = <[Z.to_nat i := B]> (vals s)).
  { unfold s1, recorded, poke. cbn [vals lastValsScan set_vals].
    rewrite list_lookup_total_insert_eq by lia. rewrite Hsnap.
    reflexivity. }
  assert (Hcnt1 : changedTimes s1 !!! Z.to_nat i = 1).
  { unfold s1, recorded, poke. cbn [changedTimes set_vals].
    rewrite list_lookup_total_insert_eq by lia. rewrite Hzero.
    rewrite lookup_total_replicate_2 by lia. reflexivity. }
  assert (Hvals1 : vals (poke i A s1) = <[Z.to_nat i := A]> (vals s1)) by done.
  assert (Hvals1' : vals s1 = <[Z.to_nat i := B]> (vals s)) by done.
  assert (Hrun2 : checkVals (poke i A s1) = Exited 0 (fired i (poke i A s1))).
  { rewrite (checkVals_single_change i).
    - rewrite bool_decide_eq_true_2; [reflexivity|].
      change (changedTimes (poke i A s1)) with (changedTimes s1).
      rewrite Hcnt1. vm_compute. reflexivity.
    - unfold wf_state. change (lastValsScan (poke i A s1))
        with (lastValsScan s1). rewrite Hvals1, Hvals1', Hlast1.
      unfold s1, recorded, poke. cbn. rewrite !length_insert. tauto.
    - exact Hi.
    - intros k Hk Hki.
      change (lastValsScan (poke i A s1)) with (lastValsScan s1).
      rewrite Hvals1, Hvals1', Hlast1.
      rewrite !list_lookup_total_insert_ne by lia. reflexivity.
    - change (lastValsScan (poke i A s1)) with (lastValsScan s1).
      rewrite Hvals1, Hlast1.
      rewrite !list_lookup_total_insert_eq
        by (rewrite ?Hvals1', ?length_insert; lia).
      unfold A. congruence. }
  exists s1, (fired i (poke i A s1)). split; [exact Hrun1|].
  split; [exact Hrun2|]. split.
  - unfold fired. cbn [changedTimes].
    change (changedTimes (poke i A s1)) with (changedTimes s1).
    rewrite list_lookup_total_insert_eq.
    + rewrite Hcnt1. reflexivity.
    + unfold s1, recorded, poke. cbn [changedTimes set_vals].
      rewrite length_insert. lia.
  - reflexivity.
Qed.

Lemma injected_anomaly_detected_witness :
  let s := mkState (replicate (Z.to_nat VALS_SIZE) 4)
                   (replicate (Z.to_nat VALS_SIZE) 4)
                   (replicate (Z.to_nat VALS_SIZE) 0)
                   (replicate (Z.to_nat VALS_SIZE) false)
                   (replicate (Z.to_nat VALS_SIZE) false) 0 [] in
  exists s1 s2,
    checkVals (poke 17 9 s) = Ok tt s1
    /\ checkVals (poke 17 4 s1) = Exited 0 s2
    /\ changedTimes s2 !!! Z.to_nat 17 = 2
    /\ stderr s2 = [UB_message].
Proof.
  intros s.
  assert (H4 : vals s !!! Z.to_nat 17 = 4).
  { unfold s. cbn [vals]. apply lookup_total_replicate_2.
    unfold VALS_SIZE. lia. }
  destruct (injected_anomaly_detected s 17 9) as (s1 & s2 & H1 & H2 & H3 & H5).
  - unfold wf_state, s. cbn [vals lastValsScan changedTimes wasRead
      wasWritten]. rewrite !length_replicate. tauto.
  - vm_compute. split; congruence.
  - reflexivity.
  - reflexivity.
  - rewrite H4. discriminate.
  - rewrite H4 in H2. exists s1, s2. auto.
Defined.

(** * Resetting the shared array *)

Lemma indeterminate_buffer_ok : buffer_ok indeterminate_MyRandom.
Proof. unfold buffer_ok, indeterminate_MyRandom. apply length_replicate. Qed.

Lemma new_MyRandom_spec {S} seed (s : S) :
  exists r, initMyRandom seed indeterminate_MyRandom = Ok tt r
            /\ new_MyRandom seed s = Ok r s /\ buffer_ok r /\ index_ok r.
Proof.
  destruct (initMyRandom_ok seed _ indeterminate_buffer_ok)
    as (r & Hr & Hb & Hi).
  exists r. split; [exact Hr|]. split; [|auto].
  unfold new_MyRandom, bind, on_local. rewrite Hr. reflexivity.
Qed.

Lemma clearState_loop n :
  forall lo rng s vs rng',
    draws n rng = Ok vs rng' ->
    0 <= lo -> lo + Z.of_nat n <= Z.of_nat (length (vals s)) ->
    for_loop n lo clearState_slot rng s
    = Ok rng' (set_vals (take (Z.to_nat lo) (vals s) ++ map int32 vs
                           ++ drop (Z.to_nat lo + n) (vals s)) s).
Proof.
  induction n as [|n IH]; intros lo rng s vs rng' Hd Hlo Hlen.
  - cbn in Hd. unfold ret in Hd. injection Hd as <- <-.
    cbn [for_loop map app]. rewrite Nat.add_0_r, take_drop.
    destruct s; reflexivity.
  - cbn [draws] in Hd. apply bind_Ok_inv in Hd.
    destruct Hd as (v & r1 & Hn & Hd). apply bind_Ok_inv in Hd.
    destruct Hd as (vs' & r2 & Hd & Hret). unfold ret in Hret.
    injection Hret as <- <-.
    set (s1 := set_vals (<[Z.to_nat lo := int32 v]> (vals s)) s).
    assert (Hbody : clearState_slot lo rng s = Ok r1 s1).
    { unfold clearState_slot, bind, on_local. rewrite Hn. cbn [fst snd].
      rewrite arr_set_in_range by lia. reflexivity. }
    rewrite for_loop_S, (bind_Ok _ _ _ _ _ Hbody).
    rewrite (IH (lo + 1) r1 s1 vs' r2 Hd) by
      (try lia; unfold s1; cbn [vals set_vals]; rewrite length_insert; lia).
    f_equal. unfold s1. cbn [vals set_vals]. unfold set_vals. cbn.
    f_equal.
    replace (Z.to_nat (lo + 1)) with (Datatypes.S (Z.to_nat lo)) by lia.
    rewrite (take_S_r _ _ (int32 v))
      by (apply list_lookup_insert_eq; lia).
    rewrite take_insert_ge by lia. rewrite drop_insert_lt by lia.
    rewrite <- app_assoc. cbn [app map].
    replace (Datatypes.S (Z.to_nat lo) + n)%nat
      with (Z.to_nat lo + Datatypes.S n)%nat by lia.
    reflexivity.
Qed.

Lemma generator_outputs_spec seed n g :
  buffer_ok g ->
  exists r0 vs r',
    initMyRandom seed g = Ok tt r0
    /\ draws n r0 = Ok vs r'
    /\ generator_outputs seed n g = Ok vs r'
    /\ length vs = n.
Proof.
  intros Hg. destruct (initMyRandom_ok seed g Hg) as (r0 & Hr0 & Hb & Hi).
  destruct (wp_elim _ _ _ (draws_ok n r0 Hb Hi)) as (vs & r' & Hd & Hl & _).
  exists r0, vs, r'. split; [exact Hr0|]. split; [exact Hd|].
  split; [|exact Hl].
  exact (eq_trans (bind_Ok _ (fun _ => draws n) _ _ _ Hr0) Hd).
Qed.

Lemma fresh_vals_spec iter :
  exists r0 vs r',
    initMyRandom (uint32 (MAIN_RANDOM_START_SEED + iter))
      indeterminate_MyRandom = Ok tt r0
    /\ draws (Z.to_nat VALS_SIZE) r0 = Ok vs r'
    /\ fresh_vals iter = map int32 vs
    /\ length (fresh_vals iter) = Z.to_nat VALS_SIZE.
Proof.
  destruct (generator_outputs_spec (uint32 (MAIN_RANDOM_START_SEED + iter))
              (Z.to_nat VALS_SIZE) _ indeterminate_buffer_ok)
    as (r0 & vs & r' & Hr0 & Hd & Hgo & Hl).
  exists r0, vs, r'. split; [exact Hr0|]. split; [exact Hd|].
  assert (Hf : fresh_vals iter = map int32 vs).
  { unfold fresh_vals. exact (f_equal (fun o => map int32 (returned [] o)) Hgo). }
  split; [exact Hf|].
  exact (eq_trans (f_equal length Hf) (eq_trans (length_map _ _) Hl)).
Qed.

Lemma clearState_spec iter s :
  length (vals s) = Z.to_nat VALS_SIZE ->
  clearState iter s = Ok tt (set_vals (fresh_vals iter) s).
Proof.
  intros Hlen.
  destruct (fresh_vals_spec iter) as (r0 & vs & r' & Hr0 & Hd & Hf & Hfl).
  unfold clearState.
  assert (Hnew : new_MyRandom (uint32 (MAIN_RANDOM_START_SEED + iter)) s
                 = Ok r0 s).
  { unfold new_MyRandom, bind, on_local. rewrite Hr0. reflexivity. }
  run Hnew.
  assert (H0 : 0 <= 0) by lia.
  assert (H1 : 0 + Z.of_nat (Z.to_nat VALS_SIZE)
               <= Z.of_nat (length (vals s))) by (rewrite Hlen; lia).
  pose proof (clearState_loop (Z.to_nat VALS_SIZE) 0 r0 s vs r' Hd H0 H1)
    as Hloop.
  run Hloop. rewrite Hf.
  change (Z.to_nat 0) with 0%nat. rewrite take_0, Nat.add_0_l.
  rewrite <- Hlen, drop_all, app_nil_r. reflexivity.
Qed.

(** C7. Calling [clearState] twice in a row with the same trial number
    gives the shared array the same contents both times (both calls
    return, and the second call leaves the array as the first left it). *)
Theorem clearState_twice (t : Z) (s : state) :
  length (vals s) = Z.to_nat VALS_SIZE ->
  exists s1 s2,
    clearState t s = Ok tt s1 /\ clearState t s1 = Ok tt s2
    /\ vals s2 = vals s1
    /\ length (vals s1) = Z.to_nat VALS_SIZE.
Proof.
  intros Hlen.
  destruct (fresh_vals_spec t) as (_ & _ & _ & _ & _ & _ & Hfl).
  exists (set_vals (fresh_vals t) s),
         (set_vals (fresh_vals t) (set_vals (fresh_vals t) s)).
  split; [apply clearState_spec; exact Hlen|].
  split; [apply clearState_spec; exact Hfl|].
  split; [reflexivity|exact Hfl].
Qed.

Lemma clearState_twice_witness :
  exists s1 s2,
    clearState 7 example_state = Ok tt s1 /\ clearState 7 s1 = Ok tt s2
    /\ vals s2 = vals s1
    /\ length (vals s1) = Z.to_nat VALS_SIZE.
Proof.
  apply (clearState_twice 7 example_state).
  unfold example_state. cbn [vals].
  rewrite length_insert. apply length_replicate.
Defined.

(** * The preparation phases of the workers *)

Lemma insert_prefix {A} (pre l : list A) k x :
  length pre = k -> (k < length l)%nat ->
  <[k := x]> (pre ++ drop k l) = (pre ++ [x]) ++ drop (Datatypes.S k) l.
Proof.
  intros Hpre Hk.
  destruct (lookup_lt_is_Some_2 l k Hk) as [y Hy].
  rewrite (drop_S _ _ _ Hy).
  rewrite insert_app_r_alt by lia.
  rewrite Hpre, Nat.sub_diag. cbn [insert list_insert].
  rewrite <- app_assoc. reflexivity.
Qed.

Lemma length_prefix_drop {A} (pre l : list A) k :
  length pre = k -> (k <= length l)%nat -> length (pre ++ drop k l) = length l.
Proof. intros Hpre Hk. rewrite length_app, length_drop. lia. Qed.

(** The first [n] iterations of the preparation loop of the reader. *)
Lemma doReads_prepare_prefix n s :
  wf_state s -> (n <= Z.to_nat VALS_SIZE)%nat ->
  exists s',
    for_loop n 0 doReads_prepare_slot tt s = Ok tt s'
    /\ vals s' = vals s
    /\ wasRead s' = replicate n false ++ drop n (wasRead s)
    /\ lastValsScan s' = take n (vals s) ++ drop n (lastValsScan s)
    /\ changedTimes s' = replicate n 0 ++ drop n (changedTimes s)
    /\ wasWritten s' = wasWritten s
    /\ savedRead s' = savedRead s
    /\ stderr s' = stderr s.
Proof.
  intros (W1 & W2 & W3 & W4 & W5).
  generalize dependent (Z.to_nat VALS_SIZE). intros N W1 W2 W3 W4 W5 Hn.
  pose (I := fun (k : Z) (_ : unit) (s' : state) =>
    0 <= k /\ vals s' = vals s /\ wasWritten s' = wasWritten s
    /\ savedRead s' = savedRead s /\ stderr s' = stderr s
    /\ wasRead s' = replicate (Z.to_nat k) false
                      ++ drop (Z.to_nat k) (wasRead s)
    /\ lastValsScan s' = take (Z.to_nat k) (vals s)
                           ++ drop (Z.to_nat k) (lastValsScan s)
    /\ changedTimes s' = replicate (Z.to_nat k) 0
                           ++ drop (Z.to_nat k) (changedTimes s)).
  assert (Hwp : wp (for_loop n 0 doReads_prepare_slot tt)
                   (I (0 + Z.of_nat n)) s).
  { apply wp_for_loop.
    - intros k [] s0 Hk (Hk0 & Hv & Hww & Hsr & Herr & Hwr & Hl & Hc).
      assert (Lr : length (wasRead s0) = N).
      { rewrite Hwr, length_prefix_drop;
          rewrite ?length_replicate; try lia. }
      assert (Ll : length (lastValsScan s0) = N).
      { rewrite Hl, length_prefix_drop; rewrite ?length_take; try lia. }
      assert (Lc : length (changedTimes s0) = N).
      { rewrite Hc, length_prefix_drop;
          rewrite ?length_replicate; try lia. }
      assert (Lv : length (vals s0) = N) by (rewrite Hv; exact W1).
      unfold wp, doReads_prepare_slot.
      assert (R0 : 0 <= k < Z.of_nat (length (wasRead s0))) by lia.
      rewrite (bind_Ok _ _ _ _ _
                 (arr_set_in_range wasRead set_wasRead k false s0 R0)).
      set (s1 := set_wasRead _ s0).
      assert (R1 : 0 <= k < Z.of_nat (length (vals s1))).
      { unfold s1. cbn [vals set_wasRead]. lia. }
      rewrite (bind_Ok _ _ _ _ _ (arr_get_in_range vals k s1 R1)).
      assert (R2 : 0 <= k < Z.of_nat (length (lastValsScan s1))).
      { unfold s1. cbn [lastValsScan set_wasRead]. lia. }
      rewrite (bind_Ok _ _ _ _ _
                 (arr_set_in_range lastValsScan set_lastValsScan k _ s1 R2)).
      set (s2 := set_lastValsScan _ s1).
      assert (R3 : 0 <= k < Z.of_nat (length (changedTimes s2))).
      { unfold s2, s1. cbn [changedTimes set_lastValsScan set_wasRead]. lia. }
      rewrite (arr_set_in_range changedTimes set_changedTimes k 0 s2 R3).
      unfold I, s2, s1. cbn [vals wasWritten savedRead stderr wasRead
        lastValsScan changedTimes set_changedTimes set_lastValsScan
        set_wasRead].
      replace (Z.to_nat (k + 1)) with (Datatypes.S (Z.to_nat k)) by lia.
      split; [lia|]. repeat (split; [assumption|]).
      rewrite Hwr, Hl, Hc, Hv.
      rewrite !insert_prefix
        by (rewrite ?length_replicate, ?length_take; lia).
      rewrite !replicate_S_end.
      rewrite (take_S_r (vals s) (Z.to_nat k) (vals s !!! Z.to_nat k))
        by (apply list_lookup_lookup_total_lt; lia).
      auto.
    - unfold I. change (Z.to_nat 0) with 0%nat. cbn [replicate take drop app].
      split; [lia|]. tauto. }
  destruct (wp_elim _ _ _ Hwp)
    as ([] & s' & Hrun & _ & Hv & Hww & Hsr & Herr & Hwr & Hl & Hc).
  replace (Z.to_nat (0 + Z.of_nat n)) with n in * by lia.
  exists s'. auto 10.
Qed.

Lemma doReads_prepare_loop s :
  wf_state s ->
  exists s',
    for_loop (Z.to_nat VALS_SIZE) 0 doReads_prepare_slot tt s = Ok tt s'
    /\ vals s' = vals s
    /\ wasRead s' = replicate (Z.to_nat VALS_SIZE) false
    /\ lastValsScan s' = vals s
    /\ changedTimes s' = replicate (Z.to_nat VALS_SIZE) 0
    /\ wasWritten s' = wasWritten s
    /\ savedRead s' = savedRead s
    /\ stderr s' = stderr s.
Proof.
  intros Hwf.
  destruct (doReads_prepare_prefix _ s Hwf (Nat.le_refl _))
    as (s' & Hrun & Hv & Hwr & Hl & Hc & Hrest).
  destruct Hwf as (W1 & W2 & W3 & W4 & W5).
  exists s'. split; [exact Hrun|]. split; [exact Hv|].
  rewrite Hwr, Hl, Hc. rewrite !drop_ge by lia. rewrite !app_nil_r.
  rewrite take_ge by lia. auto 10.
Qed.

(** The first [n] iterations of the preparation loop of the writer. *)
Lemma doWrites_prepare_prefix n s :
  wf_state s -> (n <= Z.to_nat VALS_SIZE)%nat ->
  exists s',
    for_loop n 0 doWrites_prepare_slot tt s = Ok tt s'
    /\ wasWritten s' = replicate n false ++ drop n (wasWritten s)
    /\ vals s' = vals s /\ lastValsScan s' = lastValsScan s
    /\ changedTimes s' = changedTimes s /\ wasRead s' = wasRead s
    /\ savedRead s' = savedRead s /\ stderr s' = stderr s.
Proof.
  intros (W1 & W2 & W3 & W4 & W5).
  generalize dependent (Z.to_nat VALS_SIZE). intros N W1 W2 W3 W4 W5 Hn.
  pose (I := fun (k : Z) (_ : unit) (s' : state) =>
    0 <= k /\ vals s' = vals s /\ lastValsScan s' = lastValsScan s
    /\ changedTimes s' = changedTimes s /\ wasRead s' = wasRead s
    /\ savedRead s' = savedRead s /\ stderr s' = stderr s
    /\ wasWritten s' = replicate (Z.to_nat k) false
                         ++ drop (Z.to_nat k) (wasWritten s)).
  assert (Hwp : wp (for_loop n 0 doWrites_prepare_slot tt)
                   (I (0 + Z.of_nat n)) s).
  { apply wp_for_loop.
    - intros k [] s0 Hk (Hk0 & Hv & Hl & Hc & Hwr & Hsr & Herr & Hww).
      assert (Lw : length (wasWritten s0) = N).
      { rewrite Hww, length_prefix_drop;
          rewrite ?length_replicate; try lia. }
      unfold wp, doWrites_prepare_slot.
      rewrite (arr_set_in_range wasWritten set_wasWritten k false s0) by lia.
      unfold I. cbn [vals wasWritten savedRead stderr wasRead
        lastValsScan changedTimes set_wasWritten].
      replace (Z.to_nat (k + 1)) with (Datatypes.S (Z.to_nat k)) by lia.
      split; [lia|]. repeat (split; [assumption|]).
      rewrite Hww, insert_prefix by (rewrite ?length_replicate; lia).
      rewrite replicate_S_end. reflexivity.
    - unfold I. change (Z.to_nat 0) with 0%nat. cbn [replicate drop app].
      split; [lia|]. tauto. }
  destruct (wp_elim _ _ _ Hwp)
    as ([] & s' & Hrun & _ & Hv & Hl & Hc & Hwr & Hsr & Herr & Hww).
  replace (Z.to_nat (0 + Z.of_nat n)) with n in * by lia.
  exists s'. auto 10.
Qed.

Lemma doWrites_prepare_loop s :
  wf_state s ->
  exists s',
    for_loop (Z.to_nat VALS_SIZE) 0 doWrites_prepare_slot tt s = Ok tt s'
    /\ wasWritten s' = replicate (Z.to_nat VALS_SIZE) false
    /\ vals s' = vals s /\ lastValsScan s' = lastValsScan s
    /\ changedTimes s' = changedTimes s /\ wasRead s' = wasRead s
    /\ savedRead s' = savedRead s /\ stderr s' = stderr s.
Proof.
  intros Hwf.
  destruct (doWrites_prepare_prefix _ s Hwf (Nat.le_refl _))
    as (s' & Hrun & Hww & Hrest).
  destruct Hwf as (W1 & W2 & W3 & W4 & W5).
  exists s'. split; [exact Hrun|].
  rewrite Hww. rewrite drop_ge by lia. rewrite app_nil_r. auto 10.
Qed.

Lemma doReads_prepare_spec iter s :
  wf_state s ->
  exists rr s',
    doReads_prepare iter s = Ok rr s'
    /\ (buffer_ok rr /\ index_ok rr)
    /\ vals s' = vals s
    /\ wasRead s' = replicate (Z.to_nat VALS_SIZE) false
    /\ lastValsScan s' = vals s
    /\ changedTimes s' = replicate (Z.to_nat VALS_SIZE) 0
    /\ wasWritten s' = wasWritten s
    /\ savedRead s' = 0
    /\ stderr s' = stderr s.
Proof.
  intros Hwf.
  destruct (doReads_prepare_loop s Hwf)
    as (s1 & Hloop & Hv & Hwr & Hl & Hc & Hww & _ & Herr).
  destruct (new_MyRandom_spec (uint32 (READ_RANDOM_START_SEED + iter))
              (set_savedRead 0 s1)) as (rr & _ & Hnew & Hrr).
  exists rr, (set_savedRead 0 s1). split.
  - unfold doReads_prepare. run Hloop.
    unfold bind at 1, modify. exact Hnew.
  - split; [exact Hrr|]. cbn [vals wasRead lastValsScan changedTimes
      wasWritten savedRead stderr set_savedRead]. auto 10.
Qed.

Lemma doWrites_prepare_spec iter s :
  wf_state s ->
  exists rw s',
    doWrites_prepare iter s = Ok rw s'
    /\ (buffer_ok rw /\ index_ok rw)
    /\ wasWritten s' = replicate (Z.to_nat VALS_SIZE) false
    /\ vals s' = vals s /\ lastValsScan s' = lastValsScan s
    /\ changedTimes s' = changedTimes s /\ wasRead s' = wasRead s
    /\ savedRead s' = savedRead s /\ stderr s' = stderr s.
Proof.
  intros Hwf.
  destruct (doWrites_prepare_loop s Hwf) as (s1 & Hloop & Hrest).
  destruct (new_MyRandom_spec (uint32 (WRITE_RANDOM_START_SEED + iter)) s1)
    as (rw & _ & Hnew & Hrw).
  exists rw, s1. split.
  - unfold doWrites_prepare. run Hloop. exact Hnew.
  - split; [exact Hrw|exact Hrest].
Qed.

Lemma stale_state_wf : wf_state stale_state.
Proof.
  unfold wf_state, stale_state. cbn [vals lastValsScan changedTimes wasRead
    wasWritten]. rewrite !length_insert, !length_replicate. tauto.
Qed.

(** C8 as stated fails: [clearState], the only thing [main] does before the
    workers are created, leaves the bookkeeping arrays as the previous trial
    left them. *)
Lemma clearState_keeps_bookkeeping :
  exists s', clearState 1 stale_state = Ok tt s'
             /\ changedTimes s' !!! 0%nat = 1
             /\ wasRead s' !!! 0%nat = true
             /\ wasWritten s' !!! 0%nat = true
             /\ ~ bookkeeping_cleared s'.
Proof.
  exists (set_vals (fresh_vals 1) stale_state).
  assert (Hpos : (0 < Z.to_nat VALS_SIZE)%nat) by (unfold VALS_SIZE; lia).
  assert (Hc : changedTimes (set_vals (fresh_vals 1) stale_state) !!! 0%nat
               = 1).
  { unfold stale_state. cbn [changedTimes set_vals].
    change (Z.to_nat 0) with 0%nat.
    apply list_lookup_total_insert_eq. rewrite length_replicate. exact Hpos. }
  split; [|split; [|split; [|split]]].
  - apply clearState_spec. apply stale_state_wf.
  - exact Hc.
  - unfold stale_state. cbn [wasRead set_vals].
    change (Z.to_nat 0) with 0%nat.
    apply list_lookup_total_insert_eq. rewrite length_replicate. exact Hpos.
  - unfold stale_state. cbn [wasWritten set_vals].
    change (Z.to_nat 0) with 0%nat.
    apply list_lookup_total_insert_eq. rewrite length_replicate. exact Hpos.
  - intros (Hzero & _). rewrite Hzero in Hc.
    rewrite lookup_total_replicate_2 in Hc by exact Hpos. discriminate.
Qed.

(** C8, amended. [clearState iter] regenerates the whole shared array from
    the outputs of a generator seeded with [MAIN_RANDOM_START_SEED + iter]
    and touches nothing else.  The bookkeeping arrays are reset by the
    workers themselves, in their preparation phases: the reader clears
    [wasRead] and [changedTimes] and copies the shared array into
    [lastValsScan]; the writer clears [wasWritten]. *)
Theorem resetting_steps (iter : Z) (s : state) :
  wf_state s ->
  (exists s1,
     clearState iter s = Ok tt s1
     /\ vals s1 = fresh_vals iter
     /\ length (vals s1) = Z.to_nat VALS_SIZE
     /\ lastValsScan s1 = lastValsScan s
     /\ changedTimes s1 = changedTimes s
     /\ wasRead s1 = wasRead s
     /\ wasWritten s1 = wasWritten s) /\
  (exists rr s2,
     doReads_prepare iter s = Ok rr s2
     /\ vals s2 = vals s
     /\ wasRead s2 = replicate (Z.to_nat VALS_SIZE) false
     /\ lastValsScan s2 = vals s
     /\ changedTimes s2 = replicate (Z.to_nat VALS_SIZE) 0
     /\ wasWritten s2 = wasWritten s) /\
  (exists rw s3,
     doWrites_prepare iter s = Ok rw s3
     /\ vals s3 = vals s
     /\ wasWritten s3 = replicate (Z.to_nat VALS_SIZE) false
     /\ wasRead s3 = wasRead s
     /\ lastValsScan s3 = lastValsScan s
     /\ changedTimes s3 = changedTimes s).
Proof.
  intros Hwf. split; [|split].
  - exists (set_vals (fresh_vals iter) s).
    destruct (fresh_vals_spec iter) as (_ & _ & _ & _ & _ & _ & Hfl).
    split; [apply clearState_spec; apply Hwf|].
    cbn [vals lastValsScan changedTimes wasRead wasWritten set_vals].
    split; [reflexivity|]. split; [exact Hfl|].
    repeat split; reflexivity.
  - destruct (doReads_prepare_spec iter s Hwf)
      as (rr & s2 & Hrun & _ & Hv & Hwr & Hl & Hc & Hww & _).
    exists rr, s2. auto 10.
  - destruct (doWrites_prepare_spec iter s Hwf)
      as (rw & s3 & Hrun & _ & Hww & Hv & Hl & Hc & Hwr & _).
    exists rw, s3. auto 10.
Qed.

Lemma resetting_steps_witness :
  exists s1,
    clearState 1 stale_state = Ok tt s1
    /\ vals s1 = fresh_vals 1
    /\ changedTimes s1 = changedTimes stale_state.
Proof.
  destruct (resetting_steps 1 stale_state stale_state_wf)
    as ((s1 & Hrun & Hv & _ & _ & Hc & _) & _).
  exists s1. auto.
Defined.

(** * Partial-correctness rules *)

Section Rules.
Context {S : Type} (X : Z -> S -> Prop).

Lemma wlp_mono {A} (m : M S A) (Q Q' : A -> S -> Prop) s :
  (forall a s', Q a s' -> Q' a s') -> wlp X m Q s -> wlp X m Q' s.
Proof. unfold wlp. destruct (m s); auto. Qed.


Lemma wp_wlp {A} (m : M S A) Q s : wp m Q s -> wlp X m Q s.
Proof. unfold wp, wlp. destruct (m s); tauto. Qed.

Lemma wlp_ret {A} (a : A) (Q : A -> S -> Prop) s :
  Q a s -> wlp X (ret a) Q s.
Proof. intros HQ. exact HQ. Qed.

Lemma wlp_bind {A B} (m : M S A) (k : A -> M S B) Q s :
  wlp X m (fun a s' => wlp X (k a) Q s') s -> wlp X (bind m k) Q s.
Proof. unfold wlp, bind. destruct (m s); auto. Qed.

Lemma wlp_Ok {A} (m : M S A) Q s a s' :
  wlp X m Q s -> m s = Ok a s' -> Q a s'.
Proof. unfold wlp. intros H Hm. rewrite Hm in H. exact H. Qed.

Lemma wlp_no_fault {A} (m : M S A) Q s : wlp X m Q s -> m s <> Fault.
Proof. unfold wlp. intros H Hm. rewrite Hm in H. exact H. Qed.


Lemma wlp_for_loop {L} (I : Z -> L -> S -> Prop) n i
    (body : Z -> L -> M S L) l s :
  (forall k l s, i <= k < i + Z.of_nat n -> I k l s ->
                 wlp X (body k l) (I (k + 1)) s) ->
  I i l s ->
  wlp X (for_loop n i body l) (I (i + Z.of_nat n)) s.
Proof.
  revert i l s. induction n as [|n IH]; intros i l s Hbody HI.
  - replace (i + Z.of_nat 0) with i by lia. exact HI.
  - rewrite Nat2Z.inj_succ in *.
    change (wlp X (bind (body i l) (fun l' => for_loop n (i + 1) body l'))
                (I (i + Z.succ (Z.of_nat n))) s).
    apply wlp_bind.
    eapply wlp_mono; [|apply Hbody; [lia|exact HI]].
    intros l' s' HI'. cbv beta.
    replace (i + Z.succ (Z.of_nat n)) with (i + 1 + Z.of_nat n) by lia.
    apply IH; [|exact HI'].
    intros k l0 s0 Hk. apply Hbody. lia.
Qed.

Lemma wlp_while {L} (I Q : L -> S -> Prop) fuel
    (cond : L -> M S bool) (body : L -> M S L) l s :
  (forall l s, I l s ->
     wlp X (cond l)
       (fun b s' => if b then wlp X (body l) I s' else Q l s') s) ->
  I l s ->
  wlp X (while_loop fuel cond body l) Q s.
Proof.
  intros Hstep. revert l s. induction fuel as [|fuel IH]; intros l s HI.
  - exact Logic.I.
  - cbn [while_loop]. apply wlp_bind.
    eapply wlp_mono; [|apply Hstep; exact HI].
    intros [|] s' Hb; cbv beta iota.
    + apply wlp_bind. eapply wlp_mono; [|exact Hb].
      intros l' s'' HI'. apply IH. exact HI'.
    + exact Hb.
Qed.

End Rules.

(** * The worker loops *)

Lemma VALS_SIZE_pos : 0 < VALS_SIZE.
Proof. reflexivity. Qed.

Lemma getRandomIndex_range r idx r' :
  getRandomIndex r = Ok idx r' -> 0 <= idx < VALS_SIZE.
Proof.
  unfold getRandomIndex. intros H. apply bind_Ok_inv in H.
  destruct H as (v & r1 & _ & Hret). unfold ret in Hret.
  injection Hret as <- _. apply Z.mod_pos_bound. exact VALS_SIZE_pos.
Qed.

Lemma getRandomIndex_ok r :
  rng_ok r ->
  wp getRandomIndex (fun idx r' => 0 <= idx < VALS_SIZE /\ rng_ok r') r.
Proof.
  intros [Hb Hi].
  destruct (wp_elim _ _ _ (nextInt_preserves r Hb Hi)) as (v & r1 & Hn & Hok).
  eapply wp_intro.
  - unfold getRandomIndex. run Hn. reflexivity.
  - split; [|exact Hok]. apply Z.mod_pos_bound. exact VALS_SIZE_pos.
Qed.

Lemma wp_on_local {S L A} (m : M L A) l (Q : A -> L -> Prop) (s : S) :
  wp m Q l -> wp (on_local m l) (fun p s' => s' = s /\ Q (fst p) (snd p)) s.
Proof.
  intros H. destruct (wp_elim _ _ _ H) as (a & l' & Hm & HQ).
  unfold wp, on_local. rewrite Hm. auto.
Qed.

(** The reject-and-resample loop: it changes nothing in the store, and when
    it ends the index it holds is in range and not marked. *)
Section Resample.
Variable proj : state -> list bool.
Variable s : state.
Hypothesis proj_length : length (proj s) = Z.to_nat VALS_SIZE.

Lemma resample_spec X fuel p :
  0 <= fst p < VALS_SIZE -> rng_ok (snd p) ->
  wlp X (while_loop fuel
           (fun p => arr_get proj (fst p))
           (fun p => on_local getRandomIndex (snd p)) p)
      (fun p' s' => s' = s /\ 0 <= fst p' < VALS_SIZE
                    /\ proj s !! Z.to_nat (fst p') = Some false
                    /\ rng_ok (snd p')) s.
Proof.
  intros Hidx Hr. pose proof proj_length as Hlen.
  apply (wlp_while X
           (fun p' s' => s' = s /\ 0 <= fst p' < VALS_SIZE /\ rng_ok (snd p'))).
  - intros p0 s0 (-> & Hidx0 & Hr0). unfold wlp.
    rewrite arr_get_in_range by lia.
    assert (Hlk : proj s !! Z.to_nat (fst p0)
                  = Some (proj s !!! Z.to_nat (fst p0))).
    { apply list_lookup_lookup_total_lt. lia. }
    destruct (proj s !!! Z.to_nat (fst p0)).
    + apply wp_wlp. eapply wp_mono; [|apply wp_on_local, getRandomIndex_ok;
                                       exact Hr0].
      intros [idx r'] s' (-> & Hi & Hr'). auto.
    + auto.
  - auto.
Qed.

End Resample.

Lemma writer_iter_spec X fuel i rw s :
  wf_state s -> rng_ok rw ->
  wlp X (writer_iter fuel i rw)
      (fun rw' s' =>
         rng_ok rw' /\
         exists idx v,
           0 <= idx < VALS_SIZE
           /\ wasWritten s !! Z.to_nat idx = Some false
           /\ s' = set_vals (<[Z.to_nat idx := v]> (vals s))
                     (set_wasWritten
                        (<[Z.to_nat idx := true]> (wasWritten s)) s)) s.
Proof.
  intros (W1 & W2 & W3 & W4 & W5) Hr. unfold writer_iter.
  apply wlp_bind. apply wp_wlp.
  eapply wp_mono; [|apply wp_on_local, getRandomIndex_ok; exact Hr].
  intros p s0 (-> & Hidx & Hr0). apply wlp_bind.
  eapply wlp_mono; [|apply (resample_spec wasWritten s W5 X); assumption].
  intros [idx r1] s0 (-> & Hidx1 & Hfree & Hr1). cbn [fst snd] in *.
  unfold wlp.
  assert (R0 : 0 <= idx < Z.of_nat (length (wasWritten s))) by lia.
  rewrite (bind_Ok _ _ _ _ _
             (arr_set_in_range wasWritten set_wasWritten idx true s R0)).
  set (s1 := set_wasWritten _ s).
  destruct Hr1 as [Hb1 Hi1].
  destruct (wp_elim _ _ _ (nextInt_preserves r1 Hb1 Hi1))
    as (v & r2 & Hn & Hr2).
  unfold bind at 1, on_local. rewrite Hn. cbn [fst snd].
  assert (R1 : 0 <= idx < Z.of_nat (length (vals s1))).
  { unfold s1. cbn [vals set_wasWritten]. lia. }
  rewrite (bind_Ok _ _ _ _ _
             (arr_set_in_range vals set_vals idx (int32 v) s1 R1)).
  unfold ret. split; [exact Hr2|]. exists idx, (int32 v). auto.
Qed.

Lemma reader_access_spec X fuel rr s :
  wf_state s -> rng_ok rr ->
  wlp X (reader_access fuel rr)
      (fun rr' s' =>
         rng_ok rr' /\
         exists idx,
           0 <= idx < VALS_SIZE
           /\ wasRead s !! Z.to_nat idx = Some false
           /\ s' = set_savedRead
                     (int32 ((vals s !!! Z.to_nat idx
                              + vals s !!! Z.to_nat idx - 1)
                             + (savedRead s - 1 + vals s !!! Z.to_nat idx)
                               * vals s !!! Z.to_nat idx))
                     (set_wasRead (<[Z.to_nat idx := true]> (wasRead s)) s)) s.
Proof.
  intros (W1 & W2 & W3 & W4 & W5) Hr. unfold reader_access.
  apply wlp_bind. apply wp_wlp.
  eapply wp_mono; [|apply wp_on_local, getRandomIndex_ok; exact Hr].
  intros p s0 (-> & Hidx & Hr0). apply wlp_bind.
  eapply wlp_mono; [|apply (resample_spec wasRead s W4 X); assumption].
  intros [idx r1] s0 (-> & Hidx1 & Hfree & Hr1). cbn [fst snd] in *.
  unfold wlp.
  assert (R0 : 0 <= idx < Z.of_nat (length (wasRead s))) by lia.
  rewrite (bind_Ok _ _ _ _ _
             (arr_set_in_range wasRead set_wasRead idx true s R0)).
  set (s1 := set_wasRead _ s).
  assert (R1 : 0 <= idx < Z.of_nat (length (vals s1))).
  { unfold s1. cbn [vals set_wasRead]. lia. }
  rewrite (bind_Ok _ _ _ _ _ (arr_get_in_range vals idx s1 R1)).
  unfold bind, get, modify, ret.
  split; [exact Hr1|]. exists idx. auto.
Qed.

(** ** Touched flags *)

Lemma touched_cons b flags :
  touched (b :: flags) = ((if b then 1 else 0) + touched flags)%nat.
Proof.
  unfold touched. rewrite filter_cons.
  destruct b; case_decide; try congruence; reflexivity.
Qed.

Lemma touched_insert flags i :
  flags !! i = Some false ->
  touched (<[i := true]> flags) = Datatypes.S (touched flags).
Proof.
  revert i. induction flags as [|b flags IH]; intros i Hi.
  - discriminate.
  - destruct i as [|i].
    + cbn in Hi. injection Hi as ->.
      change (<[0%nat := true]> (false :: flags)) with (true :: flags).
      rewrite !touched_cons. reflexivity.
    + cbn in Hi.
      change (<[Datatypes.S i := true]> (b :: flags))
        with (b :: <[i := true]> flags).
      rewrite (touched_cons b (<[i := true]> flags)), (touched_cons b flags).
      rewrite (IH i Hi). lia.
Qed.

Lemma touched_replicate_false n : touched (replicate n false) = 0%nat.
Proof.
  induction n as [|n IH]; [reflexivity|].
  cbn [replicate]. rewrite touched_cons, IH. reflexivity.
Qed.

Lemma touched_le_length flags : (touched flags <= length flags)%nat.
Proof. unfold touched. apply length_filter. Qed.

(** ** The writer *)

Lemma wf_state_set_written s idx v :
  wf_state s ->
  wf_state (set_vals (<[Z.to_nat idx := v]> (vals s))
              (set_wasWritten (<[Z.to_nat idx := true]> (wasWritten s)) s)).
Proof.
  unfold wf_state. cbn. rewrite !length_insert. tauto.
Qed.

Lemma writer_loop_spec X fuel n rw s :
  wf_state s -> rng_ok rw ->
  wlp X (writer_loop fuel n rw)
      (fun rw' s' =>
         rng_ok rw' /\ wf_state s'
         /\ touched (wasWritten s') = (touched (wasWritten s) + n)%nat
         /\ lastValsScan s' = lastValsScan s
         /\ changedTimes s' = changedTimes s
         /\ wasRead s' = wasRead s
         /\ savedRead s' = savedRead s
         /\ stderr s' = stderr s) s.
Proof.
  intros Hwf Hr. unfold writer_loop.
  pose (I := fun (k : Z) (rw' : MyRandom) (s' : state) =>
    0 <= k /\ rng_ok rw' /\ wf_state s'
    /\ touched (wasWritten s') = (touched (wasWritten s) + Z.to_nat k)%nat
    /\ lastValsScan s' = lastValsScan s
    /\ changedTimes s' = changedTimes s
    /\ wasRead s' = wasRead s
    /\ savedRead s' = savedRead s
    /\ stderr s' = stderr s).
  eapply wlp_mono; [|apply (wlp_for_loop X I)].
  - intros rw' s' (_ & Hrest).
    replace (Z.to_nat (0 + Z.of_nat n)) with n in Hrest by lia. exact Hrest.
  - intros k rw0 s0 Hk (Hk0 & Hr0 & Hwf0 & Ht & Hl & Hc & Hwr & Hsr & He).
    eapply wlp_mono; [|apply writer_iter_spec; assumption].
    intros rw1 s1 (Hr1 & idx & v & Hidx & Hfree & ->).
    unfold I. split; [lia|]. split; [exact Hr1|].
    split; [apply wf_state_set_written; exact Hwf0|].
    cbn [wasWritten lastValsScan changedTimes wasRead savedRead stderr
         set_vals set_wasWritten].
    rewrite (touched_insert _ _ Hfree), Ht.
    split; [lia|]. auto.
  - unfold I. split; [lia|]. split; [exact Hr|]. split; [exact Hwf|].
    split; [cbn; lia|]. auto.
Qed.

(** ** The detector inside the reader *)

Lemma check_frame_wf n s s' : wf_state s -> check_frame n s s' -> wf_state s'.
Proof.
  unfold wf_state, check_frame.
  intros (W1 & W2 & W3 & W4 & W5) (Hv & Hr & Hw & _ & _ & Hl & Hc & _).
  rewrite Hv, Hr, Hw, Hl, Hc. tauto.
Qed.

(** [checkVals] does not fault, whatever it finds. *)
Lemma checkVals_upto_any m s :
  wf_state s -> (m <= Z.to_nat CHECK_FIRST_VALS)%nat ->
  wlp any_exit (checkVals_upto m)
      (fun _ s' => wf_state s' /\ check_frame m s s') s.
Proof.
  intros Hwf Hm. unfold checkVals_upto.
  pose (I := fun (k : Z) (_ : unit) (s' : state) =>
               0 <= k /\ check_frame (Z.to_nat k) s s').
  eapply wlp_mono; [|apply (wlp_for_loop any_exit I)].
  - intros [] s' (_ & Hf).
    replace (Z.to_nat (0 + Z.of_nat m)) with m in Hf by lia.
    split; [eapply check_frame_wf; eassumption|exact Hf].
  - intros k [] s0 Hk (Hk0 & Hf).
    pose proof (check_frame_wf _ _ _ Hwf Hf) as (W1 & W2 & W3 & _).
    unfold CHECK_FIRST_VALS in Hm. unfold wlp.
    rewrite checkVals_slot_spec by lia. unfold I.
    replace (Z.to_nat (k + 1)) with (Datatypes.S (Z.to_nat k)) by lia.
    repeat case_bool_decide.
    + exact Logic.I.
    + split; [lia|]. apply check_frame_recorded; [exact Hf|reflexivity].
    + split; [lia|]. apply check_frame_weaken. exact Hf.
  - split; [lia|]. apply check_frame_refl.
Qed.

Lemma det_inv_recorded i s :
  det_inv s -> 0 <= i < VALS_SIZE ->
  changedTimes s !!! Z.to_nat i = 0 ->
  det_inv (recorded i s).
Proof.
  intros [Hwf Hinv] Hi Hzero. pose proof Hwf as (W1 & W2 & W3 & W4 & W5).
  split.
  - unfold wf_state, recorded. cbn. rewrite !length_insert. tauto.
  - intros k Hk. unfold recorded. cbn [vals lastValsScan changedTimes].
    destruct (decide (k = Z.to_nat i)) as [->|Hne].
    + right. rewrite !list_lookup_total_insert_eq by lia.
      rewrite Hzero. split; reflexivity.
    + rewrite !list_lookup_total_insert_ne by congruence. apply Hinv. exact Hk.
Qed.

(** While the shared array does not change under it, [checkVals] returns
    and keeps the invariant of the detector. *)
Lemma checkVals_upto_det_inv m s :
  det_inv s -> (m <= Z.to_nat CHECK_FIRST_VALS)%nat ->
  wp (checkVals_upto m) (fun _ s' => det_inv s' /\ check_frame m s s') s.
Proof.
  intros Hinv Hm. unfold checkVals_upto.
  pose (I := fun (k : Z) (_ : unit) (s' : state) =>
               0 <= k /\ det_inv s' /\ check_frame (Z.to_nat k) s s').
  eapply wp_mono; [|apply (wp_for_loop I)].
  - intros [] s' (_ & Hd & Hf).
    replace (Z.to_nat (0 + Z.of_nat m)) with m in Hf by lia. auto.
  - intros k [] s0 Hk (Hk0 & Hd & Hf).
    pose proof Hd as [(W1 & W2 & W3 & _) Hcnt].
    unfold CHECK_FIRST_VALS in Hm. unfold wp.
    rewrite checkVals_slot_spec by lia. unfold I.
    replace (Z.to_nat (k + 1)) with (Datatypes.S (Z.to_nat k)) by lia.
    case_bool_decide as Hne.
    + destruct (Hcnt (Z.to_nat k) ltac:(lia)) as [Hzero|[_ Heq]];
        [|congruence].
      rewrite Hzero. rewrite bool_decide_eq_false_2 by (vm_compute; congruence).
      split; [lia|]. split.
      * apply det_inv_recorded; [exact Hd|lia|exact Hzero].
      * apply check_frame_recorded; [exact Hf|reflexivity].
    + split; [lia|]. split; [exact Hd|]. apply check_frame_weaken. exact Hf.
  - split; [lia|]. split; [exact Hinv|]. apply check_frame_refl.
Qed.

(** ** The reader *)

Lemma wf_state_set_read s idx x :
  wf_state s ->
  wf_state (set_savedRead x
              (set_wasRead (<[Z.to_nat idx := true]> (wasRead s)) s)).
Proof. unfold wf_state. cbn. rewrite !length_insert. tauto. Qed.

Lemma det_inv_set_read s idx x :
  det_inv s ->
  det_inv (set_savedRead x
             (set_wasRead (<[Z.to_nat idx := true]> (wasRead s)) s)).
Proof.
  intros [Hwf Hinv]. split; [apply wf_state_set_read; exact Hwf|].
  exact Hinv.
Qed.

Lemma reader_iter_det fuel i rr s :
  det_inv s -> rng_ok rr ->
  wlp no_exit (reader_iter fuel i rr)
      (fun rr' s' =>
         rng_ok rr' /\ det_inv s'
         /\ vals s' = vals s /\ wasWritten s' = wasWritten s
         /\ exists idx, marks_fresh (wasRead s) (wasRead s') idx) s.
Proof.
  intros Hinv Hr. unfold reader_iter. apply wlp_bind.
  eapply wlp_mono; [|apply reader_access_spec; [apply Hinv|exact Hr]].
  intros rr1 s1 (Hr1 & idx & Hidx & Hfree & ->). apply wlp_bind.
  set (s1 := set_savedRead _ _).
  assert (Hinv1 : det_inv s1) by (apply det_inv_set_read; exact Hinv).
  assert (Hmark : marks_fresh (wasRead s) (wasRead s1) idx).
  { unfold marks_fresh. auto. }
  case_bool_decide.
  - apply wp_wlp.
    eapply wp_mono; [|apply (checkVals_upto_det_inv _ s1 Hinv1 (Nat.le_refl _))].
    intros [] s2 (Hinv2 & Hv & Hwr & Hww & _). apply wlp_ret.
    split; [exact Hr1|]. split; [exact Hinv2|].
    rewrite Hv, Hww, Hwr. split; [reflexivity|]. split; [reflexivity|].
    exists idx. exact Hmark.
  - apply wlp_ret. apply wlp_ret. split; [exact Hr1|]. split; [exact Hinv1|].
    split; [reflexivity|]. split; [reflexivity|]. exists idx. exact Hmark.
Qed.

Lemma reader_iter_any fuel i rr s :
  wf_state s -> rng_ok rr ->
  wlp any_exit (reader_iter fuel i rr)
      (fun rr' s' =>
         rng_ok rr' /\ wf_state s'
         /\ vals s' = vals s /\ wasWritten s' = wasWritten s
         /\ exists idx, marks_fresh (wasRead s) (wasRead s') idx) s.
Proof.
  intros Hwf Hr. unfold reader_iter. apply wlp_bind.
  eapply wlp_mono; [|apply reader_access_spec; [exact Hwf|exact Hr]].
  intros rr1 s1 (Hr1 & idx & Hidx & Hfree & ->). apply wlp_bind.
  set (s1 := set_savedRead _ _).
  assert (Hwf1 : wf_state s1) by (apply wf_state_set_read; exact Hwf).
  assert (Hmark : marks_fresh (wasRead s) (wasRead s1) idx).
  { unfold marks_fresh. auto. }
  case_bool_decide.
  - eapply wlp_mono;
      [|apply (checkVals_upto_any _ s1 Hwf1 (Nat.le_refl _))].
    intros [] s2 (Hwf2 & Hv & Hwr & Hww & _). apply wlp_ret.
    split; [exact Hr1|]. split; [exact Hwf2|].
    rewrite Hv, Hww, Hwr. split; [reflexivity|]. split; [reflexivity|].
    exists idx. exact Hmark.
  - apply wlp_ret. apply wlp_ret. split; [exact Hr1|]. split; [exact Hwf1|].
    split; [reflexivity|]. split; [reflexivity|]. exists idx. exact Hmark.
Qed.

Lemma touched_marks_fresh flags flags' idx :
  marks_fresh flags flags' idx ->
  touched flags' = Datatypes.S (touched flags).
Proof. intros (_ & Hfree & ->). apply touched_insert. exact Hfree. Qed.

Lemma reader_loop_det fuel n rr s :
  det_inv s -> rng_ok rr ->
  wlp no_exit (reader_loop fuel n rr)
      (fun rr' s' =>
         rng_ok rr' /\ det_inv s'
         /\ vals s' = vals s /\ wasWritten s' = wasWritten s
         /\ touched (wasRead s') = (touched (wasRead s) + n)%nat) s.
Proof.
  intros Hinv Hr. unfold reader_loop.
  pose (I := fun (k : Z) (rr' : MyRandom) (s' : state) =>
    0 <= k /\ rng_ok rr' /\ det_inv s'
    /\ vals s' = vals s /\ wasWritten s' = wasWritten s
    /\ touched (wasRead s') = (touched (wasRead s) + Z.to_nat k)%nat).
  eapply wlp_mono; [|apply (wlp_for_loop no_exit I)].
  - intros rr' s' (_ & Hrest).
    replace (Z.to_nat (0 + Z.of_nat n)) with n in Hrest by lia. exact Hrest.
  - intros k rr0 s0 Hk (Hk0 & Hr0 & Hinv0 & Hv & Hww & Ht).
    eapply wlp_mono; [|apply reader_iter_det; assumption].
    intros rr1 s1 (Hr1 & Hinv1 & Hv1 & Hww1 & idx & Hmark).
    unfold I. split; [lia|]. split; [exact Hr1|]. split; [exact Hinv1|].
    rewrite Hv1, Hww1, (touched_marks_fresh _ _ _ Hmark), Ht.
    split; [exact Hv|]. split; [exact Hww|]. lia.
  - unfold I. split; [lia|]. split; [exact Hr|]. split; [exact Hinv|].
    split; [reflexivity|]. split; [reflexivity|]. cbn. lia.
Qed.

Lemma reader_loop_any fuel n rr s :
  wf_state s -> rng_ok rr ->
  wlp any_exit (reader_loop fuel n rr)
      (fun rr' s' =>
         rng_ok rr' /\ wf_state s'
         /\ vals s' = vals s /\ wasWritten s' = wasWritten s
         /\ touched (wasRead s') = (touched (wasRead s) + n)%nat) s.
Proof.
  intros Hwf Hr. unfold reader_loop.
  pose (I := fun (k : Z) (rr' : MyRandom) (s' : state) =>
    0 <= k /\ rng_ok rr' /\ wf_state s'
    /\ vals s' = vals s /\ wasWritten s' = wasWritten s
    /\ touched (wasRead s') = (touched (wasRead s) + Z.to_nat k)%nat).
  eapply wlp_mono; [|apply (wlp_for_loop any_exit I)].
  - intros rr' s' (_ & Hrest).
    replace (Z.to_nat (0 + Z.of_nat n)) with n in Hrest by lia. exact Hrest.
  - intros k rr0 s0 Hk (Hk0 & Hr0 & Hwf0 & Hv & Hww & Ht).
    eapply wlp_mono; [|apply reader_iter_any; assumption].
    intros rr1 s1 (Hr1 & Hwf1 & Hv1 & Hww1 & idx & Hmark).
    unfold I. split; [lia|]. split; [exact Hr1|]. split; [exact Hwf1|].
    rewrite Hv1, Hww1, (touched_marks_fresh _ _ _ Hmark), Ht.
    split; [exact Hv|]. split; [exact Hww|]. lia.
  - unfold I. split; [lia|]. split; [exact Hr|]. split; [exact Hwf|].
    split; [reflexivity|]. split; [reflexivity|]. cbn. lia.
Qed.

(** ** The workers as whole functions *)

Lemma fprintf_stderr_spec line s :
  exists s', fprintf_stderr line s = Ok tt s'
             /\ vals s' = vals s /\ lastValsScan s' = lastValsScan s
             /\ changedTimes s' = changedTimes s /\ wasRead s' = wasRead s
             /\ wasWritten s' = wasWritten s /\ savedRead s' = savedRead s
             /\ stderr s' = stderr s ++ [line].
Proof. eexists. split; [reflexivity|]. cbn. auto 10. Qed.

Lemma wf_state_ext s s' :
  wf_state s -> vals s' = vals s -> lastValsScan s' = lastValsScan s ->
  changedTimes s' = changedTimes s -> wasRead s' = wasRead s ->
  wasWritten s' = wasWritten s -> wf_state s'.
Proof. unfold wf_state. intros H -> -> -> -> ->. exact H. Qed.

Lemma det_inv_ext s s' :
  det_inv s -> vals s' = vals s -> lastValsScan s' = lastValsScan s ->
  changedTimes s' = changedTimes s -> wasRead s' = wasRead s ->
  wasWritten s' = wasWritten s -> det_inv s'.
Proof.
  intros [Hwf Hinv] Hv Hl Hc Hr Hw. split.
  - eapply wf_state_ext; eassumption.
  - rewrite Hv, Hl, Hc. exact Hinv.
Qed.

Lemma det_inv_zero s :
  wf_state s -> changedTimes s = replicate (Z.to_nat VALS_SIZE) 0 ->
  det_inv s.
Proof.
  intros Hwf Hz. split; [exact Hwf|]. intros k Hk. left.
  rewrite Hz. apply lookup_total_replicate_2. exact Hk.
Qed.

Lemma det_inv_counters01 s : det_inv s -> counters01 s.
Proof.
  intros [(_ & _ & W3 & _) Hinv] k c Hk.
  assert (Hlt : (k < Z.to_nat VALS_SIZE)%nat).
  { rewrite <- W3. eapply lookup_lt_Some. exact Hk. }
  pose proof (Hinv k Hlt) as Hcase.
  rewrite (list_lookup_total_correct _ _ _ Hk) in Hcase. tauto.
Qed.

(** Facts about stores that the proofs below use without naming them. *)
Create HintDb harness.
#[local] Hint Resolve det_inv_counters01 det_inv_set_read wf_state_set_read
  wf_state_set_written example_state_wf : harness.

Lemma doWrites_act_spec X fuel rw s :
  wf_state s -> rng_ok rw ->
  wlp X (doWrites_act fuel rw)
      (fun _ s' =>
         wf_state s'
         /\ touched (wasWritten s')
            = (touched (wasWritten s) + Z.to_nat WRITER_ITERS)%nat
         /\ lastValsScan s' = lastValsScan s
         /\ changedTimes s' = changedTimes s
         /\ wasRead s' = wasRead s) s.
Proof.
  intros Hwf Hr. unfold doWrites_act. apply wlp_bind.
  eapply wlp_mono; [|apply writer_loop_spec; assumption].
  intros rw' s1 (_ & Hwf1 & Ht & Hl & Hc & Hwr & _).
  destruct (fprintf_stderr_spec ("Writer has finished" +:+ newline) s1)
    as (s2 & Hp & Hv2 & Hl2 & Hc2 & Hwr2 & Hww2 & _).
  unfold wlp. rewrite Hp. split; [eapply wf_state_ext; eassumption|].
  rewrite Hww2, Hl2, Hc2, Hwr2. auto.
Qed.

Lemma doWrites_spec X fuel iter s :
  wf_state s ->
  wlp X (doWrites fuel iter)
      (fun _ s' =>
         wf_state s'
         /\ touched (wasWritten s') = Z.to_nat WRITER_ITERS
         /\ lastValsScan s' = lastValsScan s
         /\ changedTimes s' = changedTimes s
         /\ wasRead s' = wasRead s) s.
Proof.
  intros Hwf.
  destruct (doWrites_prepare_spec iter s Hwf)
    as (rw & s0 & Hprep & Hrw & Hww & Hv & Hl & Hc & Hwr & _).
  assert (Hwf0 : wf_state s0).
  { destruct Hwf as (W1 & W2 & W3 & W4 & W5). unfold wf_state.
    rewrite Hww, Hv, Hl, Hc, Hwr, length_replicate. tauto. }
  unfold doWrites, wlp. run Hprep.
  pose proof (doWrites_act_spec X fuel rw s0 Hwf0 Hrw) as Hact.
  unfold wlp in Hact. destruct (doWrites_act fuel rw s0); try exact Hact.
  destruct Hact as (Hwf' & Ht & Hl' & Hc' & Hwr').
  rewrite Hww, touched_replicate_false in Ht.
  rewrite Hl', Hc', Hwr'. auto.
Qed.

Lemma doReads_act_any fuel rr s :
  wf_state s -> rng_ok rr ->
  wlp any_exit (doReads_act fuel rr)
      (fun _ s' =>
         wf_state s'
         /\ touched (wasRead s')
            = (touched (wasRead s) + Z.to_nat READER_ITERS)%nat
         /\ vals s' = vals s /\ wasWritten s' = wasWritten s) s.
Proof.
  intros Hwf Hr. unfold doReads_act. apply wlp_bind.
  eapply wlp_mono; [|apply reader_loop_any; assumption].
  intros rr' s1 (_ & Hwf1 & Hv & Hww & Ht).
  destruct (fprintf_stderr_spec ("Reader has finished" +:+ newline) s1)
    as (s2 & Hp & Hv2 & Hl2 & Hc2 & Hwr2 & Hww2 & _).
  unfold wlp. rewrite Hp. split; [eapply wf_state_ext; eassumption|].
  rewrite Hwr2, Hv2, Hww2. auto.
Qed.

Lemma doReads_act_det fuel rr s :
  det_inv s -> rng_ok rr ->
  wlp no_exit (doReads_act fuel rr)
      (fun _ s' =>
         det_inv s'
         /\ touched (wasRead s')
            = (touched (wasRead s) + Z.to_nat READER_ITERS)%nat
         /\ vals s' = vals s /\ wasWritten s' = wasWritten s) s.
Proof.
  intros Hinv Hr. unfold doReads_act. apply wlp_bind.
  eapply wlp_mono; [|apply reader_loop_det; assumption].
  intros rr' s1 (_ & Hinv1 & Hv & Hww & Ht).
  destruct (fprintf_stderr_spec ("Reader has finished" +:+ newline) s1)
    as (s2 & Hp & Hv2 & Hl2 & Hc2 & Hwr2 & Hww2 & _).
  unfold wlp. rewrite Hp. split; [eapply det_inv_ext; eassumption|].
  rewrite Hwr2, Hv2, Hww2. auto.
Qed.

Lemma doReads_prepare_det iter s :
  wf_state s ->
  exists rr s0,
    doReads_prepare iter s = Ok rr s0 /\ rng_ok rr /\ det_inv s0
    /\ vals s0 = vals s /\ wasWritten s0 = wasWritten s
    /\ wasRead s0 = replicate (Z.to_nat VALS_SIZE) false
    /\ changedTimes s0 = replicate (Z.to_nat VALS_SIZE) 0.
Proof.
  intros Hwf.
  destruct (doReads_prepare_spec iter s Hwf)
    as (rr & s0 & Hprep & Hrr & Hv & Hwr & Hl & Hc & Hww & _).
  exists rr, s0. split; [exact Hprep|]. split; [exact Hrr|].
  split; [|auto].
  apply det_inv_zero; [|exact Hc].
  destruct Hwf as (W1 & W2 & W3 & W4 & W5). unfold wf_state.
  rewrite Hv, Hwr, Hl, Hc, Hww, !length_replicate. tauto.
Qed.

Lemma doReads_any fuel iter s :
  wf_state s ->
  wlp any_exit (doReads fuel iter)
      (fun _ s' =>
         wf_state s' /\ touched (wasRead s') = Z.to_nat READER_ITERS
         /\ vals s' = vals s /\ wasWritten s' = wasWritten s) s.
Proof.
  intros Hwf.
  destruct (doReads_prepare_det iter s Hwf)
    as (rr & s0 & Hprep & Hrr & Hinv & Hv & Hww & Hwr & _).
  unfold doReads, wlp. run Hprep.
  pose proof (doReads_act_any fuel rr s0 (proj1 Hinv) Hrr) as Hact.
  unfold wlp in Hact. destruct (doReads_act fuel rr s0); try exact Hact.
  destruct Hact as (Hwf' & Ht & Hv' & Hww').
  rewrite Hwr, touched_replicate_false in Ht.
  rewrite Hv', Hww'. auto.
Qed.

Lemma doReads_det fuel iter s :
  wf_state s ->
  wlp no_exit (doReads fuel iter)
      (fun _ s' =>
         det_inv s' /\ touched (wasRead s') = Z.to_nat READER_ITERS
         /\ vals s' = vals s /\ wasWritten s' = wasWritten s) s.
Proof.
  intros Hwf.
  destruct (doReads_prepare_det iter s Hwf)
    as (rr & s0 & Hprep & Hrr & Hinv & Hv & Hww & Hwr & _).
  unfold doReads, wlp. run Hprep.
  pose proof (doReads_act_det fuel rr s0 Hinv Hrr) as Hact.
  unfold wlp in Hact. destruct (doReads_act fuel rr s0); try exact Hact.
  destruct Hact as (Hinv' & Ht & Hv' & Hww').
  rewrite Hwr, touched_replicate_false in Ht.
  rewrite Hv', Hww'. auto.
Qed.

(** * Bounds, sampling without replacement, sequential runs *)

(** C9. [getRandomIndex] returns [nextInt] modulo [VALS_SIZE], so whatever
    the generator state, an index it returns is in [0, VALS_SIZE); and from
    a well-formed store and generator no array access of the reader or of
    the writer is out of bounds: neither their loops, after any number [n]
    of iterations, nor the whole functions ever fault. *)
Theorem accesses_in_bounds (fuel : nat) (iter : Z) (s : state)
    (r : MyRandom) (n : nat) :
  wf_state s -> rng_ok r ->
  (forall g idx g', getRandomIndex g = Ok idx g' -> 0 <= idx < VALS_SIZE) /\
  (exists v idx r', nextInt r = Ok v r' /\ getRandomIndex r = Ok idx r'
                    /\ idx = v mod VALS_SIZE /\ 0 <= idx < VALS_SIZE) /\
  reader_loop fuel n r s <> Fault /\
  writer_loop fuel n r s <> Fault /\
  doReads fuel iter s <> Fault /\
  doWrites fuel iter s <> Fault.
Proof.
  intros Hwf Hr. split; [|split; [|split; [|split; [|split]]]].
  - apply getRandomIndex_range.
  - destruct Hr as [Hb Hi].
    destruct (wp_elim _ _ _ (nextInt_preserves r Hb Hi))
      as (v & r' & Hn & _).
    exists v, (v mod VALS_SIZE), r'. split; [exact Hn|].
    split; [|split; [reflexivity|]].
    + unfold getRandomIndex. run Hn. reflexivity.
    + apply Z.mod_pos_bound. exact VALS_SIZE_pos.
  - eapply wlp_no_fault. apply reader_loop_any; assumption.
  - eapply wlp_no_fault. apply (writer_loop_spec any_exit); assumption.
  - eapply wlp_no_fault. apply doReads_any; assumption.
  - eapply wlp_no_fault. apply (doWrites_spec any_exit); assumption.
Qed.

Lemma accesses_in_bounds_witness :
  (exists v idx r', nextInt (seeded 5) = Ok v r'
                    /\ getRandomIndex (seeded 5) = Ok idx r'
                    /\ idx = v mod VALS_SIZE /\ 0 <= idx < VALS_SIZE) /\
  reader_loop 10 3 (seeded 5) example_state <> Fault /\
  writer_loop 10 3 (seeded 5) example_state <> Fault /\
  doReads 10 0 example_state <> Fault /\
  doWrites 10 0 example_state <> Fault.
Proof.
  apply (accesses_in_bounds 10 0 example_state (seeded 5) 3).
  - exact example_state_wf.
  - exact (seeded_ok 5).
Defined.

(** C4. Within one trial no index is selected twice by the same role.
    Whenever [n] iterations of the writer's loop have completed, exactly
    [n] more flags of [wasWritten] are set (so their number never exceeds
    the array length), and the next iteration writes at an index whose flag
    was not set and sets it; the same holds for the reader's loop with
    [wasRead], the index being the one it reads.  When [doWrites] (resp.
    [doReads]) returns, the number of flags set in [wasWritten] (resp.
    [wasRead]) is [WRITER_ITERS] (resp. [READER_ITERS]). *)
Theorem sampling_without_replacement (fuel : nat) (iter : Z) (s : state)
    (r : MyRandom) (n : nat) :
  wf_state s -> rng_ok r ->
  (forall r_n s_n,
     writer_loop fuel n r s = Ok r_n s_n ->
     touched (wasWritten s_n) = (touched (wasWritten s) + n)%nat
     /\ (touched (wasWritten s) + n <= Z.to_nat VALS_SIZE)%nat
     /\ forall r' s',
          writer_iter fuel (Z.of_nat n) r_n s_n = Ok r' s' ->
          exists idx v,
            marks_fresh (wasWritten s_n) (wasWritten s') idx
            /\ vals s' = <[Z.to_nat idx := v]> (vals s_n)) /\
  (forall r_n s_n,
     reader_loop fuel n r s = Ok r_n s_n ->
     touched (wasRead s_n) = (touched (wasRead s) + n)%nat
     /\ (touched (wasRead s) + n <= Z.to_nat VALS_SIZE)%nat
     /\ forall r' s',
          reader_access fuel r_n s_n = Ok r' s' ->
          exists idx,
            marks_fresh (wasRead s_n) (wasRead s') idx
            /\ savedRead s'
               = int32 ((vals s_n !!! Z.to_nat idx
                         + vals s_n !!! Z.to_nat idx - 1)
                        + (savedRead s_n - 1 + vals s_n !!! Z.to_nat idx)
                          * vals s_n !!! Z.to_nat idx)) /\
  (forall s', doWrites fuel iter s = Ok tt s' ->
              touched (wasWritten s') = Z.to_nat WRITER_ITERS
              /\ WRITER_ITERS <= VALS_SIZE) /\
  (forall s', doReads fuel iter s = Ok tt s' ->
              touched (wasRead s') = Z.to_nat READER_ITERS
              /\ READER_ITERS <= VALS_SIZE).
Proof.
  intros Hwf Hr. split; [|split; [|split]].
  - intros r_n s_n Hrun.
    pose proof (wlp_Ok _ _ _ _ _ _
                  (writer_loop_spec any_exit fuel n r s Hwf Hr) Hrun)
      as (Hr_n & Hwf_n & Ht & _).
    split; [exact Ht|]. split.
    + rewrite <- Ht. destruct Hwf_n as (_ & _ & _ & _ & W5).
      rewrite <- W5. apply touched_le_length.
    + intros r' s' Hiter.
      pose proof (wlp_Ok _ _ _ _ _ _
                    (writer_iter_spec any_exit fuel (Z.of_nat n) r_n s_n
                       Hwf_n Hr_n) Hiter)
        as (_ & idx & v & Hidx & Hfree & ->).
      exists idx, v. split; [|reflexivity].
      unfold marks_fresh. auto.
  - intros r_n s_n Hrun.
    pose proof (wlp_Ok _ _ _ _ _ _
                  (reader_loop_any fuel n r s Hwf Hr) Hrun)
      as (Hr_n & Hwf_n & _ & _ & Ht).
    split; [exact Ht|]. split.
    + rewrite <- Ht. destruct Hwf_n as (_ & _ & _ & W4 & _).
      rewrite <- W4. apply touched_le_length.
    + intros r' s' Hacc.
      pose proof (wlp_Ok _ _ _ _ _ _
                    (reader_access_spec any_exit fuel r_n s_n Hwf_n Hr_n)
                    Hacc)
        as (_ & idx & Hidx & Hfree & ->).
      exists idx. split; [|reflexivity].
      unfold marks_fresh. auto.
  - intros s' Hrun.
    pose proof (wlp_Ok _ _ _ _ _ _
                  (doWrites_spec any_exit fuel iter s Hwf) Hrun)
      as (_ & Ht & _).
    split; [exact Ht|]. vm_compute. discriminate.
  - intros s' Hrun.
    pose proof (wlp_Ok _ _ _ _ _ _ (doReads_any fuel iter s Hwf) Hrun)
      as (_ & Ht & _).
    split; [exact Ht|]. vm_compute. discriminate.
Qed.

Lemma on_local_Ok {S L A} (m : M L A) l a l' (s : S) :
  m l = Ok a l' -> on_local m l s = Ok (a, l') s.
Proof. unfold on_local. intros ->. reflexivity. Qed.

(** ** Sequential runs *)

Lemma counters01_ext s s' :
  changedTimes s' = changedTimes s -> counters01 s -> counters01 s'.
Proof. unfold counters01. intros ->. auto. Qed.

Lemma counters01_zero_prefix n s s' :
  changedTimes s' = replicate n 0 ++ drop n (changedTimes s) ->
  counters01 s -> counters01 s'.
Proof.
  unfold counters01. intros -> Hs k c Hk.
  apply lookup_app_Some in Hk. destruct Hk as [Hk|[_ Hk]].
  - apply lookup_replicate in Hk. tauto.
  - rewrite lookup_drop in Hk. eapply Hs. exact Hk.
Qed.

Lemma never_triggered_wlp {A} (m : M state A) (Q : A -> state -> Prop) s :
  wlp no_exit m Q s -> (forall a s', Q a s' -> counters01 s') ->
  never_triggered (m s).
Proof.
  unfold wlp, never_triggered. destruct (m s); try tauto. intros HQ H.
  eapply H. exact HQ.
Qed.

Lemma never_triggered_void {A} (m : M state A) s :
  never_triggered (m s) -> never_triggered (void m s).
Proof. unfold void, bind, never_triggered, ret. destruct (m s); tauto. Qed.

Lemma reader_point_safe fuel rr s o :
  det_inv s -> rng_ok rr -> reader_point fuel rr s o -> never_triggered o.
Proof.
  intros Hinv Hr Hpt. destruct Hpt as [n Hn|n rr_n s_n rr' s' m Hn Hrun Hacc _ Hm|].
  - apply never_triggered_void.
    eapply never_triggered_wlp; [apply reader_loop_det; assumption|].
    intros rr' s' (_ & Hinv' & _). apply det_inv_counters01. exact Hinv'.
  - pose proof (wlp_Ok _ _ _ _ _ _ (reader_loop_det fuel n rr s Hinv Hr) Hrun)
      as (Hr_n & Hinv_n & _).
    pose proof (wlp_Ok _ _ _ _ _ _
                  (reader_access_spec no_exit fuel rr_n s_n (proj1 Hinv_n)
                     Hr_n) Hacc) as (_ & idx & _ & _ & ->).
    match goal with
    | |- never_triggered (checkVals_upto m (set_savedRead ?x ?s1)) =>
        pose proof (checkVals_upto_det_inv m _
                      (det_inv_set_read s_n idx x Hinv_n) Hm) as Hwp;
        unfold wp in Hwp; unfold never_triggered;
        destruct (checkVals_upto m (set_savedRead x s1));
        try contradiction
    end.
    destruct Hwp as [Hinv' _]. auto with harness.
  - eapply never_triggered_wlp; [apply doReads_act_det; assumption|].
    intros [] s' (Hinv' & _). apply det_inv_counters01. exact Hinv'.
Qed.

Lemma writer_point_safe fuel rw s o :
  wf_state s -> counters01 s -> rng_ok rw ->
  writer_point fuel rw s o -> never_triggered o.
Proof.
  intros Hwf Hc Hr Hpt. destruct Hpt as [n Hn|].
  - apply never_triggered_void.
    eapply never_triggered_wlp; [apply writer_loop_spec; assumption|].
    intros rw' s' (_ & _ & _ & _ & Hc' & _).
    eapply counters01_ext; eassumption.
  - eapply never_triggered_wlp; [apply doWrites_act_spec; assumption|].
    intros [] s' (_ & _ & _ & Hc' & _).
    eapply counters01_ext; eassumption.
Qed.

Lemma doReads_point_safe fuel iter s o :
  wf_state s -> counters01 s ->
  doReads_point fuel iter s o -> never_triggered o.
Proof.
  intros Hwf Hc Hpt. destruct Hpt as [k Hk|rr s0 o Hprep Hpt].
  - destruct (doReads_prepare_prefix k s Hwf Hk)
      as (s' & Hrun & _ & _ & _ & Hc' & _).
    rewrite Hrun. eapply counters01_zero_prefix; eassumption.
  - destruct (doReads_prepare_det iter s Hwf)
      as (rr' & s0' & Hprep' & Hrr & Hinv & _).
    rewrite Hprep in Hprep'. injection Hprep' as <- <-.
    eapply reader_point_safe; eassumption.
Qed.

Lemma doWrites_prepare_wf iter s :
  wf_state s ->
  exists rw s0,
    doWrites_prepare iter s = Ok rw s0 /\ rng_ok rw /\ wf_state s0
    /\ changedTimes s0 = changedTimes s
    /\ lastValsScan s0 = lastValsScan s /\ vals s0 = vals s.
Proof.
  intros Hwf.
  destruct (doWrites_prepare_spec iter s Hwf)
    as (rw & s0 & Hprep & Hrw & Hww & Hv & Hl & Hc & Hwr & _).
  exists rw, s0. split; [exact Hprep|]. split; [exact Hrw|].
  split; [|auto].
  destruct Hwf as (W1 & W2 & W3 & W4 & W5). unfold wf_state.
  rewrite Hww, Hv, Hl, Hc, Hwr, length_replicate. tauto.
Qed.

Lemma doWrites_point_safe fuel iter s o :
  wf_state s -> counters01 s ->
  doWrites_point fuel iter s o -> never_triggered o.
Proof.
  intros Hwf Hc Hpt. destruct Hpt as [k Hk|rw s0 o Hprep Hpt].
  - destruct (doWrites_prepare_prefix k s Hwf Hk)
      as (s' & Hrun & _ & _ & _ & Hc' & _).
    rewrite Hrun. eapply counters01_ext; eassumption.
  - destruct (doWrites_prepare_wf iter s Hwf)
      as (rw' & s0' & Hprep' & Hrw & Hwf0 & Hc0 & _).
    rewrite Hprep in Hprep'. injection Hprep' as <- <-.
    eapply writer_point_safe; try eassumption.
    eapply counters01_ext; eassumption.
Qed.

Lemma prepared_spec iter s rr rw s0 :
  wf_state s -> prepared iter s rr rw s0 ->
  rng_ok rr /\ rng_ok rw /\ det_inv s0
  /\ changedTimes s0 = replicate (Z.to_nat VALS_SIZE) 0.
Proof.
  intros Hwf [(s1 & Hr & Hw)|(s1 & Hw & Hr)].
  - destruct (doReads_prepare_det iter s Hwf)
      as (rr' & s1' & Hr' & Hrr & Hinv & _ & _ & _ & Hz).
    rewrite Hr in Hr'. injection Hr' as <- <-.
    destruct (doWrites_prepare_wf iter s1 (proj1 Hinv))
      as (rw' & s0' & Hw' & Hrw & Hwf0 & Hc0 & _).
    rewrite Hw in Hw'. injection Hw' as <- <-.
    split; [exact Hrr|]. split; [exact Hrw|].
    assert (Hz0 : changedTimes s0 = replicate (Z.to_nat VALS_SIZE) 0)
      by (rewrite Hc0; exact Hz).
    split; [|exact Hz0]. apply det_inv_zero; [exact Hwf0|exact Hz0].
  - destruct (doWrites_prepare_wf iter s Hwf)
      as (rw' & s1' & Hw' & Hrw & Hwf1 & _).
    rewrite Hw in Hw'. injection Hw' as <- <-.
    destruct (doReads_prepare_det iter s1 Hwf1)
      as (rr' & s0' & Hr' & Hrr & Hinv & _ & _ & _ & Hz).
    rewrite Hr in Hr'. injection Hr' as <- <-.
    auto.
Qed.

(** C3. In every run of a trial in which the writer and the reader do not
    overlap (started from a store whose change counters are 0 or 1, as the
    initial store and the store left by such a trial are), at every
    observed point the detector has not fired and every change counter is
    0 or 1. *)
Theorem sequential_runs_never_trigger (fuel : nat) (iter : Z) (s : state)
    (o : result state unit) :
  wf_state s -> counters01 s ->
  sequential_point fuel iter s o ->
  never_triggered o.
Proof.
  intros Hwf Hc Hpt.
  destruct Hpt as [o Hpt|s1 o Hrun Hpt|o Hpt|s1 o Hrun Hpt
                  |rr rw s0 o Hprep Hpt|rr rw s0 s1 o Hprep Hrun Hpt
                  |rr rw s0 o Hprep Hpt|rr rw s0 s1 o Hprep Hrun Hpt].
  - eapply doWrites_point_safe; eassumption.
  - pose proof (wlp_Ok _ _ _ _ _ _ (doWrites_spec no_exit fuel iter s Hwf)
                  Hrun) as (Hwf1 & _ & _ & Hc1 & _).
    eapply doReads_point_safe; [exact Hwf1| |exact Hpt].
    eapply counters01_ext; eassumption.
  - eapply doReads_point_safe; eassumption.
  - pose proof (wlp_Ok _ _ _ _ _ _ (doReads_det fuel iter s Hwf) Hrun)
      as (Hinv1 & _).
    eapply doWrites_point_safe; [apply Hinv1| |exact Hpt].
    auto with harness.
  - destruct (prepared_spec _ _ _ _ _ Hwf Hprep) as (Hrr & Hrw & Hinv & _).
    eapply writer_point_safe; [apply Hinv| |exact Hrw|exact Hpt].
    auto with harness.
  - destruct (prepared_spec _ _ _ _ _ Hwf Hprep) as (Hrr & Hrw & Hinv & Hz).
    pose proof (wlp_Ok _ _ _ _ _ _
                  (doWrites_act_spec no_exit fuel rw s0 (proj1 Hinv) Hrw)
                  Hrun) as (Hwf1 & _ & _ & Hc1 & _).
    eapply reader_point_safe; [|exact Hrr|exact Hpt].
    apply det_inv_zero; [exact Hwf1|]. rewrite Hc1. exact Hz.
  - destruct (prepared_spec _ _ _ _ _ Hwf Hprep) as (Hrr & Hrw & Hinv & _).
    exact (reader_point_safe fuel rr s0 o Hinv Hrr Hpt).
  - destruct (prepared_spec _ _ _ _ _ Hwf Hprep) as (Hrr & Hrw & Hinv & _).
    pose proof (wlp_Ok _ _ _ _ _ _ (doReads_act_det fuel rr s0 Hinv Hrr) Hrun)
      as (Hinv1 & _).
    eapply writer_point_safe; [apply Hinv1| |exact Hrw|exact Hpt].
    auto with harness.
Qed.

Lemma example_state_counters01 : counters01 example_state.
Proof.
  intros k c Hk. unfold example_state in Hk. cbn [changedTimes] in Hk.
  apply lookup_replicate in Hk. tauto.
Qed.

Lemma sequential_runs_never_trigger_witness :
  never_triggered (doReads 100 0 example_state)
  /\ (forall s1, doWrites 100 0 example_state = Ok tt s1 ->
                 never_triggered (doReads 100 0 s1)).
Proof.
  assert (Hreads : forall s,
            sequential_point 100 0 example_state (doReads 100 0 s) ->
            never_triggered (doReads 100 0 s)).
  { intros s. apply (sequential_runs_never_trigger 100 0 example_state).
    - exact example_state_wf.
    - exact example_state_counters01. }
  assert (Hpoint : forall s, wf_state s ->
            doReads_point 100 0 s (doReads 100 0 s)).
  { intros s Hwf.
    destruct (doReads_prepare_det 0 s Hwf) as (rr & s0 & Hprep & _).
    assert (Heq : doReads 100 0 s = doReads_act 100 rr s0)
      by exact (bind_Ok _ _ _ _ _ Hprep).
    rewrite Heq. eapply reads_acting; [exact Hprep|]. apply reader_at_end. }
  split.
  - apply Hreads. apply reader_first_reading. apply Hpoint.
    exact example_state_wf.
  - intros s1 Hrun. apply Hreads.
    apply (writer_first_reading _ _ _ s1); [exact Hrun|]. apply Hpoint.
    exact (proj1 (wlp_Ok _ _ _ _ _ _
                    (doWrites_spec no_exit 100 0 example_state
                       example_state_wf) Hrun)).
Defined.

(** * The replay agrees with the workers *)

Lemma uint32_mask32 z : uint32 z = mask32 z.
Proof.
  unfold uint32, mask32. change 0xFFFFFFFF with (Z.ones 32).
  rewrite Z.land_ones by lia. reflexivity.
Qed.

Lemma replay_twist_eq bi bi2 bj : replay_twist bi bi2 bj = twist bi bi2 bj.
Proof. unfold replay_twist, twist. rewrite uint32_mask32. reflexivity. Qed.

Lemma replay_swizzle_eq r : replay_swizzle r = swizzle r.
Proof.
  unfold replay_swizzle, swizzle, swizzle4, swizzle3, swizzle2, swizzle1.
  rewrite !uint32_mask32. reflexivity.
Qed.


(** Position [k] of the rotated buffer is position [c + k] of the buffer,
    with wrap-around. *)
Lemma rotated_lookup_total (b : list Z) (c k : nat) :
  (c < length b)%nat -> (k < length b)%nat ->
  (drop c b ++ take c b) !!! k
  = b !!! (if decide (c + k < length b)%nat then c + k
           else c + k - length b)%nat.
Proof.
  intros Hc Hk. case_decide as Hlt.
  - rewrite lookup_total_app_l by (rewrite length_drop; lia).
    apply lookup_total_drop.
  - rewrite lookup_total_app_r by (rewrite length_drop; lia).
    rewrite length_drop. rewrite lookup_total_take_lt by lia.
    f_equal. lia.
Qed.

Lemma replay_next_sim r :
  rng_ok r ->
  exists r',
    nextInt r = Ok (fst (replay_next (rotated r))) r'
    /\ rng_ok r' /\ rotated r' = snd (replay_next (rotated r)).
Proof.
  intros [Hb Hi]. pose proof Hb as Hlen. pose proof Hi as Hidx.
  unfold buffer_ok in Hlen. unfold index_ok in Hidx.
  destruct (wp_elim _ _ _ (nextInt_preserves r Hb Hi))
    as (v & r' & Hn & Hok).
  rewrite nextInt_spec in Hn by assumption. injection Hn as <- <-.
  assert (Hraw : replay_twist (rotated r !!! 0%nat) (rotated r !!! 1%nat)
                   (rotated r !!! Z.to_nat MT_IA) = nextInt_raw r).
  { rewrite replay_twist_eq. unfold nextInt_raw, rotated,
      nextInt_i, nextInt_i2, nextInt_j.
    rewrite !rotated_lookup_total by (unfold MT_LEN, MT_IA in *; lia).
    unfold MT_LEN, MT_IA in *.
    f_equal; f_equal; repeat case_decide; repeat case_bool_decide; lia. }
  eexists. split; [|split; [exact Hok|]].
  - unfold replay_next. cbn [fst]. rewrite Hraw, replay_swizzle_eq.
    apply nextInt_spec; assumption.
  - unfold replay_next. cbn [snd]. rewrite Hraw.
    set (raw := nextInt_raw r). set (b := m_buffer r) in *.
    set (c := Z.to_nat (m_index r)).
    assert (Hc : (c < length b)%nat) by (unfold c, MT_LEN in *; lia).
    destruct (lookup_lt_is_Some_2 b c Hc) as [x Hx].
    assert (Htail : tail (rotated r) = drop (Datatypes.S c) b ++ take c b).
    { unfold rotated. fold b c. rewrite (drop_S _ _ _ Hx). reflexivity. }
    rewrite Htail, <- app_assoc.
    assert (Hins : <[c := raw]> b !! c = Some raw)
      by (apply list_lookup_insert_eq; exact Hc).
    unfold rotated. cbn [m_buffer m_index]. fold b c. unfold nextInt_i2.
    case_bool_decide as Hwrap.
    + assert (HSc : Datatypes.S c = length b)
        by (unfold c, MT_LEN in *; lia).
      change (Z.to_nat 0) with 0%nat. rewrite drop_0, take_0, app_nil_r.
      rewrite HSc, drop_all. cbn [app].
      rewrite <- (take_ge (<[c := raw]> b) (Datatypes.S c))
        by (rewrite length_insert; lia).
      rewrite (take_S_r _ _ _ Hins), take_insert_ge by lia. reflexivity.
    + replace (Z.to_nat (m_index r + 1)) with (Datatypes.S c)
        by (unfold c; lia).
      rewrite drop_insert_lt by lia.
      rewrite (take_S_r _ _ _ Hins), take_insert_ge by lia. reflexivity.
Qed.

Lemma replay_skip_sim n :
  forall i r,
    rng_ok r ->
    exists r',
      for_loop n i (fun _ _ => bind nextInt (fun _ => ret tt)) tt r = Ok tt r'
      /\ rng_ok r' /\ rotated r' = replay_skip n (rotated r).
Proof.
  induction n as [|n IH]; intros i r Hr.
  - exists r. auto.
  - destruct (replay_next_sim r Hr) as (r1 & Hn & Hr1 & Hrot1).
    destruct (IH (i + 1) r1 Hr1) as (r' & Hloop & Hr' & Hrot').
    exists r'. split; [|split; [exact Hr'|]].
    + rewrite for_loop_S.
      rewrite (bind_Ok _ _ _ _ _ (bind_Ok _ (fun _ => ret tt) _ _ _ Hn)).
      exact Hloop.
    + cbn [replay_skip]. rewrite <- Hrot1. exact Hrot'.
Qed.

Lemma rotated_seeded seed :
  rotated (seeded seed) = replicate (Z.to_nat MT_LEN) seed.
Proof.
  unfold rotated, seeded. cbn [m_buffer m_index].
  change (Z.to_nat 0) with 0%nat. rewrite drop_0, take_0. apply app_nil_r.
Qed.

Lemma new_MyRandom_replay {S} seed (s : S) :
  exists r, new_MyRandom seed s = Ok r s /\ rng_ok r
            /\ rotated r = replay_init seed.
Proof.
  destruct (seeded_ok seed) as [Hb Hi].
  destruct (replay_skip_sim (Z.to_nat (MT_LEN * 100)) 0 (seeded seed)
              (conj Hb Hi)) as (r & Hloop & Hr & Hrot).
  exists r. split; [|split; [exact Hr|]].
  - unfold new_MyRandom, bind, on_local.
    rewrite (initMyRandom_seeded seed _ indeterminate_buffer_ok), Hloop.
    reflexivity.
  - unfold replay_init. rewrite Hrot, rotated_seeded. reflexivity.
Qed.

Lemma flags_of_empty n : flags_of ∅ (replicate n false).
Proof.
  intros i Hi. rewrite length_replicate in Hi.
  rewrite lookup_total_replicate_2 by lia.
  rewrite lookup_empty. symmetry. apply bool_decide_eq_false_2.
  apply is_Some_None.
Qed.

Lemma flags_of_insert X flags idx :
  flags_of X flags -> 0 <= idx < Z.of_nat (length flags) ->
  flags_of (<[idx := tt]> X) (<[Z.to_nat idx := true]> flags).
Proof.
  intros HX Hidx i Hi. rewrite length_insert in Hi.
  destruct (decide (i = idx)) as [->|Hne].
  - rewrite list_lookup_total_insert_eq by lia.
    rewrite lookup_insert_eq. symmetry. apply bool_decide_eq_true_2. eauto.
  - rewrite list_lookup_total_insert_ne by lia.
    rewrite lookup_insert_ne by congruence. apply HX. exact Hi.
Qed.

Lemma getRandomIndex_replay r :
  rng_ok r ->
  exists r',
    getRandomIndex r = Ok (fst (replay_next (rotated r)) mod VALS_SIZE) r'
    /\ rng_ok r' /\ rotated r' = snd (replay_next (rotated r)).
Proof.
  intros Hr. destruct (replay_next_sim r Hr) as (r' & Hn & Hr' & Hrot).
  exists r'. split; [|auto]. unfold getRandomIndex.
  run Hn. reflexivity.
Qed.

Section ResampleReplay.
Variable proj : state -> list bool.
Variable s : state.
Variable X : gmap Z unit.
Hypothesis proj_length : length (proj s) = Z.to_nat VALS_SIZE.
Hypothesis proj_flags : flags_of X (proj s).

Lemma resample_replay fuel :
  forall idx r idx' l',
    rng_ok r -> 0 <= idx < VALS_SIZE ->
    replay_resample fuel idx (rotated r) X = Some (idx', l') ->
    exists r',
      while_loop fuel (fun p => arr_get proj (fst p))
        (fun p => on_local getRandomIndex (snd p)) (idx, r) s
      = Ok (idx', r') s
      /\ rng_ok r' /\ rotated r' = l'
      /\ 0 <= idx' < VALS_SIZE /\ proj s !!! Z.to_nat idx' = false.
Proof.
  pose proof proj_length as Hlen. pose proof proj_flags as HX.
  induction fuel as [|fuel IH]; intros idx r idx' l' Hr Hidx Hrun.
  - discriminate.
  - cbn [replay_resample] in Hrun.
    assert (Hget : arr_get proj (fst (idx, r)) s
                   = Ok (bool_decide (is_Some (X !! idx))) s).
    { cbn [fst]. rewrite arr_get_in_range by lia.
      rewrite HX by lia. reflexivity. }
    cbn [while_loop]. run Hget.
    destruct (bool_decide (is_Some (X !! idx))) eqn:Hmark.
    + destruct (getRandomIndex_replay r Hr) as (r1 & Hg & Hr1 & Hrot1).
      cbn [snd].
      rewrite (bind_Ok _ _ _ _ _ (on_local_Ok _ _ _ _ s Hg)).
      apply IH; [exact Hr1| |rewrite Hrot1; exact Hrun].
      apply Z.mod_pos_bound. exact VALS_SIZE_pos.
    + injection Hrun as <- <-. exists r. split; [reflexivity|].
      split; [exact Hr|]. split; [reflexivity|]. split; [exact Hidx|].
      rewrite HX by lia. exact Hmark.
Qed.

End ResampleReplay.

Lemma writer_iter_replay fuel i r s X st' :
  rng_ok r -> wf_state s -> flags_of X (wasWritten s) ->
  replay_iter true fuel (rotated r, X) = Some st' ->
  exists r' s',
    writer_iter fuel i r s = Ok r' s'
    /\ rng_ok r' /\ wf_state s'
    /\ rotated r' = fst st' /\ flags_of (snd st') (wasWritten s').
Proof.
  intros Hr Hwf HX Hrun. pose proof Hwf as (W1 & W2 & W3 & W4 & W5).
  unfold replay_iter in Hrun. cbn [fst snd] in Hrun.
  destruct (getRandomIndex_replay r Hr) as (r1 & Hg & Hr1 & Hrot1).
  rewrite <- Hrot1 in Hrun.
  destruct (replay_resample fuel _ (rotated r1) X) as [[idx l]|] eqn:Hres;
    [|discriminate].
  injection Hrun as <-.
  destruct (resample_replay wasWritten s X W5 HX fuel _ r1 idx l Hr1
              ltac:(apply Z.mod_pos_bound; exact VALS_SIZE_pos) Hres)
    as (r2 & Hwhile & Hr2 & Hrot2 & Hidx & Hfree).
  destruct (replay_next_sim r2 Hr2) as (r3 & Hn & Hr3 & Hrot3).
  assert (R0 : 0 <= idx < Z.of_nat (length (wasWritten s))) by lia.
  set (s1 := set_wasWritten (<[Z.to_nat idx := true]> (wasWritten s)) s).
  assert (R1 : 0 <= idx < Z.of_nat (length (vals s1))).
  { unfold s1. cbn [vals set_wasWritten]. lia. }
  eexists r3, _. split; [|split; [exact Hr3|split; [|split]]].
  - unfold writer_iter.
    rewrite (bind_Ok _ _ _ _ _ (on_local_Ok _ _ _ _ s Hg)).
    run Hwhile. cbn [fst snd].
    rewrite (bind_Ok _ _ _ _ _
               (arr_set_in_range wasWritten set_wasWritten idx true s R0)).
    fold s1.
    rewrite (bind_Ok _ _ _ _ _ (on_local_Ok _ _ _ _ s1 Hn)). cbn [fst snd].
    rewrite (bind_Ok _ _ _ _ _
               (arr_set_in_range vals set_vals idx _ s1 R1)).
    reflexivity.
  - unfold wf_state, s1. cbn. rewrite !length_insert. tauto.
  - cbn [fst]. rewrite Hrot3, Hrot2. reflexivity.
  - cbn [snd wasWritten set_vals s1 set_wasWritten].
    apply flags_of_insert; assumption.
Qed.

Lemma reader_iter_replay fuel i r s X st' :
  rng_ok r -> det_inv s -> flags_of X (wasRead s) ->
  replay_iter false fuel (rotated r, X) = Some st' ->
  exists r' s',
    reader_iter fuel i r s = Ok r' s'
    /\ rng_ok r' /\ det_inv s'
    /\ rotated r' = fst st' /\ flags_of (snd st') (wasRead s').
Proof.
  intros Hr Hinv HX Hrun. pose proof Hinv as [(W1 & W2 & W3 & W4 & W5) _].
  unfold replay_iter in Hrun. cbn [fst snd] in Hrun.
  destruct (getRandomIndex_replay r Hr) as (r1 & Hg & Hr1 & Hrot1).
  rewrite <- Hrot1 in Hrun.
  destruct (replay_resample fuel _ (rotated r1) X) as [[idx l]|] eqn:Hres;
    [|discriminate].
  injection Hrun as <-.
  destruct (resample_replay wasRead s X W4 HX fuel _ r1 idx l Hr1
              ltac:(apply Z.mod_pos_bound; exact VALS_SIZE_pos) Hres)
    as (r2 & Hwhile & Hr2 & Hrot2 & Hidx & Hfree).
  assert (R0 : 0 <= idx < Z.of_nat (length (wasRead s))) by lia.
  set (s1 := set_wasRead (<[Z.to_nat idx := true]> (wasRead s)) s).
  assert (R1 : 0 <= idx < Z.of_nat (length (vals s1))).
  { unfold s1. cbn [vals set_wasRead]. lia. }
  assert (Hacc : exists x, reader_access fuel r s
                           = Ok r2 (set_savedRead x s1)).
  { eexists. unfold reader_access.
    rewrite (bind_Ok _ _ _ _ _ (on_local_Ok _ _ _ _ s Hg)).
    run Hwhile. cbn [fst snd].
    rewrite (bind_Ok _ _ _ _ _
               (arr_set_in_range wasRead set_wasRead idx true s R0)).
    fold s1.
    rewrite (bind_Ok _ _ _ _ _ (arr_get_in_range vals idx s1 R1)).
    reflexivity. }
  destruct Hacc as (x & Hacc).
  assert (Hinv1 : det_inv (set_savedRead x s1))
    by (apply det_inv_set_read; exact Hinv).
  assert (HX1 : flags_of (<[idx := tt]> X) (wasRead (set_savedRead x s1))).
  { cbn [wasRead set_savedRead s1 set_wasRead].
    apply flags_of_insert; assumption. }
  unfold reader_iter. run Hacc.
  case_bool_decide.
  - destruct (wp_elim _ _ _
                (checkVals_upto_det_inv _ _ Hinv1 (Nat.le_refl _)))
      as ([] & s2 & Hcheck & Hinv2 & _ & Hwr & _).
    change (checkVals_upto (Z.to_nat CHECK_FIRST_VALS)) with checkVals
      in Hcheck.
    exists r2, s2. run Hcheck.
    split; [reflexivity|]. split; [exact Hr2|]. split; [exact Hinv2|].
    split; [exact Hrot2|]. rewrite Hwr. exact HX1.
  - exists r2, (set_savedRead x s1). split; [reflexivity|]. auto.
Qed.

Lemma writer_loop_replay fuel n :
  forall i r s X st',
    rng_ok r -> wf_state s -> flags_of X (wasWritten s) ->
    replay_loop n (replay_iter true fuel) (rotated r, X) = Some st' ->
    exists r' s', for_loop n i (writer_iter fuel) r s = Ok r' s'.
Proof.
  induction n as [|n IH]; intros i r s X st' Hr Hwf HX Hrun.
  - exists r, s. reflexivity.
  - cbn [replay_loop] in Hrun.
    destruct (replay_iter true fuel (rotated r, X)) as [[l1 X1]|] eqn:Hit;
      [|discriminate].
    destruct (writer_iter_replay fuel i r s X _ Hr Hwf HX Hit)
      as (r1 & s1 & Hiter & Hr1 & Hwf1 & Hrot1 & HX1).
    cbn [fst snd] in Hrot1, HX1. rewrite <- Hrot1 in Hrun.
    destruct (IH (i + 1) r1 s1 X1 st' Hr1 Hwf1 HX1 Hrun)
      as (r' & s' & Hloop).
    exists r', s'. rewrite for_loop_S, (bind_Ok _ _ _ _ _ Hiter).
    exact Hloop.
Qed.

Lemma reader_loop_replay fuel n :
  forall i r s X st',
    rng_ok r -> det_inv s -> flags_of X (wasRead s) ->
    replay_loop n (replay_iter false fuel) (rotated r, X) = Some st' ->
    exists r' s', for_loop n i (reader_iter fuel) r s = Ok r' s'.
Proof.
  induction n as [|n IH]; intros i r s X st' Hr Hinv HX Hrun.
  - exists r, s. reflexivity.
  - cbn [replay_loop] in Hrun.
    destruct (replay_iter false fuel (rotated r, X)) as [[l1 X1]|] eqn:Hit;
      [|discriminate].
    destruct (reader_iter_replay fuel i r s X _ Hr Hinv HX Hit)
      as (r1 & s1 & Hiter & Hr1 & Hinv1 & Hrot1 & HX1).
    cbn [fst snd] in Hrot1, HX1. rewrite <- Hrot1 in Hrun.
    destruct (IH (i + 1) r1 s1 X1 st' Hr1 Hinv1 HX1 Hrun)
      as (r' & s' & Hloop).
    exists r', s'. rewrite for_loop_S, (bind_Ok _ _ _ _ _ Hiter).
    exact Hloop.
Qed.

Lemma writer_loop_completes fuel n i r s X :
  rng_ok r -> wf_state s -> flags_of X (wasWritten s) ->
  completes (replay_loop n (replay_iter true fuel) (rotated r, X)) = true ->
  exists r' s', for_loop n i (writer_iter fuel) r s = Ok r' s'.
Proof.
  intros Hr Hwf HX Hrun.
  destruct (replay_loop n (replay_iter true fuel) (rotated r, X))
    as [st'|] eqn:Hreplay; [|discriminate].
  eapply writer_loop_replay; eassumption.
Qed.

Lemma reader_loop_completes fuel n i r s X :
  rng_ok r -> det_inv s -> flags_of X (wasRead s) ->
  completes (replay_loop n (replay_iter false fuel) (rotated r, X)) = true ->
  exists r' s', for_loop n i (reader_iter fuel) r s = Ok r' s'.
Proof.
  intros Hr Hinv HX Hrun.
  destruct (replay_loop n (replay_iter false fuel) (rotated r, X))
    as [st'|] eqn:Hreplay; [|discriminate].
  eapply reader_loop_replay; eassumption.
Qed.

(** If the replay of the writer's index selection completes, so does
    [doWrites], from any well-formed store. *)
Lemma doWrites_completes iter s :
  wf_state s -> completes (writer_replay iter) = true ->
  exists s', doWrites TRIAL_FUEL iter s = Ok tt s'.
Proof.
  intros Hwf Hrun.
  destruct (doWrites_prepare_loop s Hwf)
    as (s1 & Hloop & Hww & Hv & Hl & Hc & Hwr & _).
  destruct (new_MyRandom_replay
              (uint32 (WRITE_RANDOM_START_SEED + iter)) s1)
    as (rw & Hnew & Hrw & Hrot).
  assert (Hwf1 : wf_state s1).
  { destruct Hwf as (W1 & W2 & W3 & W4 & W5). unfold wf_state.
    rewrite Hww, Hv, Hl, Hc, Hwr, length_replicate. tauto. }
  assert (HX : flags_of ∅ (wasWritten s1))
    by (rewrite Hww; apply flags_of_empty).
  unfold writer_replay in Hrun. rewrite <- Hrot in Hrun.
  destruct (writer_loop_completes TRIAL_FUEL (Z.to_nat WRITER_ITERS) 0 rw s1
              ∅ Hrw Hwf1 HX Hrun) as (r' & s2 & Hact).
  destruct (fprintf_stderr_spec ("Writer has finished" +:+ newline) s2)
    as (s3 & Hp & _).
  assert (Hprep : doWrites_prepare iter s = Ok rw s1).
  { unfold doWrites_prepare. run Hloop. exact Hnew. }
  exists s3. unfold doWrites. run Hprep.
  unfold doWrites_act, writer_loop.
  run Hact. exact Hp.
Qed.

(** If the replay of the reader's index selection completes, so does
    [doReads], from any well-formed store that nobody writes to meanwhile. *)
Lemma doReads_completes iter s :
  wf_state s -> completes (reader_replay iter) = true ->
  exists s', doReads TRIAL_FUEL iter s = Ok tt s'.
Proof.
  intros Hwf Hrun.
  destruct (doReads_prepare_loop s Hwf)
    as (s1 & Hloop & Hv & Hwr & Hl & Hc & Hww & _).
  destruct (new_MyRandom_replay
              (uint32 (READ_RANDOM_START_SEED + iter)) (set_savedRead 0 s1))
    as (rr & Hnew & Hrr & Hrot).
  assert (Hinv1 : det_inv (set_savedRead 0 s1)).
  { apply det_inv_zero; [|exact Hc].
    destruct Hwf as (W1 & W2 & W3 & W4 & W5). unfold wf_state.
    cbn [vals lastValsScan changedTimes wasRead wasWritten set_savedRead].
    rewrite Hv, Hwr, Hl, Hc, Hww, !length_replicate. tauto. }
  assert (HX : flags_of ∅ (wasRead (set_savedRead 0 s1))).
  { cbn [wasRead set_savedRead]. rewrite Hwr. apply flags_of_empty. }
  unfold reader_replay in Hrun. rewrite <- Hrot in Hrun.
  destruct (reader_loop_completes TRIAL_FUEL (Z.to_nat READER_ITERS) 0 rr
              (set_savedRead 0 s1) ∅ Hrr Hinv1 HX Hrun)
    as (r' & s2 & Hact).
  destruct (fprintf_stderr_spec ("Reader has finished" +:+ newline) s2)
    as (s3 & Hp & _).
  assert (Hprep : doReads_prepare iter s = Ok rr (set_savedRead 0 s1)).
  { unfold doReads_prepare. run Hloop.
    unfold bind at 1, modify. exact Hnew. }
  exists s3. unfold doReads. run Hprep.
  unfold doReads_act, reader_loop.
  run Hact. exact Hp.
Qed.

(** A short run of each loop, evaluated through the replay: from a freshly
    filled generator the first outputs repeat, so the second iteration
    already has to reject and resample. *)
Lemma short_writer_run_completes : short_run true = true.
Proof. vm_compute. reflexivity. Qed.

Lemma short_reader_run_completes : short_run false = true.
Proof. vm_compute. reflexivity. Qed.

Lemma example_state_det_inv : det_inv example_state.
Proof. apply det_inv_zero; [exact example_state_wf|reflexivity]. Qed.

Lemma sampling_without_replacement_witness :
  (exists r3 s3,
     writer_loop TRIAL_FUEL 3 (seeded 5) example_state = Ok r3 s3
     /\ touched (wasWritten s3) = 3%nat) /\
  (exists r3 s3,
     reader_loop TRIAL_FUEL 3 (seeded 5) example_state = Ok r3 s3
     /\ touched (wasRead s3) = 3%nat).
Proof.
  destruct (sampling_without_replacement TRIAL_FUEL 0 example_state
              (seeded 5) 3 example_state_wf (seeded_ok 5))
    as (Hw & Hr & _).
  assert (HX : forall n, flags_of ∅ (replicate n false))
    by exact flags_of_empty.
  split.
  - destruct (writer_loop_completes TRIAL_FUEL 3 0 (seeded 5) example_state
                ∅ (seeded_ok 5) example_state_wf (HX _)
                short_writer_run_completes) as (r3 & s3 & Hrun).
    exists r3, s3. split; [exact Hrun|].
    destruct (Hw r3 s3 Hrun) as (Ht & _). rewrite Ht.
    unfold example_state. cbn [wasWritten].
    rewrite touched_replicate_false. reflexivity.
  - destruct (reader_loop_completes TRIAL_FUEL 3 0 (seeded 5) example_state
                ∅ (seeded_ok 5) example_state_det_inv (HX _)
                short_reader_run_completes) as (r3 & s3 & Hrun).
    exists r3, s3. split; [exact Hrun|].
    destruct (Hr r3 s3 Hrun) as (Ht & _). rewrite Ht.
    unfold example_state. cbn [wasRead].
    rewrite touched_replicate_false. reflexivity.
Defined.

(** * Further properties of the generator *)

(** Where the cursor goes. *)
Lemma nextInt_i2_mod r :
  index_ok r -> nextInt_i2 r = (m_index r + 1) mod MT_LEN.
Proof.
  unfold index_ok, nextInt_i2, MT_LEN. intros Hi. case_bool_decide.
  - replace (m_index r) with 623 by lia. reflexivity.
  - rewrite Z.mod_small by lia. reflexivity.
Qed.

Lemma cursor_step c k :
  ((c + k) mod MT_LEN + 1) mod MT_LEN = (c + (k + 1)) mod MT_LEN.
Proof.
  unfold MT_LEN. rewrite Z.add_mod_idemp_l by lia. f_equal. lia.
Qed.

Lemma nextInt_loop_cursor n i r :
  buffer_ok r -> index_ok r ->
  wp (for_loop n i (fun _ _ => bind nextInt (fun _ => ret tt)) tt)
     (fun _ r' => buffer_ok r' /\ index_ok r'
                  /\ m_index r' = (m_index r + Z.of_nat n) mod MT_LEN) r.
Proof.
  intros Hb Hi.
  eapply wp_mono;
    [|apply (wp_for_loop
               (fun k (_ : unit) r' =>
                  buffer_ok r' /\ index_ok r'
                  /\ m_index r' = (m_index r + (k - i)) mod MT_LEN))].
  - intros [] r' (Hb' & Hi' & Hc). repeat split; try assumption; try apply Hi'.
    rewrite Hc. f_equal. lia.
  - intros k [] r0 Hk (Hb0 & Hi0 & Hc). apply wp_bind. unfold wp at 1.
    rewrite nextInt_spec by assumption. unfold wp, ret.
    pose proof (wp_elim _ _ _ (nextInt_preserves r0 Hb0 Hi0))
      as (v & r1 & Hrun & Hb1 & Hi1).
    rewrite nextInt_spec in Hrun by assumption. injection Hrun as _ <-.
    split; [exact Hb1|]. split; [exact Hi1|]. cbn [m_index].
    rewrite nextInt_i2_mod by exact Hi0. rewrite Hc.
    replace (k + 1 - i) with (k - i + 1) by lia. apply cursor_step.
  - split; [exact Hb|]. split; [exact Hi|].
    replace (i - i) with 0 by lia. rewrite Z.add_0_r.
    unfold index_ok, MT_LEN in *. rewrite Z.mod_small by lia. reflexivity.
Qed.

Lemma draws_cursor n r :
  buffer_ok r -> index_ok r ->
  wp (draws n)
     (fun _ r' => m_index r' = (m_index r + Z.of_nat n) mod MT_LEN) r.
Proof.
  revert r. induction n as [|n IH]; intros r Hb Hi.
  - unfold wp. cbn. unfold index_ok, MT_LEN in *.
    rewrite Z.add_0_r, Z.mod_small by lia. reflexivity.
  - cbn [draws]. apply wp_bind.
    pose proof (wp_elim _ _ _ (nextInt_preserves r Hb Hi))
      as (v & r1 & Hrun & Hb1 & Hi1).
    apply (wp_intro _ _ _ _ _ Hrun). apply wp_bind.
    eapply wp_mono; [|apply (IH r1 Hb1 Hi1)].
    intros vs r' Hc. unfold wp, ret. rewrite Hc.
    rewrite nextInt_spec in Hrun by assumption. injection Hrun as _ <-.
    cbn [m_index]. rewrite nextInt_i2_mod by exact Hi.
    unfold MT_LEN. rewrite Z.add_mod_idemp_l by lia. f_equal. lia.
Qed.

(** X1. The cursor after initialisation and after [n] draws: [initMyRandom]
    leaves the cursor at 0 (its [MT_LEN * 100] warm-up calls are a whole
    number of turns of the buffer), and [n] calls of [nextInt] move the
    cursor [n] places forward around the buffer of [MT_LEN] words. *)
Theorem cursor_turns (seed : Z) (g r : MyRandom) (n : nat) :
  buffer_ok g -> buffer_ok r -> index_ok r ->
  (exists r0, initMyRandom seed g = Ok tt r0 /\ m_index r0 = 0) /\
  (exists vs r', draws n r = Ok vs r'
                 /\ m_index r' = (m_index r + Z.of_nat n) mod MT_LEN).
Proof.
  intros Hg Hb Hi. split.
  - rewrite (initMyRandom_seeded seed g Hg).
    destruct (seeded_ok seed) as [Hsb Hsi].
    pose proof (wp_elim _ _ _
                  (nextInt_loop_cursor (Z.to_nat (MT_LEN * 100)) 0
                     (seeded seed) Hsb Hsi))
      as ([] & r0 & Hrun & _ & _ & Hc).
    exists r0. split; [exact Hrun|]. rewrite Hc.
    rewrite Z2Nat.id by (unfold MT_LEN; lia). reflexivity.
  - pose proof (wp_elim _ _ _ (draws_cursor n r Hb Hi))
      as (vs & r' & Hrun & Hc).
    exists vs, r'. split; assumption.
Qed.

Lemma cursor_turns_witness :
  (exists r0, initMyRandom 65 indeterminate_MyRandom = Ok tt r0
              /\ m_index r0 = 0) /\
  (exists vs r', draws 3 (mkMyRandom (replicate (Z.to_nat 624) 5) 622)
                 = Ok vs r'
                 /\ m_index r' = 1).
Proof.
  apply (cursor_turns 65 indeterminate_MyRandom
           (mkMyRandom (replicate (Z.to_nat 624) 5) 622) 3).
  - reflexivity.
  - reflexivity.
  - unfold index_ok, MT_LEN. cbn [m_index]. lia.
Defined.

(** The values stay within 32 bits. *)
Lemma seeded_words seed : word seed -> words_ok (seeded seed).
Proof.
  intros Hw. unfold words_ok, seeded. cbn [m_buffer].
  apply Forall_replicate. exact Hw.
Qed.

Lemma nextInt_loop_words n i r :
  buffer_ok r -> index_ok r -> words_ok r ->
  wp (for_loop n i (fun _ _ => bind nextInt (fun _ => ret tt)) tt)
     (fun _ r' => buffer_ok r' /\ index_ok r' /\ words_ok r') r.
Proof.
  intros Hb Hi Hw.
  eapply wp_mono;
    [|apply (wp_for_loop
               (fun _ (_ : unit) r' =>
                  buffer_ok r' /\ index_ok r' /\ words_ok r'))].
  - intros [] r' H. exact H.
  - intros k [] r0 _ (Hb0 & Hi0 & Hw0). apply wp_bind.
    pose proof (wp_elim _ _ _ (nextInt_preserves r0 Hb0 Hi0))
      as (v & r1 & Hrun & Hb1 & Hi1).
    pose proof (wp_elim _ _ _ (nextInt_words r0 Hb0 Hi0 Hw0))
      as (v' & r1' & Hrun' & _ & Hw1).
    rewrite Hrun in Hrun'. injection Hrun' as _ <-.
    apply (wp_intro _ _ _ _ _ Hrun). unfold wp, ret. auto.
  - auto.
Qed.

Lemma draws_words n r :
  buffer_ok r -> index_ok r -> words_ok r ->
  wp (draws n) (fun vs r' => Forall word vs /\ words_ok r') r.
Proof.
  revert r. induction n as [|n IH]; intros r Hb Hi Hw.
  - unfold wp. cbn. auto.
  - cbn [draws]. apply wp_bind.
    pose proof (wp_elim _ _ _ (nextInt_preserves r Hb Hi))
      as (v & r1 & Hrun & Hb1 & Hi1).
    pose proof (wp_elim _ _ _ (nextInt_words r Hb Hi Hw))
      as (v' & r1' & Hrun' & Hv & Hw1).
    rewrite Hrun in Hrun'. injection Hrun' as <- <-.
    apply (wp_intro _ _ _ _ _ Hrun). apply wp_bind.
    eapply wp_mono; [|apply (IH r1 Hb1 Hi1 Hw1)].
    intros vs r' [Hvs Hw']. unfold wp, ret. split; [|exact Hw'].
    constructor; assumption.
Qed.

(** A generator initialised with an [unsigned int] seed holds 32-bit words
    only, and so it does after any number of draws; every value it returns
    is a 32-bit word.  (The embedding computes on unbounded integers, so
    this is where the shifts and the multiplication of [nextInt] are seen
    not to leave the type.) *)
Lemma generator_stays_in_32_bits (seed : Z) (g : MyRandom) (n : nat) :
  buffer_ok g -> word seed ->
  exists r0 vs r',
    initMyRandom seed g = Ok tt r0 /\ words_ok r0
    /\ draws n r0 = Ok vs r' /\ Forall word vs /\ words_ok r'.
Proof.
  intros Hg Hs. destruct (seeded_ok seed) as [Hsb Hsi].
  pose proof (wp_elim _ _ _
                (nextInt_loop_words (Z.to_nat (MT_LEN * 100)) 0
                   (seeded seed) Hsb Hsi (seeded_words seed Hs)))
    as ([] & r0 & Hrun & Hb0 & Hi0 & Hw0).
  pose proof (wp_elim _ _ _ (draws_words n r0 Hb0 Hi0 Hw0))
    as (vs & r' & Hd & Hvs & Hw').
  exists r0, vs, r'. rewrite (initMyRandom_seeded seed g Hg). auto.
Qed.

(** The all-zero buffer. *)
Lemma nextInt_zero r :
  m_buffer r = replicate (Z.to_nat MT_LEN) 0 -> index_ok r ->
  nextInt r = Ok 0 (mkMyRandom (replicate (Z.to_nat MT_LEN) 0) (nextInt_i2 r)).
Proof.
  intros Hz Hi.
  assert (Hb : buffer_ok r).
  { unfold buffer_ok. rewrite Hz. apply length_replicate. }
  rewrite nextInt_spec by assumption.
  pose proof (nextInt_positions r Hi) as (H1 & H2 & H3).
  assert (Hraw : nextInt_raw r = 0).
  { unfold nextInt_raw. rewrite Hz.
    rewrite !lookup_total_replicate_2 by lia. reflexivity. }
  rewrite Hraw, Hz, insert_replicate. reflexivity.
Qed.

Lemma nextInt_loop_zero n i r :
  m_buffer r = replicate (Z.to_nat MT_LEN) 0 -> index_ok r ->
  wp (for_loop n i (fun _ _ => bind nextInt (fun _ => ret tt)) tt)
     (fun _ r' => m_buffer r' = replicate (Z.to_nat MT_LEN) 0
                  /\ index_ok r') r.
Proof.
  intros Hz Hi.
  eapply wp_mono;
    [|apply (wp_for_loop
               (fun _ (_ : unit) r' =>
                  m_buffer r' = replicate (Z.to_nat MT_LEN) 0
                  /\ index_ok r'))].
  - intros [] r' H. exact H.
  - intros k [] r0 _ (Hz0 & Hi0). apply wp_bind. unfold wp at 1.
    rewrite nextInt_zero by assumption. unfold wp, ret.
    split; [reflexivity|]. unfold index_ok. cbn [m_index].
    apply (nextInt_positions r0 Hi0).
  - auto.
Qed.

Lemma draws_zero n r :
  m_buffer r = replicate (Z.to_nat MT_LEN) 0 -> index_ok r ->
  wp (draws n)
     (fun vs r' => vs = replicate n 0
                   /\ m_buffer r' = replicate (Z.to_nat MT_LEN) 0) r.
Proof.
  revert r. induction n as [|n IH]; intros r Hz Hi.
  - unfold wp. cbn. auto.
  - cbn [draws]. apply wp_bind.
    apply (wp_intro _ _ _ _ _ (nextInt_zero r Hz Hi)). apply wp_bind.
    eapply wp_mono; [|apply IH].
    + intros vs r' [-> Hz']. unfold wp, ret. auto.
    + reflexivity.
    + unfold index_ok. cbn [m_index]. apply (nextInt_positions r Hi).
Qed.

(** X2. Seed 0 is degenerate: [initMyRandom(0)] leaves a buffer of zeros,
    which [nextInt] maps to itself, so every value the generator returns is
    0.  The seeds the program uses, the three start seeds plus a trial
    number below [TEST_ITERS], are never 0. *)
Theorem zero_seed_yields_zeros (g : MyRandom) (n : nat) :
  buffer_ok g ->
  (exists r',
     generator_outputs 0 n g = Ok (replicate n 0) r'
     /\ m_buffer r' = replicate (Z.to_nat MT_LEN) 0) /\
  (forall iter, 0 <= iter < TEST_ITERS ->
     uint32 (MAIN_RANDOM_START_SEED + iter) <> 0
     /\ uint32 (READ_RANDOM_START_SEED + iter) <> 0
     /\ uint32 (WRITE_RANDOM_START_SEED + iter) <> 0).
Proof.
  intros Hg. split.
  - destruct (seeded_ok 0) as [_ Hsi].
    pose proof (wp_elim _ _ _
                  (nextInt_loop_zero (Z.to_nat (MT_LEN * 100)) 0 (seeded 0)
                     eq_refl Hsi))
      as ([] & r0 & Hrun & Hz0 & Hi0).
    pose proof (wp_elim _ _ _ (draws_zero n r0 Hz0 Hi0))
      as (vs & r' & Hd & -> & Hz').
    exists r'. split; [|exact Hz'].
    unfold generator_outputs.
    rewrite <- (initMyRandom_seeded 0 g Hg) in Hrun. run Hrun. exact Hd.
  - unfold TEST_ITERS, MAIN_RANDOM_START_SEED, READ_RANDOM_START_SEED,
      WRITE_RANDOM_START_SEED, uint32.
    intros iter Hiter. rewrite !Z.mod_small by lia. lia.
Qed.

Lemma zero_seed_yields_zeros_witness :
  exists r',
    generator_outputs 0 4 indeterminate_MyRandom = Ok [0; 0; 0; 0] r'
    /\ m_buffer r' = replicate (Z.to_nat MT_LEN) 0.
Proof.
  apply (zero_seed_yields_zeros indeterminate_MyRandom 4). reflexivity.
Defined.

(** The tempering steps lose nothing. *)
Lemma xor_shiftr_fixed d n : 0 <= d -> 0 < n -> d = Z.shiftr d n -> d = 0.
Proof.
  intros Hd Hn Heq. rewrite Z.shiftr_div_pow2 in Heq by lia.
  assert (Hp : 2 <= 2 ^ n).
  { change 2 with (2 ^ 1) at 1. apply Z.pow_le_mono_r; lia. }
  destruct (Z.eq_dec d 0) as [|Hne]; [assumption|].
  assert (Hlt : d / 2 ^ n < d) by (apply Z.div_lt; lia). lia.
Qed.

Lemma xor_shiftr_injective a b n :
  0 <= a -> 0 <= b -> 0 < n ->
  Z.lxor a (Z.shiftr a n) = Z.lxor b (Z.shiftr b n) -> a = b.
Proof.
  intros Ha Hb Hn Heq. apply Z.lxor_eq.
  apply (xor_shiftr_fixed _ n); [|exact Hn|].
  - apply Z.lxor_nonneg. tauto.
  - apply Z.lxor_eq. rewrite Z.shiftr_lxor.
    transitivity (Z.lxor (Z.lxor a (Z.shiftr a n)) (Z.lxor b (Z.shiftr b n))).
    + apply Z.bits_inj'. intros k Hk. rewrite !Z.lxor_spec.
      destruct (Z.testbit a k), (Z.testbit b k),
        (Z.testbit (Z.shiftr a n) k), (Z.testbit (Z.shiftr b n) k);
        reflexivity.
    + rewrite Heq. apply Z.lxor_nilpotent.
Qed.

Lemma xor_shiftl_bit a s m k :
  0 <= s -> 0 <= k ->
  Z.testbit (Z.lxor a (Z.land (uint32 (Z.shiftl a s)) m)) k
  = xorb (Z.testbit a k)
         (Z.testbit a (k - s) && bool_decide (k < 32) && Z.testbit m k).
Proof.
  intros Hs Hk. rewrite Z.lxor_spec, Z.land_spec. unfold uint32.
  f_equal. f_equal. case_bool_decide as Hlt.
  - rewrite Z.mod_pow2_bits_low by lia. rewrite Z.shiftl_spec by lia.
    rewrite andb_true_r. reflexivity.
  - rewrite Z.mod_pow2_bits_high by lia. rewrite andb_false_r. reflexivity.
Qed.

Lemma xor_shiftl_injective a b s m :
  0 < s ->
  Z.lxor a (Z.land (uint32 (Z.shiftl a s)) m)
  = Z.lxor b (Z.land (uint32 (Z.shiftl b s)) m) ->
  a = b.
Proof.
  intros Hs Heq. apply Z.bits_inj'.
  apply (Zlt_0_ind (fun k => Z.testbit a k = Z.testbit b k)).
  intros k IH Hk.
  assert (Hbit := f_equal (fun z => Z.testbit z k) Heq). cbv beta in Hbit.
  rewrite !xor_shiftl_bit in Hbit by lia.
  assert (Hlow : Z.testbit a (k - s) = Z.testbit b (k - s)).
  { destruct (Z.lt_ge_cases (k - s) 0) as [Hneg|Hpos].
    - rewrite !Z.testbit_neg_r by exact Hneg. reflexivity.
    - apply IH. lia. }
  rewrite Hlow in Hbit.
  destruct (Z.testbit a k), (Z.testbit b k),
    (Z.testbit b (k - s) && bool_decide (k < 32) && Z.testbit m k);
    cbn in Hbit; congruence.
Qed.

(** X3. Tempering is injective on 32-bit words: two different raw values are
    never tempered by [nextInt] to the same result. *)
Theorem swizzle_injective (a b : Z) :
  word a -> word b -> a <> b -> swizzle a <> swizzle b.
Proof.
  intros Ha Hb Hne Heq. apply Hne. unfold swizzle in Heq.
  assert (H1 : forall x, word x -> word (swizzle1 x)).
  { intros x Hx. apply word_lxor; [exact Hx|].
    apply word_shiftr; [exact Hx|lia]. }
  assert (H2 : forall x, word x -> word (swizzle2 x)).
  { intros x Hx. apply word_lxor; [exact Hx|].
    apply word_land; [apply word_uint32|]. unfold word. lia. }
  assert (H3 : forall x, word x -> word (swizzle3 x)).
  { intros x Hx. apply word_lxor; [exact Hx|].
    apply word_land; [apply word_uint32|]. unfold word. lia. }
  apply (xor_shiftr_injective _ _ 18) in Heq;
    [|apply H3, H2, H1, Ha|apply H3, H2, H1, Hb|lia].
  apply (xor_shiftl_injective _ _ 15) in Heq; [|lia].
  apply (xor_shiftl_injective _ _ 7) in Heq; [|lia].
  apply (xor_shiftr_injective _ _ 11) in Heq; [exact Heq|apply Ha|apply Hb|lia].
Qed.

Lemma swizzle_injective_witness : swizzle 1 <> swizzle 2.
Proof.
  apply (swizzle_injective 1 2).
  - unfold word. lia.
  - unfold word. lia.
  - lia.
Defined.

(** * Further properties of the detector *)

(** The two ways the loop of [checkVals] over the first [n] slots can end:
    it returns, having passed [n] slots none of which is alarming, or it
    has called [exit] at the first alarming slot. *)
Lemma checkVals_upto_cases n s :
  wf_state s -> (n <= Z.to_nat CHECK_FIRST_VALS)%nat ->
  (exists s',
     checkVals_upto n s = Ok tt s' /\ check_frame n s s'
     /\ (forall i, 0 <= i < Z.of_nat n -> ~ alarming s i)
     /\ forall k, (k < n)%nat ->
          lastValsScan s' !!! k = vals s !!! k
          /\ changedTimes s' !!! k = counted s k)
  \/ (exists i s_i,
        0 <= i < Z.of_nat n
        /\ checkVals_upto (Z.to_nat i) s = Ok tt s_i
        /\ check_frame (Z.to_nat i) s s_i
        /\ alarming s i
        /\ (forall j, 0 <= j < i -> ~ alarming s j)
        /\ checkVals_upto n s = Exited 0 (fired i s_i)).
Proof.
  intros Hwf. pose proof Hwf as (W1 & W2 & W3 & _).
  unfold CHECK_FIRST_VALS. induction n as [|n IH]; intros Hn.
  - left. exists s. split; [reflexivity|]. split; [apply check_frame_refl|].
    split; intros; lia.
  - destruct IH as [(s_n & Hrun & Hf & Hq & Hsync)
                   |(i & s_i & Hi & Hrun & Hf & Ha & Hfirst & Hex)]; [lia| |].
    + pose proof Hf as (Hv & _ & _ & _ & _ & Hll & Hlc & Hk).
      destruct (Hk n (Nat.le_refl _)) as [Hl Hc].
      apply lookup_total_eq in Hl, Hc.
      assert (Hstep : checkVals_upto (Datatypes.S n) s
                      = checkVals_slot (Z.of_nat n) s_n).
      { replace (Datatypes.S n) with (Z.to_nat (Z.of_nat n + 1)) by lia.
        apply checkVals_upto_succ; [lia|]. rewrite Nat2Z.id. exact Hrun. }
      rewrite checkVals_slot_spec in Hstep by (rewrite ?Hv, ?Hll, ?Hlc; lia).
      rewrite Nat2Z.id, Hv, Hl, Hc in Hstep.
      assert (Hcnt : counted s n
                     = if bool_decide (vals s !!! n <> lastValsScan s !!! n)
                       then int32 (changedTimes s !!! n + 1)
                       else changedTimes s !!! n) by reflexivity.
      destruct (bool_decide (vals s !!! n <> lastValsScan s !!! n)) eqn:Hne;
        [apply bool_decide_eq_true_1 in Hne
        |apply bool_decide_eq_false_1 in Hne];
        [destruct (bool_decide (int32 (changedTimes s !!! n + 1) > 1))
           eqn:Hgt;
         [apply bool_decide_eq_true_1 in Hgt
         |apply bool_decide_eq_false_1 in Hgt]|].
      * right. exists (Z.of_nat n), s_n. rewrite !Nat2Z.id.
        split; [lia|]. split; [exact Hrun|]. split; [exact Hf|].
        split; [|split; [|exact Hstep]].
        -- unfold alarming. rewrite Nat2Z.id. split; assumption.
        -- intros j Hj. apply Hq. lia.
      * left. exists (recorded (Z.of_nat n) s_n).
        split; [exact Hstep|].
        split; [apply check_frame_recorded; [exact Hf|lia]|].
        split.
        -- intros i Hi [Hne' Hgt'].
           destruct (Z.eq_dec i (Z.of_nat n)) as [->|Hin].
           ++ rewrite Nat2Z.id in Hgt'. contradiction.
           ++ apply (Hq i); [lia|]. split; assumption.
        -- intros k Hk'. unfold recorded.
           cbn [lastValsScan changedTimes]. rewrite Nat2Z.id.
           destruct (Nat.eq_dec k n) as [->|Hkn].
           ++ rewrite !list_lookup_total_insert_eq by lia.
              rewrite Hv, Hc, Hcnt. auto.
           ++ rewrite !list_lookup_total_insert_ne by lia.
              apply Hsync. lia.
      * left. exists s_n. split; [exact Hstep|].
        split; [apply check_frame_weaken; exact Hf|]. split.
        -- intros i Hi [Hne' Hgt'].
           destruct (Z.eq_dec i (Z.of_nat n)) as [->|Hin].
           ++ rewrite Nat2Z.id in Hne'. contradiction.
           ++ apply (Hq i); [lia|]. split; assumption.
        -- intros k Hk'. destruct (Nat.eq_dec k n) as [->|Hkn].
           ++ rewrite Hl, Hc, Hcnt. split; [|reflexivity].
              destruct (decide (vals s !!! n = lastValsScan s !!! n));
                [congruence|contradiction].
           ++ apply Hsync. lia.
    + right. exists i, s_i. split; [lia|]. split; [exact Hrun|].
      split; [exact Hf|]. split; [exact Ha|]. split; [exact Hfirst|].
      unfold checkVals_upto in *. rewrite for_loop_snoc. unfold bind.
      rewrite Hex. reflexivity.
Qed.

Lemma checkVals_cases s :
  wf_state s ->
  (exists s',
     checkVals s = Ok tt s'
     /\ check_frame (Z.to_nat CHECK_FIRST_VALS) s s'
     /\ (forall i, 0 <= i < CHECK_FIRST_VALS -> ~ alarming s i)
     /\ forall k, (k < Z.to_nat CHECK_FIRST_VALS)%nat ->
          lastValsScan s' !!! k = vals s !!! k
          /\ changedTimes s' !!! k = counted s k)
  \/ (exists i s_i,
        0 <= i < CHECK_FIRST_VALS
        /\ check_frame (Z.to_nat i) s s_i
        /\ alarming s i
        /\ checkVals s = Exited 0 (fired i s_i)).
Proof.
  intros Hwf.
  destruct (checkVals_upto_cases (Z.to_nat CHECK_FIRST_VALS) s Hwf
              (Nat.le_refl _))
    as [(s' & Hrun & Hf & Hq & Hsync)|(i & s_i & Hi & _ & Hf & Ha & _ & Hex)].
  - left. exists s'. split; [exact Hrun|]. split; [exact Hf|].
    split; [|exact Hsync]. intros i Hi. apply Hq.
    rewrite Z2Nat.id by (unfold CHECK_FIRST_VALS, VALS_SIZE; lia). exact Hi.
  - right. exists i, s_i.
    rewrite Z2Nat.id in Hi by (unfold CHECK_FIRST_VALS, VALS_SIZE; lia).
    auto.
Qed.

(** X4. When [checkVals] fires.  On a well-formed store [checkVals] either
    returns or exits with code 0, and it exits exactly when some slot is
    alarming: its value differs from the snapshot and its change counter,
    once incremented, exceeds 1.  Changes in any number of slots that had
    not changed before are recorded without an exit. *)
Theorem checkVals_fires_iff (s : state) :
  wf_state s ->
  ((exists s', checkVals s = Ok tt s')
   <-> forall i, 0 <= i < CHECK_FIRST_VALS -> ~ alarming s i) /\
  ((exists s', checkVals s = Exited 0 s')
   <-> exists i, 0 <= i < CHECK_FIRST_VALS /\ alarming s i) /\
  (forall o, checkVals s = o ->
             (exists s', o = Ok tt s') \/ (exists s', o = Exited 0 s')).
Proof.
  intros Hwf.
  destruct (checkVals_cases s Hwf)
    as [(s' & Hrun & _ & Hq & _)|(i & s_i & Hi & _ & Ha & Hex)].
  - split; [|split].
    + split; [intros _; exact Hq|intros _; exists s'; exact Hrun].
    + split.
      * intros (s2 & Hrun2). rewrite Hrun in Hrun2. discriminate.
      * intros (i & Hi & Ha). destruct (Hq i Hi Ha).
    + intros o <-. left. exists s'. exact Hrun.
  - split; [|split].
    + split.
      * intros (s2 & Hrun2). rewrite Hex in Hrun2. discriminate.
      * intros Hq. destruct (Hq i Hi Ha).
    + split; [intros _; exists i; auto|intros _; eexists; exact Hex].
    + intros o <-. right. eexists. exact Hex.
Qed.

Lemma checkVals_fires_iff_witness :
  ((exists s', checkVals example_state = Ok tt s')
   <-> forall i, 0 <= i < CHECK_FIRST_VALS -> ~ alarming example_state i) /\
  ((exists s', checkVals example_state = Exited 0 s')
   <-> exists i, 0 <= i < CHECK_FIRST_VALS /\ alarming example_state i) /\
  (forall o, checkVals example_state = o ->
             (exists s', o = Ok tt s') \/ (exists s', o = Exited 0 s')).
Proof.
  apply (checkVals_fires_iff example_state).
  unfold wf_state, example_state. cbn [vals lastValsScan changedTimes wasRead
    wasWritten]. rewrite length_insert, !length_replicate. tauto.
Defined.

(** X5. What [checkVals] never touches.  Whether it returns or exits, the
    shared array, both touched-flag arrays and [savedRead] are as they
    were; [stderr] is unchanged when it returns and has gained exactly the
    line "UB was caught!" when it exits. *)
Theorem checkVals_frame (s : state) :
  wf_state s ->
  match checkVals s with
  | Ok _ s' =>
      vals s' = vals s /\ wasRead s' = wasRead s
      /\ wasWritten s' = wasWritten s /\ savedRead s' = savedRead s
      /\ stderr s' = stderr s
  | Exited c s' =>
      c = 0 /\ vals s' = vals s /\ wasRead s' = wasRead s
      /\ wasWritten s' = wasWritten s /\ savedRead s' = savedRead s
      /\ stderr s' = stderr s ++ [UB_message]
  | Fault => False
  | NoFuel => False
  end.
Proof.
  intros Hwf.
  destruct (checkVals_cases s Hwf)
    as [(s' & Hrun & Hf & _)|(i & s_i & _ & Hf & _ & Hex)].
  - rewrite Hrun. destruct Hf as (Hv & Hr & Hw & Hs & He & _).
    repeat split; assumption.
  - rewrite Hex. destruct Hf as (Hv & Hr & Hw & Hs & He & _).
    unfold fired. cbn [vals wasRead wasWritten savedRead stderr].
    rewrite He. repeat split; assumption.
Qed.

Lemma checkVals_frame_witness :
  match checkVals stale_state with
  | Ok _ s' =>
      vals s' = vals stale_state /\ wasRead s' = wasRead stale_state
      /\ wasWritten s' = wasWritten stale_state
      /\ savedRead s' = savedRead stale_state
      /\ stderr s' = stderr stale_state
  | Exited c s' =>
      c = 0 /\ vals s' = vals stale_state /\ wasRead s' = wasRead stale_state
      /\ wasWritten s' = wasWritten stale_state
      /\ savedRead s' = savedRead stale_state
      /\ stderr s' = stderr stale_state ++ [UB_message]
  | Fault => False
  | NoFuel => False
  end.
Proof.
  apply (checkVals_frame stale_state).
  unfold wf_state, stale_state. cbn [vals lastValsScan changedTimes wasRead
    wasWritten]. rewrite !length_insert, !length_replicate. tauto.
Defined.

Lemma list_eq_total {A} `{Inhabited A} (l1 l2 : list A) :
  length l1 = length l2 ->
  (forall k, (k < length l1)%nat -> l1 !!! k = l2 !!! k) -> l1 = l2.
Proof.
  intros Hlen Heq. apply list_eq. intros k.
  destruct (Nat.lt_ge_cases k (length l1)) as [Hlt|Hge].
  - rewrite !list_lookup_lookup_total_lt by lia. f_equal. apply Heq. exact Hlt.
  - rewrite !lookup_ge_None_2 by lia. reflexivity.
Qed.

(** X6. A returning [checkVals] brings the snapshot up to date and counts one
    change for every slot that differed; run again on the store it leaves,
    it returns without changing anything. *)
Theorem checkVals_catches_up (s s' : state) :
  wf_state s -> checkVals s = Ok tt s' ->
  lastValsScan s' = vals s' /\
  (forall k, (k < Z.to_nat VALS_SIZE)%nat ->
             changedTimes s' !!! k = counted s k) /\
  checkVals s' = Ok tt s'.
Proof.
  intros Hwf Hrun. pose proof Hwf as (W1 & W2 & W3 & W4 & W5).
  destruct (checkVals_cases s Hwf)
    as [(s2 & Hrun2 & Hf & _ & Hsync)|(i & s_i & _ & _ & _ & Hex)];
    [|rewrite Hex in Hrun; discriminate].
  rewrite Hrun in Hrun2. injection Hrun2 as <-.
  pose proof Hf as (Hv & _ & _ & _ & _ & Hll & Hlc & _).
  assert (Hsnap : lastValsScan s' = vals s').
  { apply list_eq_total; [rewrite Hll, Hv; lia|].
    intros k Hk. rewrite Hv. apply Hsync.
    unfold CHECK_FIRST_VALS. lia. }
  split; [exact Hsnap|]. split.
  - intros k Hk. apply Hsync. exact Hk.
  - unfold checkVals, checkVals_upto, CHECK_FIRST_VALS.
    apply checkVals_no_change; rewrite ?Hv, ?Hll, ?Hlc; try lia.
    intros k Hk. rewrite Hsnap, Hv. reflexivity.
Qed.

Lemma checkVals_catches_up_witness :
  lastValsScan (recorded 3 example_state)
  = vals (recorded 3 example_state) /\
  (forall k, (k < Z.to_nat VALS_SIZE)%nat ->
             changedTimes (recorded 3 example_state) !!! k
             = counted example_state k) /\
  checkVals (recorded 3 example_state) = Ok tt (recorded 3 example_state).
Proof.
  assert (Hwf : wf_state example_state).
  { unfold wf_state, example_state. cbn [vals lastValsScan changedTimes
      wasRead wasWritten]. rewrite length_insert, !length_replicate. tauto. }
  apply (checkVals_catches_up example_state (recorded 3 example_state) Hwf).
  rewrite (checkVals_single_change 3 example_state Hwf).
  - reflexivity.
  - unfold CHECK_FIRST_VALS, VALS_SIZE. lia.
  - intros k Hk Hne. unfold example_state. cbn [vals lastValsScan].
    rewrite list_lookup_total_insert_ne by lia. reflexivity.
  - unfold example_state. cbn [vals lastValsScan].
    rewrite list_lookup_total_insert_eq
      by (rewrite length_replicate; unfold VALS_SIZE; lia).
    rewrite lookup_total_replicate_2 by (unfold VALS_SIZE; lia). discriminate.
Defined.

(** * Further properties of the workers *)

(** The reject-and-resample loop when every index is marked. *)
Section Exhausted.
Variable proj : state -> list bool.
Variable s : state.
Hypothesis proj_length : length (proj s) = Z.to_nat VALS_SIZE.
Hypothesis all_marked :
  forall k, (k < Z.to_nat VALS_SIZE)%nat -> proj s !!! k = true.

Lemma resample_exhausted fuel p :
  0 <= fst p < VALS_SIZE -> rng_ok (snd p) ->
  while_loop fuel
    (fun p => arr_get proj (fst p))
    (fun p => on_local getRandomIndex (snd p)) p s = NoFuel.
Proof.
  revert p. induction fuel as [|fuel IH]; intros p Hidx Hr; [reflexivity|].
  cbn [while_loop].
  assert (R0 : 0 <= fst p < Z.of_nat (length (proj s))) by lia.
  rewrite (bind_Ok _ _ _ _ _ (arr_get_in_range proj (fst p) s R0)).
  rewrite all_marked by lia.
  destruct (wp_elim _ _ _
              (wp_on_local getRandomIndex (snd p) _ s
                 (getRandomIndex_ok (snd p) Hr)))
    as (p' & s' & Hdraw & -> & Hidx' & Hr').
  run Hdraw. apply IH; assumption.
Qed.

End Exhausted.

(** X7. Resampling needs a free index.  Once every flag of [wasWritten] is set,
    an iteration of the writer's loop cannot complete: its [while] loop
    rejects every index it draws, however long it runs.  The same holds
    for the reader and [wasRead]. *)
Theorem resampling_needs_a_free_index (fuel : nat) (i : Z) (r : MyRandom)
    (s : state) :
  wf_state s -> rng_ok r ->
  ((forall k, (k < Z.to_nat VALS_SIZE)%nat -> wasWritten s !!! k = true) ->
   writer_iter fuel i r s = NoFuel) /\
  ((forall k, (k < Z.to_nat VALS_SIZE)%nat -> wasRead s !!! k = true) ->
   reader_iter fuel i r s = NoFuel).
Proof.
  intros (W1 & W2 & W3 & W4 & W5) Hr.
  destruct (wp_elim _ _ _
              (wp_on_local getRandomIndex r _ s (getRandomIndex_ok r Hr)))
    as (p & s' & Hdraw & -> & Hidx & Hr').
  split; intros Hall.
  - unfold writer_iter. run Hdraw. unfold bind at 1.
    rewrite (resample_exhausted wasWritten s W5 Hall fuel p Hidx Hr').
    reflexivity.
  - unfold reader_iter, reader_access. unfold bind at 1. run Hdraw.
    unfold bind at 1.
    rewrite (resample_exhausted wasRead s W4 Hall fuel p Hidx Hr').
    reflexivity.
Qed.

Lemma exhausted_state_wf : wf_state exhausted_state.
Proof.
  unfold wf_state, exhausted_state. cbn [vals lastValsScan changedTimes
    wasRead wasWritten]. rewrite !length_replicate. tauto.
Qed.

Lemma resampling_needs_a_free_index_witness :
  writer_iter 1000 0 (seeded 5) exhausted_state = NoFuel
  /\ reader_iter 1000 0 (seeded 5) exhausted_state = NoFuel.
Proof.
  destruct (resampling_needs_a_free_index 1000 0 (seeded 5) exhausted_state
              exhausted_state_wf (seeded_ok 5)) as [Hw Hr].
  split.
  - apply Hw. intros k Hk. unfold exhausted_state. cbn [wasWritten].
    apply lookup_total_replicate_2. exact Hk.
  - apply Hr. intros k Hk. unfold exhausted_state. cbn [wasRead].
    apply lookup_total_replicate_2. exact Hk.
Defined.

(** ** The writer *)

Lemma written_once_refl s : written_once s s.
Proof. intros k. split; auto. Qed.

Lemma written_once_step s s' idx v :
  written_once s s' ->
  wasWritten s' !! Z.to_nat idx = Some false ->
  written_once s
    (set_vals (<[Z.to_nat idx := v]> (vals s'))
       (set_wasWritten (<[Z.to_nat idx := true]> (wasWritten s')) s')).
Proof.
  intros Hw Hfree k. cbn [vals wasWritten set_vals set_wasWritten].
  destruct (Hw k) as [Hkeep Hfresh].
  destruct (decide (k = Z.to_nat idx)) as [->|Hne].
  - split.
    + intros Hset. destruct (Hkeep Hset) as [Hset' _]. congruence.
    + intros Hclear. apply lookup_lt_Some in Hfree.
      rewrite list_lookup_insert_eq in Hclear by exact Hfree. discriminate.
  - rewrite !list_lookup_insert_ne by congruence. split; assumption.
Qed.

Lemma writer_iterations_once X fuel n lo rw s :
  wf_state s -> rng_ok rw ->
  wlp X (for_loop n lo (writer_iter fuel) rw)
      (fun rw' s' => rng_ok rw' /\ wf_state s' /\ written_once s s') s.
Proof.
  intros Hwf Hr.
  eapply wlp_mono;
    [|apply (wlp_for_loop X
               (fun _ rw' s' =>
                  rng_ok rw' /\ wf_state s' /\ written_once s s'))].
  - intros rw' s' H. exact H.
  - intros k rw0 s0 _ (Hr0 & Hwf0 & Hw0).
    eapply wlp_mono; [|apply writer_iter_spec; assumption].
    intros rw1 s1 (Hr1 & idx & v & Hidx & Hfree & ->).
    split; [exact Hr1|]. split; [apply wf_state_set_written; exact Hwf0|].
    apply written_once_step; assumption.
  - split; [exact Hr|]. split; [exact Hwf|]. apply written_once_refl.
Qed.

(** X8. The writer stores to each index at most once.  Take the store after
    [n] iterations of the writer's loop and the store after [m] more: an
    index marked in the first is still marked and holds the same value in
    the second, and an index not marked in the second holds the value it
    had when the loop started. *)
Theorem writer_stores_once (fuel : nat) (n m : nat) (rw r_n r_m : MyRandom)
    (s s_n s_m : state) :
  wf_state s -> rng_ok rw ->
  writer_loop fuel n rw s = Ok r_n s_n ->
  writer_loop fuel (n + m) rw s = Ok r_m s_m ->
  written_once s_n s_m /\ written_once s s_m.
Proof.
  intros Hwf Hr Hn Hm. split.
  - unfold writer_loop in *. rewrite for_loop_app in Hm.
    rewrite (bind_Ok _ _ _ _ _ Hn) in Hm.
    pose proof (wlp_Ok _ _ _ _ _ _
                  (writer_iterations_once no_exit fuel n 0 rw s Hwf Hr) Hn)
      as (Hr_n & Hwf_n & _).
    exact (proj2 (proj2 (wlp_Ok _ _ _ _ _ _
                           (writer_iterations_once no_exit fuel m _ r_n s_n
                              Hwf_n Hr_n) Hm))).
  - exact (proj2 (proj2 (wlp_Ok _ _ _ _ _ _
                           (writer_iterations_once no_exit fuel (n + m) 0 rw s
                              Hwf Hr) Hm))).
Qed.

Lemma writer_stores_once_witness :
  exists r1 s1 r3 s3,
    writer_loop TRIAL_FUEL 1 (seeded 5) example_state = Ok r1 s1
    /\ writer_loop TRIAL_FUEL (1 + 2) (seeded 5) example_state = Ok r3 s3
    /\ written_once s1 s3 /\ written_once example_state s3.
Proof.
  assert (HX : flags_of ∅ (wasWritten example_state))
    by exact (flags_of_empty _).
  destruct (writer_loop_completes TRIAL_FUEL 3 0 (seeded 5) example_state
              ∅ (seeded_ok 5) example_state_wf HX
              short_writer_run_completes) as (r3 & s3 & Hrun3).
  pose proof Hrun3 as Hsplit.
  change 3%nat with (1 + 2)%nat in Hsplit. rewrite for_loop_app in Hsplit.
  apply bind_Ok_inv in Hsplit. destruct Hsplit as (r1 & s1 & Hrun1 & _).
  exists r1, s1, r3, s3. split; [exact Hrun1|]. split; [exact Hrun3|].
  exact (writer_stores_once TRIAL_FUEL 1 2 (seeded 5) r1 r3 example_state
           s1 s3 example_state_wf (seeded_ok 5) Hrun1 Hrun3).
Defined.

(** X9. What [doWrites] never touches.  [doWrites] does not call [exit]; when
    it returns, the snapshot, the change counters, the reader's flags and
    [savedRead] are as they were, the shared array has kept its length,
    and [stderr] has gained the line "Writer has finished" and nothing
    else. *)
Theorem doWrites_frame (fuel : nat) (iter : Z) (s : state) :
  wf_state s ->
  match doWrites fuel iter s with
  | Ok _ s' =>
      lastValsScan s' = lastValsScan s /\ changedTimes s' = changedTimes s
      /\ wasRead s' = wasRead s /\ savedRead s' = savedRead s
      /\ length (vals s') = length (vals s)
      /\ stderr s'
         = stderr s ++ [("Writer has finished" +:+ newline)%string]
  | Exited _ _ => False
  | Fault => False
  | NoFuel => True
  end.
Proof.
  intros Hwf.
  destruct (doWrites_prepare_spec iter s Hwf)
    as (rw & s0 & Hprep & Hrw & Hww & Hv & Hl & Hc & Hwr & Hsr & He).
  assert (Hwf0 : wf_state s0).
  { destruct Hwf as (W1 & W2 & W3 & W4 & W5). unfold wf_state.
    rewrite Hww, Hv, Hl, Hc, Hwr, length_replicate. tauto. }
  unfold doWrites. run Hprep. unfold doWrites_act.
  pose proof (writer_loop_spec no_exit fuel (Z.to_nat WRITER_ITERS) rw s0
                Hwf0 Hrw) as Hloop.
  unfold wlp in Hloop. unfold bind at 1.
  destruct (writer_loop fuel (Z.to_nat WRITER_ITERS) rw s0)
    as [rw' s1|c s1| |]; try exact Hloop.
  destruct Hloop as (_ & Hwf1 & _ & Hl1 & Hc1 & Hwr1 & Hsr1 & He1).
  destruct (fprintf_stderr_spec ("Writer has finished" +:+ newline) s1)
    as (s2 & Hp & Hv2 & Hl2 & Hc2 & Hwr2 & _ & Hsr2 & He2).
  rewrite Hp, Hl2, Hc2, Hwr2, Hsr2, He2, Hv2, Hl1, Hc1, Hwr1, Hsr1, He1.
  rewrite Hl, Hc, Hwr, Hsr, He.
  destruct Hwf as (W1 & _). destruct Hwf1 as (W1' & _).
  rewrite W1, W1'. repeat split; reflexivity.
Qed.

Lemma doWrites_frame_witness :
  match doWrites 100 0 example_state with
  | Ok _ s' =>
      lastValsScan s' = lastValsScan example_state
      /\ changedTimes s' = changedTimes example_state
      /\ wasRead s' = wasRead example_state
      /\ savedRead s' = savedRead example_state
      /\ length (vals s') = length (vals example_state)
      /\ stderr s'
         = stderr example_state
           ++ [("Writer has finished" +:+ newline)%string]
  | Exited _ _ => False
  | Fault => False
  | NoFuel => True
  end.
Proof. exact (doWrites_frame 100 0 example_state example_state_wf). Defined.

(** ** The reader *)

Lemma checkVals_reader_exit s0 s :
  wf_state s ->
  vals s = vals s0 -> wasWritten s = wasWritten s0 -> stderr s = stderr s0 ->
  wlp (reader_exit s0) checkVals
      (fun _ s' => wf_state s' /\ vals s' = vals s0
                   /\ wasWritten s' = wasWritten s0
                   /\ stderr s' = stderr s0) s.
Proof.
  intros Hwf Hv Hw He. unfold wlp.
  destruct (checkVals_cases s Hwf)
    as [(s' & Hrun & Hf & _)|(i & s_i & _ & Hf & _ & Hex)].
  - rewrite Hrun. split; [eapply check_frame_wf; eassumption|].
    destruct Hf as (Hv' & _ & Hw' & _ & He' & _).
    rewrite Hv', Hw', He'. auto.
  - rewrite Hex. destruct Hf as (Hv' & _ & Hw' & _ & He' & _).
    unfold reader_exit, fired. cbn [vals wasWritten stderr].
    rewrite Hv', Hw', He', He. auto.
Qed.

Lemma reader_iter_reader_exit s0 fuel i rr s :
  wf_state s -> rng_ok rr ->
  vals s = vals s0 -> wasWritten s = wasWritten s0 -> stderr s = stderr s0 ->
  wlp (reader_exit s0) (reader_iter fuel i rr)
      (fun rr' s' => rng_ok rr' /\ wf_state s' /\ vals s' = vals s0
                     /\ wasWritten s' = wasWritten s0
                     /\ stderr s' = stderr s0) s.
Proof.
  intros Hwf Hr Hv Hw He. unfold reader_iter. apply wlp_bind.
  eapply wlp_mono; [|apply reader_access_spec; [exact Hwf|exact Hr]].
  intros rr1 s1 (Hr1 & idx & Hidx & Hfree & ->). apply wlp_bind.
  set (s1 := set_savedRead _ _).
  assert (Hwf1 : wf_state s1) by (apply wf_state_set_read; exact Hwf).
  case_bool_decide.
  - eapply wlp_mono;
      [|apply (checkVals_reader_exit s0 s1 Hwf1); assumption].
    intros [] s2 (Hwf2 & Hv2 & Hw2 & He2). apply wlp_ret. auto.
  - apply wlp_ret. apply wlp_ret. auto.
Qed.

(** X10. The reader's loop only reads the shared array.  Whether it returns or
    is ended by the detector, [vals] and the writer's flags are as they
    were when the loop started; it writes to [stderr] only when the
    detector fires (the line "UB was caught!", with exit code 0). *)
Theorem reader_only_reads (fuel : nat) (n : nat) (rr : MyRandom)
    (s : state) :
  wf_state s -> rng_ok rr ->
  match reader_loop fuel n rr s with
  | Ok _ s' =>
      vals s' = vals s /\ wasWritten s' = wasWritten s
      /\ stderr s' = stderr s
  | Exited c s' =>
      c = 0 /\ vals s' = vals s /\ wasWritten s' = wasWritten s
      /\ stderr s' = stderr s ++ [UB_message]
  | Fault => False
  | NoFuel => True
  end.
Proof.
  intros Hwf Hr.
  assert (Hloop :
    wlp (reader_exit s) (reader_loop fuel n rr)
        (fun rr' s' => rng_ok rr' /\ wf_state s' /\ vals s' = vals s
                       /\ wasWritten s' = wasWritten s
                       /\ stderr s' = stderr s) s).
  { unfold reader_loop.
    eapply wlp_mono;
      [|apply (wlp_for_loop (reader_exit s)
                 (fun _ rr' s' =>
                    rng_ok rr' /\ wf_state s' /\ vals s' = vals s
                    /\ wasWritten s' = wasWritten s
                    /\ stderr s' = stderr s))].
    - intros rr' s' H. exact H.
    - intros k rr0 s0 _ (Hr0 & Hwf0 & Hv0 & Hw0 & He0).
      apply reader_iter_reader_exit; assumption.
    - auto. }
  unfold wlp in Hloop.
  destruct (reader_loop fuel n rr s) as [rr' s'|c s'| |].
  - tauto.
  - exact Hloop.
  - exact Hloop.
  - exact Logic.I.
Qed.

Lemma reader_only_reads_witness :
  match reader_loop 100 7 (seeded 5) stale_state with
  | Ok _ s' =>
      vals s' = vals stale_state /\ wasWritten s' = wasWritten stale_state
      /\ stderr s' = stderr stale_state
  | Exited c s' =>
      c = 0 /\ vals s' = vals stale_state
      /\ wasWritten s' = wasWritten stale_state
      /\ stderr s' = stderr stale_state ++ [UB_message]
  | Fault => False
  | NoFuel => True
  end.
Proof.
  exact (reader_only_reads 100 7 (seeded 5) stale_state stale_state_wf
           (seeded_ok 5)).
Defined.

(** * Interleaved runs *)

Lemma race_inv_writer_iter s idx v :
  race_inv s -> 0 <= idx < VALS_SIZE ->
  wasWritten s !! Z.to_nat idx = Some false ->
  race_inv (set_vals (<[Z.to_nat idx := v]> (vals s))
              (set_wasWritten (<[Z.to_nat idx := true]> (wasWritten s)) s)).
Proof.
  intros [Hwf Hinv] Hidx Hfree. split; [apply wf_state_set_written, Hwf|].
  destruct Hwf as (W1 & W2 & W3 & W4 & W5).
  intros k Hk. cbn [vals lastValsScan changedTimes wasWritten set_vals
                    set_wasWritten].
  destruct (Hinv k Hk) as (H01 & Hone & Hclear).
  destruct (decide (k = Z.to_nat idx)) as [->|Hne].
  - apply list_lookup_total_correct in Hfree.
    rewrite !list_lookup_total_insert_eq by lia.
    split; [|split].
    + destruct H01 as [Hz|Ho]; [left; exact Hz|].
      destruct (Hone Ho) as [_ Hset]. congruence.
    + intros Ho. destruct (Hone Ho) as [_ Hset]. congruence.
    + discriminate.
  - rewrite !list_lookup_total_insert_ne by congruence. auto.
Qed.

Lemma race_inv_reader_access s idx x :
  race_inv s ->
  race_inv (set_savedRead x
              (set_wasRead (<[Z.to_nat idx := true]> (wasRead s)) s)).
Proof.
  intros [Hwf Hinv]. split; [apply wf_state_set_read; exact Hwf|].
  exact Hinv.
Qed.

Lemma race_inv_checkVals_slot i s :
  race_inv s -> 0 <= i < CHECK_FIRST_VALS ->
  wp (checkVals_slot i) (fun _ s' => race_inv s') s.
Proof.
  intros [Hwf Hinv] Hi. pose proof Hwf as (W1 & W2 & W3 & W4 & W5).
  unfold CHECK_FIRST_VALS in Hi. unfold wp.
  rewrite checkVals_slot_spec by lia.
  destruct (Hinv (Z.to_nat i) ltac:(lia)) as (H01 & Hone & Hclear).
  case_bool_decide as Hne; [|split; assumption].
  assert (Hzero : changedTimes s !!! Z.to_nat i = 0).
  { destruct H01 as [Hz|Ho]; [exact Hz|].
    destruct (Hone Ho) as [Heq _]. congruence. }
  assert (Hset : wasWritten s !!! Z.to_nat i = true).
  { destruct (wasWritten s !!! Z.to_nat i) eqn:Hb; [reflexivity|].
    specialize (Hclear eq_refl). congruence. }
  rewrite Hzero. rewrite bool_decide_eq_false_2 by (vm_compute; congruence).
  split.
  - unfold wf_state, recorded. cbn. rewrite !length_insert. tauto.
  - intros k Hk. unfold recorded.
    cbn [vals lastValsScan changedTimes wasWritten].
    destruct (decide (k = Z.to_nat i)) as [->|Hnk].
    + rewrite !list_lookup_total_insert_eq by lia. rewrite Hzero.
      split; [right; reflexivity|]. split; [auto|]. congruence.
    + rewrite !list_lookup_total_insert_ne by congruence. apply Hinv.
      exact Hk.
Qed.

Lemma perform_race_inv fuel a g s :
  race_inv s -> rng_ok (fst g) -> rng_ok (snd g) -> in_array a ->
  wlp no_exit (perform fuel a g)
      (fun g' s' => race_inv s' /\ rng_ok (fst g') /\ rng_ok (snd g')) s.
Proof.
  intros Hinv Hrr Hrw Ha. destruct a as [i| |i]; cbn [perform].
  - apply wlp_bind.
    eapply wlp_mono; [|apply writer_iter_spec; [apply Hinv|exact Hrw]].
    intros rw' s' (Hrw' & idx & v & Hidx & Hfree & ->). apply wlp_ret.
    split; [apply race_inv_writer_iter; assumption|]. auto.
  - apply wlp_bind.
    eapply wlp_mono; [|apply reader_access_spec; [apply Hinv|exact Hrr]].
    intros rr' s' (Hrr' & idx & Hidx & Hfree & ->). apply wlp_ret.
    split; [apply race_inv_reader_access; exact Hinv|]. auto.
  - apply wlp_bind. apply wp_wlp.
    eapply wp_mono; [|apply race_inv_checkVals_slot; [exact Hinv|exact Ha]].
    intros [] s' Hinv'. apply wlp_ret. auto.
Qed.

Lemma interleaving_race_inv fuel sched :
  forall g s,
    race_inv s -> rng_ok (fst g) -> rng_ok (snd g) -> Forall in_array sched ->
    wlp no_exit (interleaving fuel sched g) (fun _ s' => race_inv s') s.
Proof.
  induction sched as [|a sched IH]; intros g s Hinv Hrr Hrw Hall.
  - apply wlp_ret. exact Hinv.
  - cbn [interleaving]. apply wlp_bind.
    eapply wlp_mono;
      [|apply perform_race_inv;
        [exact Hinv|exact Hrr|exact Hrw|exact (Forall_inv Hall)]].
    intros g' s' (Hinv' & Hrr' & Hrw'). apply IH; try assumption.
    exact (Forall_inv_tail Hall).
Qed.

Lemma race_inv_counters01 s : race_inv s -> counters01 s.
Proof.
  intros [(_ & _ & W3 & _) Hinv] k c Hk.
  assert (Hlt : (k < Z.to_nat VALS_SIZE)%nat).
  { rewrite <- W3. eapply lookup_lt_Some. exact Hk. }
  destruct (Hinv k Hlt) as (H01 & _).
  rewrite (list_lookup_total_correct _ _ _ Hk) in H01. exact H01.
Qed.

Lemma prepared_race_inv iter s rr rw s0 :
  wf_state s -> prepared iter s rr rw s0 ->
  rng_ok rr /\ rng_ok rw /\ race_inv s0.
Proof.
  intros Hwf Hprep.
  destruct (prepared_spec iter s rr rw s0 Hwf Hprep)
    as (Hrr & Hrw & [Hwf0 _] & Hz).
  split; [exact Hrr|]. split; [exact Hrw|]. split; [exact Hwf0|].
  assert (Hsnap : lastValsScan s0 = vals s0).
  { destruct Hprep as [(s1 & Hr & Hw)|(s1 & Hw & Hr)].
    - destruct (doReads_prepare_spec iter s Hwf)
        as (rr' & s1' & Hr' & _ & Hv & _ & Hl & _).
      rewrite Hr in Hr'. injection Hr' as <- <-.
      assert (Hwf1 : wf_state s1).
      { destruct (doReads_prepare_det iter s Hwf)
          as (rr' & s1' & Hr' & _ & Hd & _).
        rewrite Hr in Hr'. injection Hr' as <- <-. apply Hd. }
      destruct (doWrites_prepare_wf iter s1 Hwf1)
        as (rw' & s0' & Hw' & _ & _ & _ & Hl0 & Hv0).
      rewrite Hw in Hw'. injection Hw' as <- <-. congruence.
    - destruct (doWrites_prepare_wf iter s Hwf)
        as (rw' & s1' & Hw' & _ & Hwf1 & _).
      rewrite Hw in Hw'. injection Hw' as <- <-.
      destruct (doReads_prepare_spec iter s1 Hwf1)
        as (rr' & s0' & Hr' & _ & Hv & _ & Hl & _).
      rewrite Hr in Hr'. injection Hr' as <- <-. congruence. }
  intros k Hk. rewrite Hz, Hsnap.
  rewrite lookup_total_replicate_2 by exact Hk.
  split; [left; reflexivity|]. split; [discriminate|reflexivity].
Qed.

(** The sequential code is made of these steps. *)
Lemma interleaving_app fuel sched1 sched2 g s :
  interleaving fuel (sched1 ++ sched2) g s
  = bind (interleaving fuel sched1 g)
         (fun g' => interleaving fuel sched2 g') s.
Proof.
  revert g s. induction sched1 as [|a sched1 IH]; intros g s;
    [reflexivity|].
  cbn [app interleaving]. unfold bind.
  destruct (perform fuel a g s) as [g' s'|c s'| |]; try reflexivity.
  rewrite IH. reflexivity.
Qed.

Lemma check_schedule_spec fuel n lo g s :
  interleaving fuel (check_schedule lo n) g s
  = bind (for_loop n (Z.of_nat lo) (fun i _ => checkVals_slot i) tt)
         (fun _ => ret g) s.
Proof.
  revert lo s. induction n as [|n IH]; intros lo s; [reflexivity|].
  change (check_schedule lo (Datatypes.S n))
    with (detector_slot (Z.of_nat lo) :: check_schedule (Datatypes.S lo) n).
  cbn [interleaving perform for_loop]. unfold bind.
  destruct (checkVals_slot (Z.of_nat lo) s) as [[] s'|c s'| |];
    try reflexivity.
  unfold ret at 1. rewrite IH. unfold bind.
  replace (Z.of_nat (Datatypes.S lo)) with (Z.of_nat lo + 1) by lia.
  reflexivity.
Qed.

Lemma writer_schedule_spec fuel n lo rr rw s :
  interleaving fuel (writer_schedule lo n) (rr, rw) s
  = bind (for_loop n (Z.of_nat lo) (writer_iter fuel) rw)
         (fun rw' => ret (rr, rw')) s.
Proof.
  revert lo rw s. induction n as [|n IH]; intros lo rw s; [reflexivity|].
  change (writer_schedule lo (Datatypes.S n))
    with (writer_iteration (Z.of_nat lo)
          :: writer_schedule (Datatypes.S lo) n).
  cbn [interleaving perform for_loop fst snd]. unfold bind.
  destruct (writer_iter fuel (Z.of_nat lo) rw s) as [rw' s'|c s'| |];
    try reflexivity.
  unfold ret at 1. rewrite IH. unfold bind.
  replace (Z.of_nat (Datatypes.S lo)) with (Z.of_nat lo + 1) by lia.
  reflexivity.
Qed.

Lemma reader_schedule_spec fuel i rr rw s :
  interleaving fuel (reader_schedule i) (rr, rw) s
  = bind (reader_iter fuel i rr) (fun rr' => ret (rr', rw)) s.
Proof.
  unfold reader_schedule, reader_iter.
  cbn [interleaving perform fst snd]. unfold bind.
  destruct (reader_access fuel rr s) as [rr' s'|c s'| |]; try reflexivity.
  unfold ret at 1. case_bool_decide.
  - rewrite check_schedule_spec. unfold checkVals, checkVals_upto.
    change (Z.of_nat 0) with 0. unfold bind.
    destruct (for_loop (Z.to_nat CHECK_FIRST_VALS) 0
                (fun i _ => checkVals_slot i) tt s') as [[] s2|c s2| |];
      reflexivity.
  - reflexivity.
Qed.

Lemma reader_schedule_in_array i : Forall in_array (reader_schedule i).
Proof.
  unfold reader_schedule. constructor; [exact Logic.I|].
  case_bool_decide; [|constructor].
  unfold check_schedule. apply Forall_map, Forall_forall.
  intros k Hk. apply elem_of_seq in Hk. cbn [in_array]. lia.
Qed.

(** X11. No false alarm under any interleaving.  Once both workers have
    prepared, run any sequence of writer iterations, reader accesses and
    single-slot checks of the detector, in any order: the detector does
    not fire, no access is out of bounds, and every change counter stays 0
    or 1.  An iteration of the reader's loop is such a sequence (its access,
    then the slots of [checkVals] in order when the iteration checks), and
    an iteration of the writer's loop is one step, so this covers the runs
    in which the two workers overlap, as long as each access to the shared
    array takes effect at once. *)
Theorem interleaved_runs_never_trigger (fuel : nat) (iter : Z)
    (s s0 : state) (rr rw : MyRandom) (sched : list action) :
  wf_state s -> prepared iter s rr rw s0 -> Forall in_array sched ->
  never_triggered (interleaving fuel sched (rr, rw) s0) /\
  (forall i g s1,
     Forall in_array (reader_schedule i)
     /\ interleaving fuel (reader_schedule i) g s1
        = bind (reader_iter fuel i (fst g))
               (fun readRandom => ret (readRandom, snd g)) s1
     /\ interleaving fuel [writer_iteration i] g s1
        = bind (writer_iter fuel i (snd g))
               (fun writeRandom => ret (fst g, writeRandom)) s1).
Proof.
  intros Hwf Hprep Hall. split.
  - destruct (prepared_race_inv iter s rr rw s0 Hwf Hprep)
      as (Hrr & Hrw & Hinv).
    pose proof (interleaving_race_inv fuel sched (rr, rw) s0 Hinv Hrr Hrw
                  Hall) as Hrun.
    unfold wlp in Hrun. unfold never_triggered.
    destruct (interleaving fuel sched (rr, rw) s0) as [g' s'|c s'| |].
    + apply race_inv_counters01. exact Hrun.
    + exact Hrun.
    + exact Hrun.
    + exact Logic.I.
  - intros i [g1 g2] s1. split; [apply reader_schedule_in_array|].
    split; [apply reader_schedule_spec|].
    cbn [interleaving perform fst snd]. unfold bind.
    destruct (writer_iter fuel i g2 s1); reflexivity.
Qed.

Lemma interleaved_runs_never_trigger_witness :
  exists rr rw s0,
    prepared 0 example_state rr rw s0
    /\ never_triggered
         (interleaving 100
            [writer_iteration 0; reader_read; detector_slot 3;
             writer_iteration 1; detector_slot 3; reader_read]
            (rr, rw) s0).
Proof.
  destruct (doReads_prepare_det 0 example_state example_state_wf)
    as (rr & s1 & Hr & _ & Hd & _).
  destruct (doWrites_prepare_wf 0 s1 (proj1 Hd)) as (rw & s0 & Hw & _).
  assert (Hprep : prepared 0 example_state rr rw s0).
  { left. exists s1. split; assumption. }
  exists rr, rw, s0. split; [exact Hprep|].
  apply (interleaved_runs_never_trigger 100 0 example_state s0 rr rw
           [writer_iteration 0; reader_read; detector_slot 3;
            writer_iteration 1; detector_slot 3; reader_read]
           example_state_wf Hprep).
  repeat constructor; unfold CHECK_FIRST_VALS, VALS_SIZE; lia.
Defined.

(** * The preparation phases *)

Lemma state_ext (s s' : state) :
  vals s = vals s' -> lastValsScan s = lastValsScan s' ->
  changedTimes s = changedTimes s' -> wasRead s = wasRead s' ->
  wasWritten s = wasWritten s' -> savedRead s = savedRead s' ->
  stderr s = stderr s' -> s = s'.
Proof. destruct s, s'. cbn. congruence. Qed.

Lemma new_MyRandom_inv {S} seed (s : S) r s' :
  new_MyRandom seed s = Ok r s' ->
  initMyRandom seed indeterminate_MyRandom = Ok tt r /\ s' = s.
Proof.
  destruct (new_MyRandom_spec seed s) as (r0 & Hinit & Hnew & _).
  rewrite Hnew. intros Heq. injection Heq as <- <-. auto.
Qed.

Lemma doReads_prepare_rng iter s rr s' :
  doReads_prepare iter s = Ok rr s' ->
  initMyRandom (uint32 (READ_RANDOM_START_SEED + iter)) indeterminate_MyRandom
  = Ok tt rr.
Proof.
  unfold doReads_prepare. intros H.
  apply bind_Ok_inv in H. destruct H as (u1 & s1 & _ & H).
  apply bind_Ok_inv in H. destruct H as (u2 & s2 & _ & H).
  apply new_MyRandom_inv in H. apply H.
Qed.

Lemma doWrites_prepare_rng iter s rw s' :
  doWrites_prepare iter s = Ok rw s' ->
  initMyRandom (uint32 (WRITE_RANDOM_START_SEED + iter)) indeterminate_MyRandom
  = Ok tt rw.
Proof.
  unfold doWrites_prepare. intros H.
  apply bind_Ok_inv in H. destruct H as (u1 & s1 & _ & H).
  apply new_MyRandom_inv in H. apply H.
Qed.

(** X12. The two preparation phases commute.  The reader's preparation
    writes its own flags, the snapshot, the change counters and
    [savedRead]; the writer's writes its own flags; so whichever of the two
    runs first, both return and they leave the same store and the same two
    generators. *)
Theorem preparations_commute (iter : Z) (s : state) :
  wf_state s ->
  exists rr rw s0,
    (exists s1, doReads_prepare iter s = Ok rr s1
                /\ doWrites_prepare iter s1 = Ok rw s0) /\
    (exists s1, doWrites_prepare iter s = Ok rw s1
                /\ doReads_prepare iter s1 = Ok rr s0).
Proof.
  intros Hwf.
  destruct (doReads_prepare_spec iter s Hwf)
    as (rr & s1 & Hr1 & _ & Hv1 & Hwr1 & Hl1 & Hc1 & Hww1 & Hsr1 & He1).
  assert (Hwf1 : wf_state s1).
  { destruct (doReads_prepare_det iter s Hwf)
      as (rr' & s1' & Hr' & _ & Hd & _).
    rewrite Hr1 in Hr'. injection Hr' as <- <-. apply Hd. }
  destruct (doWrites_prepare_spec iter s1 Hwf1)
    as (rw & s0 & Hw0 & _ & Hww0 & Hv0 & Hl0 & Hc0 & Hwr0 & Hsr0 & He0).
  destruct (doWrites_prepare_spec iter s Hwf)
    as (rw' & s1' & Hw1' & _ & Hww1' & Hv1' & Hl1' & Hc1' & Hwr1' & Hsr1'
        & He1').
  assert (Hwf1' : wf_state s1').
  { destruct (doWrites_prepare_wf iter s Hwf)
      as (rw2 & s2 & Hw2 & _ & Hwf2 & _).
    rewrite Hw1' in Hw2. injection Hw2 as <- <-. exact Hwf2. }
  destruct (doReads_prepare_spec iter s1' Hwf1')
    as (rr' & s0' & Hr0' & _ & Hv0' & Hwr0' & Hl0' & Hc0' & Hww0' & Hsr0'
        & He0').
  assert (Hrr : rr' = rr).
  { pose proof (doReads_prepare_rng _ _ _ _ Hr1) as H1.
    pose proof (doReads_prepare_rng _ _ _ _ Hr0') as H2.
    rewrite H1 in H2. injection H2 as <-. reflexivity. }
  assert (Hrw : rw' = rw).
  { pose proof (doWrites_prepare_rng _ _ _ _ Hw0) as H1.
    pose proof (doWrites_prepare_rng _ _ _ _ Hw1') as H2.
    rewrite H1 in H2. injection H2 as <-. reflexivity. }
  assert (Hs : s0' = s0).
  { apply state_ext; congruence. }
  subst rr' rw' s0'.
  exists rr, rw, s0. split.
  - exists s1. split; assumption.
  - exists s1'. split; assumption.
Qed.

Lemma preparations_commute_witness :
  exists rr rw s0,
    (exists s1, doReads_prepare 0 stale_state = Ok rr s1
                /\ doWrites_prepare 0 s1 = Ok rw s0) /\
    (exists s1, doWrites_prepare 0 stale_state = Ok rw s1
                /\ doReads_prepare 0 s1 = Ok rr s0).
Proof. exact (preparations_commute 0 stale_state stale_state_wf). Defined.

(** X13. Every trial starts afresh.  What [doReads] does depends on the
    shared array, the writer's flags and [stderr] only, not on what an
    earlier trial left in the reader's flags, the snapshot, the change
    counters or [savedRead]; and what [doWrites] does does not depend on
    what was left in the writer's flags. *)
Theorem workers_start_afresh (fuel : nat) (iter : Z) (s : state)
    (snapshot counters : list Z) (read written : list bool) (saved : Z) :
  wf_state s ->
  length snapshot = Z.to_nat VALS_SIZE ->
  length counters = Z.to_nat VALS_SIZE ->
  length read = Z.to_nat VALS_SIZE ->
  length written = Z.to_nat VALS_SIZE ->
  doReads fuel iter
    (mkState (vals s) snapshot counters read (wasWritten s) saved (stderr s))
  = doReads fuel iter s
  /\ doWrites fuel iter (set_wasWritten written s) = doWrites fuel iter s.
Proof.
  intros Hwf Hl Hc Hr Hw. pose proof Hwf as (W1 & W2 & W3 & W4 & W5). split.
  - set (s' := mkState _ _ _ _ _ _ _).
    assert (Hwf' : wf_state s').
    { unfold wf_state, s'. cbn [vals lastValsScan changedTimes wasRead
        wasWritten]. tauto. }
    destruct (doReads_prepare_spec iter s Hwf)
      as (rr & s1 & Hp & _ & Hv1 & Hwr1 & Hl1 & Hc1 & Hww1 & Hsr1 & He1).
    destruct (doReads_prepare_spec iter s' Hwf')
      as (rr' & s1' & Hp' & _ & Hv1' & Hwr1' & Hl1' & Hc1' & Hww1' & Hsr1'
          & He1').
    assert (Hrr : rr' = rr).
    { pose proof (doReads_prepare_rng _ _ _ _ Hp) as H1.
      pose proof (doReads_prepare_rng _ _ _ _ Hp') as H2.
      rewrite H1 in H2. injection H2 as <-. reflexivity. }
    assert (Hs : s1' = s1).
    { apply state_ext; unfold s' in *;
        cbn [vals wasWritten stderr] in *; congruence. }
    subst rr' s1'. unfold doReads. run Hp. run Hp'. reflexivity.
  - set (s' := set_wasWritten written s).
    assert (Hwf' : wf_state s').
    { unfold wf_state, s'. cbn [vals lastValsScan changedTimes wasRead
        wasWritten set_wasWritten]. tauto. }
    destruct (doWrites_prepare_spec iter s Hwf)
      as (rw & s1 & Hp & _ & Hww1 & Hv1 & Hl1 & Hc1 & Hwr1 & Hsr1 & He1).
    destruct (doWrites_prepare_spec iter s' Hwf')
      as (rw' & s1' & Hp' & _ & Hww1' & Hv1' & Hl1' & Hc1' & Hwr1' & Hsr1'
          & He1').
    assert (Hrw : rw' = rw).
    { pose proof (doWrites_prepare_rng _ _ _ _ Hp) as H1.
      pose proof (doWrites_prepare_rng _ _ _ _ Hp') as H2.
      rewrite H1 in H2. injection H2 as <-. reflexivity. }
    assert (Hs : s1' = s1).
    { apply state_ext; unfold s' in *;
        cbn [vals lastValsScan changedTimes wasRead savedRead stderr
             set_wasWritten] in *; congruence. }
    subst rw' s1'. unfold doWrites. run Hp. run Hp'. reflexivity.
Qed.

Lemma workers_start_afresh_witness :
  doReads 100 3
    (mkState (vals example_state) (lastValsScan stale_state)
       (changedTimes stale_state) (wasRead stale_state)
       (wasWritten example_state) 9 (stderr example_state))
  = doReads 100 3 example_state
  /\ doWrites 100 3 (set_wasWritten (wasWritten stale_state) example_state)
     = doWrites 100 3 example_state.
Proof.
  destruct stale_state_wf as (_ & W2 & W3 & W4 & W5).
  exact (workers_start_afresh 100 3 example_state (lastValsScan stale_state)
           (changedTimes stale_state) (wasRead stale_state)
           (wasWritten stale_state) 9 example_state_wf W2 W3 W4 W5).
Defined.
